(** * multiprof: the wrapper and the management commands

    A shallow embedding of [multiprof.go]: [runWrapper] and the helpers it
    calls ([expandPath], [getWrapperDir], [debugf], [logError], [logInfo]),
    [main], and the management commands behind [runManager] ([runInit],
    [runAddRule], [runAddWrapper] with [createCompletionFile], [runList],
    [printUsage]), together with the parts of the Go standard library
    ([strings], [path/filepath], [os], [flag], [fmt], [log]) and of
    [github.com/gobwas/glob] that they go through.

    - Strings are byte strings ([string], one [ascii] per byte) and a rune
      is one byte: the development speaks about ASCII paths and patterns.
    - The process environment is a finite map from names to values;
      [os.Setenv] leaves it as it is where the call fails.
    - [runWrapper] is a computation in a state monad over the environment,
      the global [debugMode] and the output; it ends in [os.Exit], in
      [syscall.Exec] or in a panic.
    - The calls of [glob.Compile] and of [exec.LookPath] are recorded in
      the output, so that a statement can speak of the rules examined and
      of the environment a lookup runs in.
    - What the surroundings answer ([os.Args], [os.Getwd], the decoded
      configuration, [exec.LookPath]) is a parameter of the run.
    - A management command is a computation in a second state monad,
      which records the operations on files ([os.Stat], the decoding and
      the encoding of the configuration, [os.Create], [os.Symlink], ...)
      between what the command writes; the error each operation returns,
      [os.Executable] and the embedded texts are parameters of the
      run. *)

From Stdlib Require Import String Ascii List Arith Bool Lia DecimalString.
From stdpp Require Import base option gmap strings.

Local Open Scope string_scope.

(* [simpl] may unfold string concatenation when its first argument starts
   with a constructor. *)
#[local] Arguments String.append !_ _ : simpl nomatch.

(** ** Byte strings: slicing *)

(** [s[n:]] *)
Fixpoint sdrop (n : nat) (s : string) : string :=
  match n, s with
  | 0, _ => s
  | S n', String _ s' => sdrop n' s'
  | S _, EmptyString => EmptyString
  end.

(** [s[:n]] *)
Fixpoint stake (n : nat) (s : string) : string :=
  match n, s with
  | 0, _ => EmptyString
  | S n', String c s' => String c (stake n' s')
  | S _, EmptyString => EmptyString
  end.

(** [strings.IndexByte(s, c) >= 0] *)
Fixpoint hasByte (c : ascii) (s : string) : bool :=
  match s with
  | EmptyString => false
  | String d s' => if Ascii.eqb d c then true else hasByte c s'
  end.

(** ** Package [strings] *)

Module strings.

(** [len(s) >= len(prefix) && s[:len(prefix)] == prefix] *)
Definition HasPrefix (s prefix : string) : bool :=
  Nat.leb (String.length prefix) (String.length s)
  && String.eqb (stake (String.length prefix) s) prefix.

(** [len(s) >= len(suffix) && s[len(s)-len(suffix):] == suffix] *)
Definition HasSuffix (s suffix : string) : bool :=
  Nat.leb (String.length suffix) (String.length s)
  && String.eqb (sdrop (String.length s - String.length suffix) s) suffix.

(** [if HasSuffix(s, suffix) { return s[:len(s)-len(suffix)] }; return s] *)
Definition TrimSuffix (s suffix : string) : string :=
  if HasSuffix s suffix
  then stake (String.length s - String.length suffix) s
  else s.

(** [if HasPrefix(s, prefix) { return s[len(prefix):] }; return s] *)
Definition TrimPrefix (s prefix : string) : string :=
  if HasPrefix s prefix then sdrop (String.length prefix) s else s.

(** [Index] returns the byte offset of the first instance of [substr] in
    [s]; Go's [-1] is [None]. *)
Fixpoint Index (s substr : string) : option nat :=
  if HasPrefix s substr then Some 0
  else match s with
       | EmptyString => None
       | String _ s' => S <$> Index s' substr
       end.

Definition Contains (s substr : string) : bool :=
  match Index s substr with Some _ => true | None => false end.

(** The loop of [Count] for a non-empty [substr]:
    [for { i := Index(s, substr); if i == -1 { return n }; n++;
           s = s[i+len(substr):] }].
    Every round drops at least one byte, so [S (len s)] rounds are
    enough; [fuel] bounds the rounds. *)
Fixpoint countLoop (fuel : nat) (s substr : string) : nat :=
  match fuel with
  | 0 => 0
  | S fuel' =>
      match Index s substr with
      | None => 0
      | Some i => S (countLoop fuel' (sdrop (i + String.length substr) s) substr)
      end
  end.

Definition Count (s substr : string) : nat :=
  if String.eqb substr "" then String.length s + 1
  else countLoop (S (String.length s)) s substr.

(** The replacement loop of [Replace] for a non-empty [old]; the argument
    [s] is [s[start:]], the result is what the builder holds at the end:
    [j := start + Index(s[start:], old); b.WriteString(s[start:j]);
     b.WriteString(new); start = j + len(old)], [n] times, then
    [b.WriteString(s[start:])]. *)
Fixpoint replaceLoop (n : nat) (s old new : string) : string :=
  match n with
  | 0 => s
  | S n' =>
      match Index s old with
      | None => s
      | Some j =>
          stake j s ++ new ++ replaceLoop n' (sdrop (j + String.length old) s) old new
      end
  end.

(** The loop of [Replace] for the empty [old]: [new] goes in front of
    every byte and at the end. *)
Fixpoint interleave (s new : string) : string :=
  match s with
  | EmptyString => new
  | String c s' => new ++ String c (interleave s' new)
  end.

(** [ReplaceAll(s, old, new) = Replace(s, old, new, -1)] *)
Definition ReplaceAll (s old new : string) : string :=
  if String.eqb old new then s
  else match Count s old with
       | 0 => s
       | m => if String.eqb old "" then interleave s new
              else replaceLoop m s old new
       end.

(** [Join(elems, sep)] *)
Fixpoint Join (elems : list string) (sep : string) : string :=
  match elems with
  | [] => ""
  | [e] => e
  | e :: rest => e ++ sep ++ Join rest sep
  end.

(** [Split(s, sep)] for a one-byte separator: the fields between the
    separators, [cur] being the part of the current field read so far. *)
Fixpoint splitByte (sep : ascii) (s : string) (cur : string) : list string :=
  match s with
  | EmptyString => [cur]
  | String c s' =>
      if Ascii.eqb c sep then cur :: splitByte sep s' ""
      else splitByte sep s' (cur ++ String c "")
  end.

End strings.

(** ** Package [path/filepath] (Unix) *)

Module filepath.

Definition Separator : ascii := "/"%char.

Definition IsPathSeparator (c : ascii) : bool := Ascii.eqb c Separator.

(** [r+1 == n || os.IsPathSeparator(path[r+1])], on the rest of the path. *)
Definition elemEnd (rest : string) : bool :=
  match rest with
  | EmptyString => true
  | String c _ => IsPathSeparator c
  end.

(** The output buffer of [Clean] is kept reversed: its head is the byte
    written last and its length is [out.w].

    [out.w--; for out.w > dotdot && !os.IsPathSeparator(out.index(out.w)) { out.w-- }]:
    [c] is the byte at index [out.w], the one dropped last. *)
Fixpoint backtrackLoop (dotdot : nat) (c : ascii) (out : list ascii) : list ascii :=
  if Nat.ltb dotdot (length out) && negb (IsPathSeparator c)
  then match out with
       | c' :: out' => backtrackLoop dotdot c' out'
       | [] => []
       end
  else out.

Definition backtrack (dotdot : nat) (out : list ascii) : list ascii :=
  match out with
  | c :: out' => backtrackLoop dotdot c out'
  | [] => []
  end.

(** The main loop of [Clean], [for r < n { switch { ... } }], on the unread
    part [path[r:]].  [inElem] is set while the inner loop of the default
    case ("copy element") is running; that loop stops at a separator, which
    the next round of the main loop skips. *)
Fixpoint cleanLoop (rooted inElem : bool) (path : string)
    (out : list ascii) (dotdot : nat) : list ascii :=
  match path with
  | EmptyString => out
  | String c r =>
      let element (_ : unit) :=
        (* real path element: add slash if needed, copy element *)
        let out1 :=
          if (rooted && negb (Nat.eqb (length out) 1)) || (negb rooted && negb (Nat.eqb (length out) 0))
          then Separator :: out else out in
        cleanLoop rooted true r (c :: out1) dotdot in
      if IsPathSeparator c then cleanLoop rooted false r out dotdot
      else if inElem then cleanLoop rooted true r (c :: out) dotdot
      else if Ascii.eqb c "." && elemEnd r then
        (* . element *)
        cleanLoop rooted false r out dotdot
      else
        match r with
        | String c2 r2 =>
            if Ascii.eqb c "." && Ascii.eqb c2 "." && elemEnd r2 then
              (* .. element: remove to last separator *)
              if Nat.ltb dotdot (length out) then
                cleanLoop rooted false r2 (backtrack dotdot out) dotdot
              else if negb rooted then
                let out1 := if Nat.ltb 0 (length out) then Separator :: out else out in
                let out2 := "."%char :: "."%char :: out1 in
                cleanLoop rooted false r2 out2 (length out2)
              else cleanLoop rooted false r2 out dotdot
            else element tt
        | EmptyString => element tt
        end
  end.

Definition Clean (path : string) : string :=
  match path with
  | EmptyString => "."
  | String c rest =>
      let rooted := IsPathSeparator c in
      let out :=
        if rooted then cleanLoop true false rest [Separator] 1
        else cleanLoop false false path [] 0 in
      match out with
      | [] => "."
      | _ => string_of_list_ascii (rev out)
      end
  end.

(** [for i, e := range elem { if e != "" {
      return Clean(strings.Join(elem[i:], string(Separator))) } }; return ""] *)
Fixpoint Join (elem : list string) : string :=
  match elem with
  | [] => ""
  | e :: rest =>
      if String.eqb e "" then Join rest
      else Clean (strings.Join elem (String Separator ""))
  end.

(** Strip trailing slashes: the reversed path without its leading
    separators. *)
Fixpoint stripSeps (rpath : list ascii) : list ascii :=
  match rpath with
  | c :: r => if IsPathSeparator c then stripSeps r else rpath
  | [] => []
  end.

(** The last element: the bytes of the reversed path up to the first
    separator, put back in order onto [acc]. *)
Fixpoint lastElem (rpath : list ascii) (acc : string) : string :=
  match rpath with
  | c :: r => if IsPathSeparator c then acc else lastElem r (String c acc)
  | [] => acc
  end.

Definition Base (path : string) : string :=
  if String.eqb path "" then "."
  else
    let elem := lastElem (stripSeps (rev (list_ascii_of_string path))) "" in
    if String.eqb elem "" then String Separator "" else elem.

Definition IsAbs (path : string) : bool := strings.HasPrefix path "/".

(** [i := len(path) - 1; for i >= 0 && !os.IsPathSeparator(path[i]) { i-- }]
    on the reversed path: what is left is [path[:i+1]], reversed. *)
Fixpoint dropLastElem (rpath : list ascii) : list ascii :=
  match rpath with
  | c :: r => if IsPathSeparator c then rpath else dropLastElem r
  | [] => []
  end.

(** [Dir(path) = Clean(path[:i+1])] (there is no volume name on Unix). *)
Definition Dir (path : string) : string :=
  Clean (string_of_list_ascii (rev (dropLastElem (rev (list_ascii_of_string path))))).

Definition SplitList (path : string) : list string :=
  if String.eqb path "" then [] else strings.splitByte ":" path "".

End filepath.

(** ** Package [os]: the process environment *)

Module os.

(** [Getenv] returns the empty string for an unset variable. *)
Definition Getenv (env : gmap string string) (key : string) : string :=
  default "" (env !! key).

(** [Setenv] fails with [EINVAL], the environment left as it is, on an
    empty key, on a [=] or a NUL byte in the key and on a NUL byte in the
    value; the program drops the error of its three calls. *)
Definition Setenv (key value : string) (env : gmap string string)
    : gmap string string :=
  if String.eqb key "" || hasByte "=" key || hasByte Ascii.zero key
     || hasByte Ascii.zero value
  then env
  else <[key := value]> env.

(** [UserHomeDir] on Unix: [if v := Getenv("HOME"); v != "" { return v, nil }]
    and an error otherwise ([None]). *)
Definition UserHomeDir (env : gmap string string) : option string :=
  let v := Getenv env "HOME" in
  if String.eqb v "" then None else Some v.

Definition isShellSpecialVar (c : ascii) : bool := hasByte c "*#$@!?-0123456789".

Definition isAlphaNum (c : ascii) : bool :=
  Ascii.eqb c "_"
  || (Ascii.leb "0" c && Ascii.leb c "9")
  || (Ascii.leb "a" c && Ascii.leb c "z")
  || (Ascii.leb "A" c && Ascii.leb c "Z").

(** [for i = 0; i < len(s) && isAlphaNum(s[i]); i++ {}; return s[:i], i] *)
Fixpoint scanAlphaNum (s : string) : string :=
  match s with
  | String c s' => if isAlphaNum c then String c (scanAlphaNum s') else ""
  | EmptyString => ""
  end.

(** Scan to the closing brace, from index [i] on [s[i:]]:
    [if s[i] == '}' { if i == 1 { return "", 2 }; return s[1:i], i + 1 }];
    [acc] is [s[1:i]].  Without a brace: [return "", 1]. *)
Fixpoint scanBrace (i : nat) (acc : string) (s : string) : string * nat :=
  match s with
  | String c s' =>
      if Ascii.eqb c "}" then (if Nat.eqb i 1 then ("", 2) else (acc, i + 1))
      else scanBrace (S i) (acc ++ String c "") s'
  | EmptyString => ("", 1)
  end.

(** [getShellName] returns the name that begins [s] and the number of bytes
    consumed; it is called on a non-empty [s]. *)
Definition getShellName (s : string) : string * nat :=
  match s with
  | String c r =>
      if Ascii.eqb c "{" then
        match r with
        | String c1 (String c2 _) =>
            if isShellSpecialVar c1 && Ascii.eqb c2 "}" then (String c1 "", 3)
            else scanBrace 1 "" r
        | _ => scanBrace 1 "" r
        end
      else if isShellSpecialVar c then (String c "", 1)
      else let name := scanAlphaNum s in (name, String.length name)
  | EmptyString => ("", 0)
  end.

(** The loop of [Expand] on the unread part of [s]; [skip] counts the bytes
    of a reference still to be passed over ([j += w]). *)
Fixpoint expandLoop (mapping : string -> string) (skip : nat) (s : string) : string :=
  match s with
  | EmptyString => ""
  | String c r =>
      match skip with
      | S skip' => expandLoop mapping skip' r
      | 0 =>
          if Ascii.eqb c "$" && negb (String.eqb r "") then
            let '(name, w) := getShellName r in
            let piece :=
              if String.eqb name "" then
                (* invalid syntax: eat the characters; no name: leave the dollar *)
                if Nat.ltb 0 w then "" else "$"
              else mapping name in
            piece ++ expandLoop mapping w r
          else String c (expandLoop mapping 0 r)
      end
  end.

Definition Expand (s : string) (mapping : string -> string) : string :=
  expandLoop mapping 0 s.

Definition ExpandEnv (env : gmap string string) (s : string) : string :=
  Expand s (Getenv env).

End os.

(** ** Package [github.com/gobwas/glob]

    [Compile(pattern, separators...)] lexes and parses the pattern and
    fails on a syntax error; the glob it returns is modelled by the parsed
    pattern, and [Match] by the meaning the package documents for each
    term:
    - [*] any sequence of non-separator characters,
    - [**] any sequence of characters,
    - [?] any single non-separator character,
    - [[...]], [[!...]], [[lo-hi]] a character class,
    - [{a,b}] alternatives, [\c] the character [c].
    A character is a separator when it is among the [separators] given to
    [Compile]. *)

Module glob.

Inductive TokenType :=
  | EOF | Error | Text | Any | Super | Single | Not | Separator
  | RangeOpen | RangeClose | RangeLo | RangeHi | RangeBetween
  | TermsOpen | TermsClose.

Record Token := { TType : TokenType; Raw : string }.

Definition char_any : ascii := "*".
Definition char_comma : ascii := ",".
Definition char_single : ascii := "?".
Definition char_escape : ascii := ascii_of_nat 92.
Definition char_range_open : ascii := "[".
Definition char_range_close : ascii := "]".
Definition char_terms_open : ascii := "{".
Definition char_terms_close : ascii := "}".
Definition char_range_not : ascii := "!".
Definition char_range_between : ascii := "-".

Definition inTextBreakers : string := "?*[{".
Definition inTermsBreakers : string := "?*[{},".

Definition str (c : ascii) : string := String c "".

(** [fetchText(breakers)]: the text read and the unread rest. *)
Fixpoint fetchText (breakers : string) (escaped : bool) (s : string) : string * string :=
  match s with
  | EmptyString => ("", "")
  | String r s' =>
      if negb escaped && Ascii.eqb r char_escape then fetchText breakers true s'
      else if negb escaped && hasByte r breakers then ("", s)
      else let '(data, rest) := fetchText breakers false s' in (String r data, rest)
  end.

Definition textToken (data : string) : list Token :=
  if String.eqb data "" then [] else [{| TType := Text; Raw := data |}].

(** [fetchRange]: the tokens of a character class and the unread rest, or
    the lexer's error. *)
Fixpoint fetchRange (fuel : nat) (wantHi wantClose seenNot : bool) (s : string)
    : (list Token * string) + string :=
  match fuel with
  | 0 => inr "unexpected end of input"
  | S fuel' =>
      match s with
      | EmptyString => inr "unexpected end of input"
      | String r s' =>
          if wantClose then
            if Ascii.eqb r char_range_close
            then inl ([{| TType := RangeClose; Raw := str r |}], s')
            else inr "expected close range character"
          else if wantHi then
            match fetchRange fuel' wantHi true seenNot s' with
            | inl (ts, rest) => inl ({| TType := RangeHi; Raw := str r |} :: ts, rest)
            | inr e => inr e
            end
          else if negb seenNot && Ascii.eqb r char_range_not then
            match fetchRange fuel' wantHi wantClose true s' with
            | inl (ts, rest) => inl ({| TType := Not; Raw := str r |} :: ts, rest)
            | inr e => inr e
            end
          else
            match s' with
            | String n s'' =>
                if Ascii.eqb n char_range_between then
                  match fetchRange fuel' true wantClose seenNot s'' with
                  | inl (ts, rest) =>
                      inl ({| TType := RangeLo; Raw := str r |}
                           :: {| TType := RangeBetween; Raw := str n |} :: ts, rest)
                  | inr e => inr e
                  end
                else
                  let '(data, rest0) := fetchText (str char_range_close) false s in
                  match fetchRange fuel' wantHi true seenNot rest0 with
                  | inl (ts, rest) => inl ((textToken data ++ ts)%list, rest)
                  | inr e => inr e
                  end
            | EmptyString =>
                let '(data, rest0) := fetchText (str char_range_close) false s in
                match fetchRange fuel' wantHi true seenNot rest0 with
                | inl (ts, rest) => inl ((textToken data ++ ts)%list, rest)
                | inr e => inr e
                end
            end
      end
  end.

(** The lexer: [fetchItem] repeated until the end of input.  The token
    list ends with [EOF], or with [Error] where the lexer fails.  Every
    item reads at least one byte, so [S (len s)] rounds are enough. *)
Fixpoint lexLoop (fuel : nat) (termsLevel : nat) (s : string) : list Token :=
  match fuel with
  | 0 => [{| TType := EOF; Raw := "" |}]
  | S fuel' =>
      match s with
      | EmptyString => [{| TType := EOF; Raw := "" |}]
      | String r s' =>
          let inTerms := Nat.ltb 0 termsLevel in
          if Ascii.eqb r char_terms_open then
            {| TType := TermsOpen; Raw := str r |} :: lexLoop fuel' (S termsLevel) s'
          else if Ascii.eqb r char_comma && inTerms then
            {| TType := Separator; Raw := str r |} :: lexLoop fuel' termsLevel s'
          else if Ascii.eqb r char_terms_close && inTerms then
            {| TType := TermsClose; Raw := str r |} :: lexLoop fuel' (termsLevel - 1) s'
          else if Ascii.eqb r char_range_open then
            match fetchRange (S (String.length s')) false false false s' with
            | inl (ts, rest) =>
                ({| TType := RangeOpen; Raw := str r |} :: ts ++ lexLoop fuel' termsLevel rest)%list
            | inr e => [{| TType := Error; Raw := e |}]
            end
          else if Ascii.eqb r char_single then
            {| TType := Single; Raw := str r |} :: lexLoop fuel' termsLevel s'
          else if Ascii.eqb r char_any then
            match s' with
            | String r2 s'' =>
                if Ascii.eqb r2 char_any
                then {| TType := Super; Raw := "**" |} :: lexLoop fuel' termsLevel s''
                else {| TType := Any; Raw := str r |} :: lexLoop fuel' termsLevel s'
            | EmptyString => {| TType := Any; Raw := str r |} :: lexLoop fuel' termsLevel s'
            end
          else
            let breakers := if inTerms then inTermsBreakers else inTextBreakers in
            let '(data, rest) := fetchText breakers false s in
            (textToken data ++ lexLoop fuel' termsLevel rest)%list
      end
  end.

Definition lex (source : string) : list Token :=
  lexLoop (S (String.length source)) 0 source.

(** The syntax tree: a pattern is a list of nodes.  (No proof below goes
    by induction on nodes, so the plain induction scheme is enough.) *)
#[local] Set Warnings "-register-all".
Inductive Node :=
  | KindText (text : string)
  | KindAny
  | KindSuper
  | KindSingle
  | KindList (chars : string) (not : bool)
  | KindRange (lo hi : ascii) (not : bool)
  | KindAnyOf (alternatives : list (list Node)).

Definition firstByte (raw : string) : ascii :=
  match raw with
  | String c _ => c
  | EmptyString => zero
  end.

Definition isZero (c : ascii) : bool := Ascii.eqb c zero.

(** [parserRange]: reads the tokens of one character class up to
    [RangeClose]; the node and the tokens left, or the parser's error. *)
Fixpoint parserRange (not : bool) (lo hi : ascii) (chars : string)
    (tokens : list Token) : (Node * list Token) + string :=
  match tokens with
  | [] => inr "unexpected end"
  | token :: rest =>
      match TType token with
      | EOF => inr "unexpected end"
      | Error => inr (Raw token)
      | Not => parserRange true lo hi chars rest
      | RangeLo => parserRange not (firstByte (Raw token)) hi chars rest
      | RangeBetween => parserRange not lo hi chars rest
      | RangeHi =>
          let hi' := firstByte (Raw token) in
          if Ascii.ltb hi' lo
          then inr "hi character should be greater than lo"
          else parserRange not lo hi' chars rest
      | Text => parserRange not lo hi (Raw token) rest
      | RangeClose =>
          let isRange := negb (isZero lo) && negb (isZero hi) in
          let isChars := negb (String.eqb chars "") in
          if Bool.eqb isChars isRange then inr "could not parse range"
          else if isRange then inl (KindRange lo hi not, rest)
          else inl (KindList chars not, rest)
      | _ => parserRange not lo hi chars rest
      end
  end.

(** The position of [parserMain] in the tree: [cur] holds the children of
    the pattern node being filled, and every enclosing [{] contributes a
    frame with the children its parent pattern had when the [{] came and
    the alternatives completed since. *)
Definition Frame : Type := list Node * list (list Node).

(** [tree.Parent.Parent]: the pattern under construction becomes the last
    alternative of its [KindAnyOf] node, which is the last child of the
    parent pattern. *)
Definition closeFrame (f : Frame) (cur : list Node) : list Node :=
  (f.1 ++ [KindAnyOf (f.2 ++ [cur])])%list.

(** At the end of input the root is returned as it stands, with the
    patterns of unclosed [{] in place. *)
Fixpoint closeAll (stack : list Frame) (cur : list Node) : list Node :=
  match stack with
  | [] => cur
  | f :: stack' => closeAll stack' (closeFrame f cur)
  end.

(** [parserMain] with [parserRange], token by token.  [fuel] bounds the
    tokens read and is the length of the token list. *)
Fixpoint parse (fuel : nat) (stack : list Frame) (cur : list Node)
    (tokens : list Token) : list Node + string :=
  match fuel with
  | 0 => inl (closeAll stack cur)
  | S fuel' =>
      match tokens with
      | [] => inl (closeAll stack cur)
      | token :: rest =>
          match TType token with
          | EOF => inl (closeAll stack cur)
          | Error => inr (Raw token)
          | Text => parse fuel' stack (cur ++ [KindText (Raw token)])%list rest
          | Any => parse fuel' stack (cur ++ [KindAny])%list rest
          | Super => parse fuel' stack (cur ++ [KindSuper])%list rest
          | Single => parse fuel' stack (cur ++ [KindSingle])%list rest
          | RangeOpen =>
              match parserRange false zero zero "" rest with
              | inl (node, rest') =>
                  parse fuel' stack (cur ++ [node])%list rest'
              | inr e => inr e
              end
          | TermsOpen => parse fuel' ((cur, []) :: stack) [] rest
          | Separator =>
              match stack with
              | (parent, alts) :: stack' =>
                  parse fuel' ((parent, alts ++ [cur])%list :: stack') [] rest
              | [] => inr "unexpected token"
              end
          | TermsClose =>
              match stack with
              | f :: stack' => parse fuel' stack' (closeFrame f cur) rest
              | [] => inr "unexpected token"
              end
          | _ => inr "unexpected token"
          end
      end
  end.

(** A compiled glob: the pattern and the separators it was compiled
    with. *)
Record Glob := { nodes : list Node; separators : string }.

(** [Compile(pattern, separators...)]: [inr] is the error, with which Go
    returns a nil [Glob]. *)
Definition Compile (pattern : string) (separators : string) : Glob + string :=
  let tokens := lex pattern in
  match parse (length tokens) [] [] tokens with
  | inl ns => inl {| nodes := ns; separators := separators |}
  | inr e => inr e
  end.

(** Any sequence of non-separator bytes, then [k] on the rest. *)
Fixpoint anyThen (seps : string) (k : string -> bool) (s : string) : bool :=
  k s ||
  match s with
  | String c s' => negb (hasByte c seps) && anyThen seps k s'
  | EmptyString => false
  end.

(** One node against a prefix of [s], then [k] on the rest. *)
Fixpoint matchNode (seps : string) (n : Node) (k : string -> bool) (s : string)
    {struct n} : bool :=
  match n with
  | KindText text =>
      strings.HasPrefix s text && k (sdrop (String.length text) s)
  | KindAny => anyThen seps k s
  | KindSuper => anyThen "" k s
  | KindSingle =>
      match s with
      | String c s' => negb (hasByte c seps) && k s'
      | EmptyString => false
      end
  | KindList chars not =>
      match s with
      | String c s' => Bool.eqb (hasByte c chars) (negb not) && k s'
      | EmptyString => false
      end
  | KindRange lo hi not =>
      match s with
      | String c s' =>
          Bool.eqb (Ascii.leb lo c && Ascii.leb c hi) (negb not) && k s'
      | EmptyString => false
      end
  | KindAnyOf alternatives =>
      existsb
        (fun alt =>
           (fix matchSeq (ns : list Node) (k : string -> bool) : string -> bool :=
              match ns with
              | [] => k
              | n' :: ns' => fun s' => matchNode seps n' (matchSeq ns' k) s'
              end) alt k s)
        alternatives
  end.

Fixpoint matchNodes (seps : string) (ns : list Node) (k : string -> bool)
    (s : string) : bool :=
  match ns with
  | [] => k s
  | n :: ns' => matchNode seps n (matchNodes seps ns' k) s
  end.

(** [g.Match(s)]: the whole of [s] is a word of the pattern. *)
Definition Match (g : Glob) (s : string) : bool :=
  matchNodes (separators g) (nodes g) (fun rest => String.eqb rest "") s.

End glob.

(** ** The program: configuration, process state, output *)

(** --- Constants --- *)
Definition wrapperDirName : string := ".local/bin/multiprof".
Definition debugEnvVar : string := "MULTIPROF_DEBUG".

(** --- Configuration Structs --- *)
Record Rule := { Pattern : string; Home : string }.
Record Settings := { Suffix : string }.
Record Config := { settings : Settings; Rules : list Rule }.

(** [fmt.Sprintf] for the verbs the program uses, [%s] and [%v], on
    arguments already turned into strings. *)
Fixpoint Sprintf (format : string) (args : list string) : string :=
  match format with
  | String c rest =>
      match rest with
      | String v rest' =>
          if Ascii.eqb c "%" && (Ascii.eqb v "s" || Ascii.eqb v "v") then
            match args with
            | a :: args' => a ++ Sprintf rest' args'
            | [] => "%!" ++ String v "(MISSING)" ++ Sprintf rest' []
            end
          else String c (Sprintf rest args)
      | EmptyString => String c ""
      end
  | EmptyString => ""
  end.

Inductive Stream := Stdout | Stderr.

(** What the process does that the outside sees or answers. *)
Inductive Event :=
  | Write (fd : Stream) (text : string)
  | CallCompile (pattern : string)
  | CallLookPath (environ : gmap string string) (file : string).

(** How control leaves [runWrapper]. *)
Inductive Outcome :=
  | Exit (code : nat)
  | Exec (argv0 : string) (argv : list string) (envv : gmap string string)
  | Panic (msg : string).

(** The mutable state of the process: its environment, the global
    [debugMode], and the output so far (oldest event first). *)
Record State := {
  environ : gmap string string;
  debugMode : bool;
  output : list Event
}.

(** What the operating system and the file system answer to the process:
    [os.Args], [os.Getwd()], the configuration [loadConfig()] decodes, and
    [exec.LookPath], which reads [PATH] from the environment of the moment
    and returns the path found and the error, if any. *)
Record Host := {
  Args : list string;
  Getwd : string;
  loadConfig : Config;
  LookPath : gmap string string -> string -> string * option string
}.

(** [func init()] *)
Definition init (env : gmap string string) : State :=
  {| environ := env;
     debugMode := String.eqb (os.Getenv env debugEnvVar) "1"
                  || String.eqb (os.Getenv env debugEnvVar) "true";
     output := [] |}.

(** A computation either yields a value or leaves the function for good
    (exit, exec, panic); the state is threaded through. *)
Definition M (A : Type) : Type := State -> (A + Outcome) * State.

Definition ret {A} (a : A) : M A := fun st => (inl a, st).

Definition bind {A B} (m : M A) (k : A -> M B) : M B :=
  fun st =>
    match m st with
    | (inl a, st') => k a st'
    | (inr o, st') => (inr o, st')
    end.

Definition leave {A} (o : Outcome) : M A := fun st => (inr o, st).

#[global] Instance M_ret : MRet M := @ret.
#[global] Instance M_bind : MBind M := fun A B k m => bind m k.

Definition emit (e : Event) : M unit :=
  fun st => (inl tt, {| environ := environ st; debugMode := debugMode st;
                        output := (output st ++ [e])%list |}).

Definition getEnviron : M (gmap string string) := fun st => (inl (environ st), st).

Definition os_Getenv (key : string) : M string :=
  env ← getEnviron ; mret (os.Getenv env key).

Definition os_Setenv (key value : string) : M unit :=
  fun st => (inl tt, {| environ := os.Setenv key value (environ st);
                        debugMode := debugMode st; output := output st |}).

Definition os_Exit {A} (code : nat) : M A := leave (Exit code).

(** --- Helpers --- *)
Definition nl : string := String (ascii_of_nat 10) "".
Definition dq : string := String (ascii_of_nat 34) "".

Definition logInfo (format : string) (v : list string) : M unit :=
  emit (Write Stdout (Sprintf ("[INFO] " ++ format ++ nl) v)).

Definition logError (format : string) (v : list string) : M unit :=
  emit (Write Stderr (Sprintf ("[FAIL] " ++ format ++ nl) v)).

(** [log.Printf] (with the flags set to 0 by [main]) writes the line to
    standard error, with a newline at its end if there is none:
    [if len(s) == 0 || s[len(s)-1] != '\n' { buf = append(buf, '\n') }]. *)
Definition logLine (s : string) : string :=
  if String.eqb s "" || negb (strings.HasSuffix s nl) then s ++ nl else s.

Definition debugf (format : string) (v : list string) : M unit :=
  fun st =>
    if debugMode st
    then emit (Write Stderr (logLine (Sprintf ("[DEBUG] " ++ format) v))) st
    else (inl tt, st).

(** [expandPath] on the environment of the moment. *)
Definition expandPathIn (env : gmap string string) (path : string) : string :=
  let path :=
    if strings.HasPrefix path "~" then
      match os.UserHomeDir env with
      | Some homeDir => filepath.Join [homeDir; sdrop 1 path]
      | None => path
      end
    else path in
  os.ExpandEnv env path.

Definition expandPath (path : string) : M string :=
  env ← getEnviron; mret (expandPathIn env path).

Definition getWrapperDir : M string :=
  expandPath (filepath.Join ["~/"; wrapperDirName]).

(** [g, _ := glob.Compile(pattern)]: the glob, or nil. *)
Definition glob_Compile (pattern : string) : M (option glob.Glob) :=
  emit (CallCompile pattern) ;;
  mret (match glob.Compile pattern "" with
       | inl g => Some g
       | inr _ => None
       end).

(** [g.Match(s)]: a method call on a nil interface value panics. *)
Definition glob_Match (g : option glob.Glob) (s : string) : M bool :=
  match g with
  | Some g => mret (glob.Match g s)
  | None => leave (Panic "runtime error: invalid memory address or nil pointer dereference")
  end.

Definition exec_LookPath (h : Host) (file : string) : M (string * option string) :=
  env ← getEnviron;
  emit (CallLookPath env file) ;;
  mret (LookPath h env file).

(** [os.Args[0]] *)
Definition os_Args0 (h : Host) : M string :=
  match Args h with
  | a :: _ => mret a
  | [] => leave (Panic "runtime error: index out of range [0] with length 0")
  end.

(** [syscall.Exec(argv0, argv, os.Environ())] *)
Definition syscall_Exec {A} (argv0 : string) (argv : list string) : M A :=
  env ← getEnviron; leave (Exec argv0 argv env).

(** --- Wrapper Execution --- *)

(** [for _, rule := range config.Rules { ... }], yielding [newHome] and
    [profileMatched]. *)
Fixpoint rangeRules (expandedCwd expandedCwdWithSlash : string)
    (rules : list Rule) : M (string * bool) :=
  match rules with
  | [] => mret ("", false)
  | rule :: rest =>
      expandedPattern ← expandPath (Pattern rule);
      g ← glob_Compile expandedPattern;
      m1 ← glob_Match g expandedCwd;
      m ← (if (m1 : bool) then ret true else glob_Match g expandedCwdWithSlash);
      if (m : bool) then
        debugf "Matched Rule with pattern: '%s'" [Pattern rule] ;;
        newHome ← expandPath (Home rule);
        mret (newHome, true)
      else rangeRules expandedCwd expandedCwdWithSlash rest
  end.

Definition runWrapper (h : Host) : M unit :=
  let config := loadConfig h in
  let cwd := Getwd h in
  expandedCwd ← expandPath cwd;
  let expandedCwdWithSlash := expandedCwd ++ String filepath.Separator "" in
  debugf "Checking match for '%s' and '%s'" [expandedCwd; expandedCwdWithSlash] ;;
  '(newHome, profileMatched) ← rangeRules expandedCwd expandedCwdWithSlash (Rules config);
  (if negb profileMatched then
     logError "No multiprof Rule matched the current directory: %s" [cwd] ;;
     logInfo ("To add a Rule, run: multiprof add-rule --pattern " ++ dq ++ "%s/**" ++ dq
              ++ " --home " ++ dq ++ "/path/to/home" ++ dq) [cwd] ;;
     os_Exit 1
   else ret tt) ;;
  os_Setenv "HOME" newHome ;;
  debugf "Set HOME to: '%s'" [newHome] ;;
  arg0 ← os_Args0 h;
  let wrapperName := filepath.Base arg0 in
  let targetCmdName := strings.TrimSuffix wrapperName (Suffix (settings config)) in
  originalPath ← os_Getenv "PATH";
  wrapperDir ← getWrapperDir;
  let safePath := strings.ReplaceAll originalPath (wrapperDir ++ ":") "" in
  os_Setenv "PATH" safePath ;;
  debugf "Temporarily searching for '%s' in safe PATH" [targetCmdName] ;;
  '(targetCmdPath, err) ← exec_LookPath h targetCmdName;
  os_Setenv "PATH" originalPath ;;
  match err with
  | Some e =>
      logError "Could not find target command '%s' in the system PATH: %v" [targetCmdName; e] ;;
      os_Exit 1
  | None =>
      debugf "Executing: %s" [targetCmdPath] ;;
      syscall_Exec targetCmdPath (Args h)
  end.

(** ** Package [flag]: a flag set of string flags

    [FlagSet.Parse] for a flag set whose flags all hold strings, as
    [runAddRule] defines them. *)

Module flag.

(** What stops [parseOne] with an error: [ErrHelp], or the error
    [failf] has made. *)
Inductive Failure :=
  | ErrHelp
  | Failf (msg : string).

(** [for i := 1; i < len(name); i++ { if name[i] == '=' {
      value = name[i+1:]; hasValue = true; name = name[0:i]; break } }]
    on [name[1:]]: the rest of the name and the value, if there is one. *)
Fixpoint cutValue (s : string) : string * option string :=
  match s with
  | EmptyString => ("", None)
  | String c s' =>
      if Ascii.eqb c "=" then ("", Some s')
      else let '(n, v) := cutValue s' in (String c n, v)
  end.

(** The loop of [Parse], [for { seen, err := f.parseOne(); ... }]:
    [formal] holds the names defined, [actual] the values set so far;
    the result is the values, the arguments left in [f.args], and the
    error that stopped the loop. *)
Fixpoint parseLoop (formal : list string) (actual : gmap string string)
    (args : list string) : gmap string string * list string * option Failure :=
  match args with
  | [] => (actual, [], None)
  | s :: rest =>
      match s with
      | String c0 (String c1 s2) =>
          if negb (Ascii.eqb c0 "-") then (actual, args, None)
          else if Ascii.eqb c1 "-" && String.eqb s2 "" then
            (* "--" terminates the flags *)
            (actual, rest, None)
          else
            match (if Ascii.eqb c1 "-" then s2 else String c1 s2) with
            | EmptyString => (actual, args, Some (Failf ("bad flag syntax: " ++ s)))
            | String n0 n' =>
                if Ascii.eqb n0 "-" || Ascii.eqb n0 "=" then
                  (actual, args, Some (Failf ("bad flag syntax: " ++ s)))
                else
                  (* it's a flag. does it have an argument? *)
                  let '(n, value) := cutValue n' in
                  let name := String n0 n in
                  if negb (existsb (String.eqb name) formal) then
                    if String.eqb name "help" || String.eqb name "h" then
                      (actual, rest, Some ErrHelp)
                    else
                      (actual, rest, Some (Failf ("flag provided but not defined: -" ++ name)))
                  else
                    match value with
                    | Some v => parseLoop formal (<[name := v]> actual) rest
                    | None =>
                        (* value is the next arg *)
                        match rest with
                        | v :: rest' => parseLoop formal (<[name := v]> actual) rest'
                        | [] => (actual, [], Some (Failf ("flag needs an argument: -" ++ name)))
                        end
                    end
            end
      | _ => (actual, args, None)
      end
  end.

(** [*p] for the pointer [p] that [f.String(name, "", usage)] returned. *)
Definition value (actual : gmap string string) (name : string) : string :=
  default "" (actual !! name).

End flag.

(** ** The program: the management commands *)

(** --- Embedded Content ---

    The four embedded texts, and what [text/template] makes of the two
    templates: the error of [template.New(name).Parse(text)], if any. *)
Record Embedded := {
  helpText : string;
  defaultConfigToml : string;
  parseCompletionTemplate : option string;
  parseInitHelpText : option string
}.

(** --- Constants --- *)
Definition configDirName : string := ".config/multiprof".
Definition configFileName : string := "config.toml".
Definition completionDirName : string := ".local/share/bash-completion/completions".

(** What a management command asks of the file system and of the
    packages that read and write files: [os.Stat], [os.MkdirAll],
    [os.WriteFile], [toml.DecodeFile], [os.Create],
    [toml.NewEncoder(f).Encode(config)] on the file created as [name],
    [os.Symlink], and [tmpl.Execute] of the template [template] on
    standard output ([None]) or on the file created as [name]. *)
Inductive FileOp :=
  | Stat (name : string)
  | MkdirAll (path : string)
  | WriteFile (name data : string)
  | DecodeFile (name : string)
  | Create (name : string)
  | Encode (name : string) (config : Config)
  | Symlink (oldname newname : string)
  | Execute (template : string) (file : option string) (data : list (string * string)).

(** An error value: its text, and whether [os.IsExist] and
    [os.IsNotExist] hold of it. *)
Record Err := { Error : string; IsExist : bool; IsNotExist : bool }.

(** What the surroundings answer to a management command: what they
    answer to the wrapper, [os.Executable()], and the error of every
    operation on files ([None] is [nil]).  The configuration
    [toml.DecodeFile] leaves in [config], with or without an error, is
    [loadConfig] of the host. *)
Record System := {
  host : Host;
  embedded : Embedded;
  Executable : string * option Err;
  answer : FileOp -> option Err
}.

(** What a management command does, in order: what it writes and the
    patterns it compiles, as the wrapper does, and its operations on
    files. *)
Inductive Action :=
  | Say (e : Event)
  | Do (op : FileOp).

(** The process of a management command: its environment, the global
    [debugMode], and what it has done so far (oldest action first). *)
Record Session := {
  sessionEnviron : gmap string string;
  sessionDebugMode : bool;
  actions : list Action
}.

Definition Mgr (A : Type) : Type := Session -> (A + Outcome) * Session.

#[global] Instance Mgr_ret : MRet Mgr := fun A a s => (inl a, s).
#[global] Instance Mgr_bind : MBind Mgr :=
  fun A B k m s =>
    match m s with
    | (inl a, s') => k a s'
    | (inr o, s') => (inr o, s')
    end.

(** A computation of the wrapper's monad, run in the process of the
    command: what it writes is appended to the actions. *)
Definition lift {A} (m : M A) : Mgr A :=
  fun s =>
    let '(r, st) := m {| environ := sessionEnviron s; debugMode := sessionDebugMode s;
                         output := [] |} in
    (r, {| sessionEnviron := environ st; sessionDebugMode := debugMode st;
           actions := (actions s ++ map Say (output st))%list |}).

(** An operation on files: it is recorded, and its error is what the
    system answers. *)
Definition perform (sys : System) (op : FileOp) : Mgr (option Err) :=
  fun s => (inl (answer sys op),
            {| sessionEnviron := sessionEnviron s; sessionDebugMode := sessionDebugMode s;
               actions := (actions s ++ [Do op])%list |}).

(** The process as [func init()] leaves it. *)
Definition start (env : gmap string string) : Session :=
  {| sessionEnviron := env; sessionDebugMode := debugMode (init env); actions := [] |}.

(** --- Helpers --- *)
Definition tab : string := String (ascii_of_nat 9) "".

Definition logSuccess (format : string) (v : list string) : M unit :=
  emit (Write Stdout (Sprintf ("[OK] " ++ format ++ nl) v)).

Definition logWarn (format : string) (v : list string) : M unit :=
  emit (Write Stdout (Sprintf ("[WARN] " ++ format ++ nl) v)).

Definition getCompletionDir : M string :=
  expandPath (filepath.Join ["~/"; completionDirName]).

Definition getConfigPath : M string :=
  expandPath (filepath.Join ["~/"; configDirName; configFileName]).

Definition createDefaultConfig (sys : System) : Mgr (option Err) :=
  configPath ← lift getConfigPath;
  err ← perform sys (Stat configPath);
  match err with
  | None => mret None (* File already exists *)
  | Some _ =>
      perform sys (MkdirAll (filepath.Dir configPath)) ;;
      perform sys (WriteFile configPath (defaultConfigToml (embedded sys)))
  end.

(** [loadConfig] as a management command runs it, with its operations on
    files.  (The name [loadConfig] alone is the configuration that
    [toml.DecodeFile] leaves.) *)
Module manager.

Definition loadConfig (sys : System) : Mgr (Config * option Err) :=
  configPath ← lift getConfigPath;
  err ← perform sys (Stat configPath);
  match err with
  | Some e => if IsNotExist e then createDefaultConfig sys ;; mret tt else mret tt
  | None => mret tt
  end ;;
  err ← perform sys (DecodeFile configPath);
  mret (loadConfig (host sys), err).

End manager.

Definition saveConfig (sys : System) (config : Config) : Mgr (option Err) :=
  configPath ← lift getConfigPath;
  err ← perform sys (Create configPath);
  match err with
  | Some e => mret (Some e)
  | None => perform sys (Encode configPath config)
  end.

(** --- Management Commands --- *)

Definition printUsage (sys : System) : Mgr unit :=
  lift (emit (Write Stdout (helpText (embedded sys)))).

(** The format of the second [logSuccess] holds the wrapper directory;
    [Sprintf] renders it as [fmt.Printf] does where that text has no
    [%]. *)
Definition runInit (sys : System) : Mgr unit :=
  lift (logInfo "Running setup wizard..." []) ;;
  createDefaultConfig sys ;;
  lift (logSuccess "Ensured config file exists at ~/.config/multiprof/config.toml" []) ;;
  wrapperDir ← lift getWrapperDir;
  perform sys (MkdirAll wrapperDir) ;;
  home ← lift (os_Getenv "HOME");
  lift (logSuccess ("Ensured Wrapper Directory exists at ~/"
                    ++ strings.TrimPrefix wrapperDir (home ++ "/")) []) ;;
  match parseInitHelpText (embedded sys) with
  | Some e => lift (logError "Could not parse init template: %v" [e])
  | None =>
      perform sys (Execute "init" None [("WrapperDir", wrapperDir)]) ;;
      mret tt
  end.

(** The two flags of [add-rule], and what [addCmd.Usage()] writes to
    standard error for them: the heading, then [PrintDefaults], one
    write for each flag in the order of the names. *)
Definition addRuleFlags : list string := ["pattern"; "home"].

Definition addRuleUsage : list string :=
  [ "Usage of add-rule:" ++ nl;
    "  -home string" ++ nl ++ "    " ++ tab
      ++ "The directory to use as $HOME when the pattern matches." ++ nl;
    "  -pattern string" ++ nl ++ "    " ++ tab
      ++ "Glob pattern to match a directory context." ++ nl ].

Definition addCmd_Usage : M unit :=
  mapM (fun text => emit (Write Stderr text)) addRuleUsage ;; mret tt.

(** [addCmd.Parse(args)] with [flag.ExitOnError]: an error is written
    with the usage message and ends the process with status 2, and with
    status 0 where the error is [ErrHelp]. *)
Definition addCmd_Parse (args : list string) : M (gmap string string) :=
  match flag.parseLoop addRuleFlags ∅ args with
  | (actual, _, None) => mret actual
  | (_, _, Some flag.ErrHelp) => addCmd_Usage ;; os_Exit 0
  | (_, _, Some (flag.Failf msg)) =>
      emit (Write Stderr (msg ++ nl)) ;; addCmd_Usage ;; os_Exit 2
  end.

(** [for _, rule := range config.Rules { ... }] of [runAddRule] *)
Fixpoint rangeShadowing (patternFlag newPattern : string) (rules : list Rule) : M unit :=
  match rules with
  | [] => mret tt
  | rule :: rest =>
      existingPattern ← expandPath (Pattern rule);
      g ← glob_Compile existingPattern;
      m ← glob_Match g newPattern;
      if (m : bool) then
        logWarn "New pattern '%s' may be shadowed by existing Rule '%s'."
                [patternFlag; Pattern rule] ;;
        logInfo "Rule priority is determined by their order in the config file." []
      else rangeShadowing patternFlag newPattern rest
  end.

Definition runAddRule (sys : System) (args : list string) : Mgr unit :=
  actual ← lift (addCmd_Parse args);
  let patternFlag := flag.value actual "pattern" in
  let homeFlag := flag.value actual "home" in
  (if String.eqb patternFlag "" || String.eqb homeFlag "" then
     lift (logError "--pattern and --home flags are required." []) ;;
     lift addCmd_Usage ;;
     lift (os_Exit 1)
   else mret tt) ;;
  '(config, _) ← manager.loadConfig sys;
  newPattern ← lift (expandPath patternFlag);
  lift (rangeShadowing patternFlag newPattern (Rules config)) ;;
  let config :=
    {| settings := settings config;
       Rules := (Rules config ++ [{| Pattern := patternFlag; Home := homeFlag |}])%list |} in
  saveConfig sys config ;;
  lift (logSuccess "Added Rule: when in '%s', use '%s' as HOME." [patternFlag; homeFlag]).

(** [HookName] of the completion template's data *)
Definition hookName (wrapperName : string) : string :=
  "multiprof_hook_" ++ strings.ReplaceAll wrapperName "-" "_".

(** The error is returned as its text ([%w] puts the text of the wrapped
    error in). *)
Definition createCompletionFile (sys : System) (wrapperName originalCmd : string)
    : Mgr (option string) :=
  completionDir ← lift getCompletionDir;
  err ← perform sys (MkdirAll completionDir);
  match err with
  | Some e => mret (Some ("could not create completion directory: " ++ Error e))
  | None =>
      let completionFilePath := filepath.Join [completionDir; wrapperName] in
      err ← perform sys (Create completionFilePath);
      match err with
      | Some e => mret (Some (Error e))
      | None =>
          match parseCompletionTemplate (embedded sys) with
          | Some e => mret (Some e)
          | None =>
              let data := [ ("WrapperName", wrapperName);
                            ("OriginalCmd", originalCmd);
                            ("HookName", hookName wrapperName) ] in
              err ← perform sys (Execute "completion" (Some completionFilePath) data);
              mret (Error <$> err)
          end
      end
  end.

Definition runAddWrapper (sys : System) (args : list string) : Mgr unit :=
  match args with
  | [cmdName] =>
      '(config, _) ← manager.loadConfig sys;
      let wrapperName := cmdName ++ Suffix (settings config) in
      wrapperDir ← lift getWrapperDir;
      path ← lift (os_Getenv "PATH");
      (if negb (strings.Contains path wrapperDir) then
         lift (logWarn "Wrapper Directory '%s' not found in your $PATH." [wrapperDir]) ;;
         lift (logInfo "Please run `multiprof init` and follow the setup instructions." [])
       else mret tt) ;;
      let multiprofPath := (Executable sys).1 in
      let symlinkPath := filepath.Join [wrapperDir; wrapperName] in
      err ← perform sys (Symlink multiprofPath symlinkPath);
      match err with
      | Some e =>
          if negb (IsExist e) then
            lift (logError "Failed to create Wrapper: %v" [Error e]) ;;
            lift (os_Exit 1)
          else mret tt
      | None => mret tt
      end ;;
      lift (logSuccess "Created Wrapper for '%s' at %s" [cmdName; symlinkPath]) ;;
      if negb (String.eqb (Suffix (settings config)) "") then
        err ← createCompletionFile sys wrapperName cmdName;
        match err with
        | Some e => lift (logWarn "Could not create completion file: %v" [e])
        | None => lift (logSuccess "Created completion file for '%s'." [wrapperName])
        end
      else mret tt
  | _ =>
      lift (logError "Usage: multiprof add-wrapper <command_name>" []) ;;
      lift (os_Exit 1)
  end.

(** The decimal form of a natural number, which is what [%d] prints of
    an [int] that is not negative. *)
Definition itoa (n : nat) : string := NilEmpty.string_of_uint (Nat.to_uint n).

(** [fmt.Sprintf] for the verbs [%s], [%v] and [%d], on arguments already
    turned into strings: the argument of [%d] is an [int] in its decimal
    form. *)
Fixpoint Sprintfd (format : string) (args : list string) : string :=
  match format with
  | String c rest =>
      match rest with
      | String v rest' =>
          if Ascii.eqb c "%" && (Ascii.eqb v "s" || Ascii.eqb v "v" || Ascii.eqb v "d") then
            match args with
            | a :: args' => a ++ Sprintfd rest' args'
            | [] => "%!" ++ String v "(MISSING)" ++ Sprintfd rest' []
            end
          else String c (Sprintfd rest args)
      | EmptyString => String c ""
      end
  | EmptyString => ""
  end.

(** [for i, rule := range config.Rules { fmt.Printf("%d: ...", i+1, ...) }] *)
Fixpoint rangeList (i : nat) (rules : list Rule) : M unit :=
  match rules with
  | [] => mret tt
  | rule :: rest =>
      emit (Write Stdout (Sprintfd ("%d: When in '%s', use '%s' as HOME." ++ nl)
                            [itoa (i + 1); Pattern rule; Home rule])) ;;
      rangeList (S i) rest
  end.

Definition runList (sys : System) : Mgr unit :=
  '(config, _) ← manager.loadConfig sys;
  lift (emit (Write Stdout (Sprintf ("Wrapper Suffix: " ++ dq ++ "%s" ++ dq ++ nl)
                              [Suffix (settings config)]))) ;;
  lift (emit (Write Stdout ("--- Rules (checked in order of priority) ---" ++ nl))) ;;
  match Rules config with
  | [] =>
      lift (emit (Write Stdout
                    ("No Rules defined. Use 'multiprof add-rule' to create one." ++ nl)))
  | rules => lift (rangeList 0 rules)
  end.

Definition runManager (sys : System) (command : string) (args : list string) : Mgr unit :=
  if String.eqb command "init" then runInit sys
  else if String.eqb command "add-rule" then runAddRule sys args
  else if String.eqb command "add-wrapper" then runAddWrapper sys args
  else if String.eqb command "list" then runList sys
  else if String.eqb command "help" || String.eqb command "-h"
          || String.eqb command "--help" then printUsage sys
  else
    lift (logError "Unknown command '%s'. Run 'multiprof help' for a list of commands."
                   [command]) ;;
    lift (os_Exit 1).

(** --- Main Logic --- *)

Definition main (sys : System) : Mgr unit :=
  let '(ownExecutable, err) := Executable sys in
  match err with
  | Some e =>
      lift (logError "Critical error: Cannot determine own path: %v" [Error e]) ;;
      lift (os_Exit 1)
  | None => mret tt
  end ;;
  arg0 ← lift (os_Args0 (host sys));
  let calledAs := filepath.Base arg0 in
  let ownName := filepath.Base ownExecutable in
  if String.eqb calledAs ownName || String.eqb calledAs "main" (* for go run *) then
    match Args (host sys) with
    | _ :: command :: args => runManager sys command args
    | _ => printUsage sys
    end
  else lift (runWrapper (host sys)).

(** * Vocabulary of the statements *)

(** "[s] with every occurrence of [old] removed": the occurrences are
    taken from left to right, each one the first in what is left of the
    string, and do not overlap. *)
Inductive RemoveAll (old : string) : string -> string -> Prop :=
  | RemoveAll_none s :
      strings.Index s old = None -> RemoveAll old s s
  | RemoveAll_first p rest out :
      strings.Index (p ++ old ++ rest) old = Some (String.length p) ->
      RemoveAll old rest out ->
      RemoveAll old (p ++ old ++ rest) (p ++ out).

(** A name as [$name] reads it: letters, digits and underscores, the first
    of them no digit. *)
Fixpoint allAlphaNum (s : string) : bool :=
  match s with
  | String c s' => os.isAlphaNum c && allAlphaNum s'
  | EmptyString => true
  end.

Definition isName (name : string) : bool :=
  match name with
  | String c _ => negb (os.isShellSpecialVar c) && allAlphaNum name
  | EmptyString => false
  end.

(** The text behind a [$name] reference does not go on with the name. *)
Definition endsName (post : string) : bool :=
  match post with
  | String c _ => negb (os.isAlphaNum c)
  | EmptyString => true
  end.

(** A path element that [Clean] keeps: not empty, without separator, and
    neither [.] nor [..]. *)
Definition normalElem (e : string) : bool :=
  negb (String.eqb e "") && negb (hasByte "/" e)
  && negb (String.eqb e ".") && negb (String.eqb e "..").

(** [/e1/e2/.../en] *)
Fixpoint rootedPath (elems : list string) : string :=
  match elems with
  | [] => ""
  | e :: rest => "/" ++ e ++ rootedPath rest
  end.

(** The buffer of [Clean] after the element [e] has been copied. *)
Definition pushElem (out : list ascii) (e : string) : list ascii :=
  (rev (list_ascii_of_string e)
   ++ (if Nat.eqb (length out) 1 then out else filepath.Separator :: out))%list.

(** ** The run of the wrapper *)

Definition addOutput (st : State) (evs : list Event) : State :=
  {| environ := environ st; debugMode := debugMode st;
     output := (output st ++ evs)%list |}.

Definition debugLine (st : State) (format : string) (v : list string) : list Event :=
  if debugMode st then [Write Stderr (logLine (Sprintf ("[DEBUG] " ++ format) v))] else [].

Definition nilPanic : Outcome :=
  Panic "runtime error: invalid memory address or nil pointer dereference".

(** Whether the loop body finds that [rule] matches; [None] when the
    expanded pattern does not compile. *)
Definition ruleMatches (env : gmap string string)
    (expandedCwd expandedCwdWithSlash : string) (rule : Rule) : option bool :=
  match glob.Compile (expandPathIn env (Pattern rule)) "" with
  | inl g => Some (glob.Match g expandedCwd || glob.Match g expandedCwdWithSlash)
  | inr _ => None
  end.

(** The patterns handed to [glob.Compile], in the order of the calls. *)
Definition compiled (evs : list Event) : list string :=
  flat_map (fun e => match e with CallCompile p => [p] | _ => [] end) evs.

(** The calls of [exec.LookPath]: the environment of the moment and the
    file searched. *)
Definition lookups (evs : list Event) : list (gmap string string * string) :=
  flat_map (fun e => match e with CallLookPath env f => [(env, f)] | _ => [] end) evs.

Definition withEnviron (st : State) (env : gmap string string) (evs : list Event) : State :=
  {| environ := env; debugMode := debugMode st; output := (output st ++ evs)%list |}.

Definition noMatchLines (cwd : string) : list Event :=
  [ Write Stderr ("[FAIL] No multiprof Rule matched the current directory: " ++ cwd ++ nl);
    Write Stdout ("[INFO] To add a Rule, run: multiprof add-rule --pattern " ++ dq ++ cwd
                  ++ "/**" ++ dq ++ " --home " ++ dq ++ "/path/to/home" ++ dq ++ nl) ].

Definition notFoundLine (targetCmdName e : string) : Event :=
  Write Stderr ("[FAIL] Could not find target command '" ++ targetCmdName
                ++ "' in the system PATH: " ++ e ++ nl).

(** [getWrapperDir] on the environment of the moment. *)
Definition getWrapperDirIn (env : gmap string string) : string :=
  expandPathIn env (filepath.Join ["~/"; wrapperDirName]).

(** [strings.ReplaceAll(originalPath, wrapperDir+":", "")] *)
Definition safePathOf (originalPath wrapperDir : string) : string :=
  strings.ReplaceAll originalPath (wrapperDir ++ ":") "".

(** The rule [rule], at index [k], is the one the loop of [runWrapper]
    stops at in a process started with the environment [env0]: it matches
    the working directory, and the rules before it compile and do not. *)
Definition firstMatch (h : Host) (env0 : gmap string string) (k : nat) (rule : Rule)
    : Prop :=
  let expandedCwd := expandPathIn env0 (Getwd h) in
  let expandedCwdWithSlash := expandedCwd ++ "/" in
  Rules (loadConfig h) !! k = Some rule
  /\ ruleMatches env0 expandedCwd expandedCwdWithSlash rule = Some true
  /\ (forall j rj, j < k -> Rules (loadConfig h) !! j = Some rj ->
        ruleMatches env0 expandedCwd expandedCwdWithSlash rj = Some false).

(** What [runWrapper] does from [os.Setenv("HOME", newHome)] on, as one
    expression in the state [st] the loop has left. *)
Definition afterMatch (h : Host) (newHome : string) (st : State)
    : (unit + Outcome) * State :=
  let env1 := os.Setenv "HOME" newHome (environ st) in
  let setHome := debugLine st "Set HOME to: '%s'" [newHome] in
  match Args h with
  | [] =>
      (inr (Panic "runtime error: index out of range [0] with length 0"),
       withEnviron st env1 setHome)
  | arg0 :: _ =>
      let targetCmdName :=
        strings.TrimSuffix (filepath.Base arg0) (Suffix (settings (loadConfig h))) in
      let originalPath := os.Getenv env1 "PATH" in
      let safePath := safePathOf originalPath (getWrapperDirIn env1) in
      let env2 := os.Setenv "PATH" safePath env1 in
      let env3 := os.Setenv "PATH" originalPath env2 in
      let search :=
        (setHome
         ++ debugLine st "Temporarily searching for '%s' in safe PATH" [targetCmdName]
         ++ [CallLookPath env2 targetCmdName])%list in
      match LookPath h env2 targetCmdName with
      | (targetCmdPath, Some e) =>
          (inr (Exit 1),
           withEnviron st env3 (search ++ [notFoundLine targetCmdName e]))
      | (targetCmdPath, None) =>
          (inr (Exec targetCmdPath (Args h) env3),
           withEnviron st env3 (search ++ debugLine st "Executing: %s" [targetCmdPath]))
      end
  end.

(** ** Further vocabulary *)

(** A text that the lexer of the glob package reads as one text token
    standing for itself: it has none of [?], [*], [[], [{] and no
    backslash. *)
Fixpoint plainText (t : string) : bool :=
  match t with
  | String c t' =>
      negb (hasByte c glob.inTextBreakers) && negb (Ascii.eqb c glob.char_escape)
      && plainText t'
  | EmptyString => true
  end.

(** What has been written, in order: the stream and the text. *)
Definition writes (evs : list Event) : list (Stream * string) :=
  flat_map (fun e => match e with Write fd text => [(fd, text)] | _ => [] end) evs.

(** The operations on files among the actions, in order. *)
Definition fileOps (acts : list Action) : list FileOp :=
  flat_map (fun a => match a with Do op => [op] | Say _ => [] end) acts.

(** What has been written and compiled among the actions, in order. *)
Definition said (acts : list Action) : list Event :=
  flat_map (fun a => match a with Say e => [e] | Do _ => [] end) acts.

(** [getConfigPath] and [getCompletionDir] on the environment of the
    moment. *)
Definition getConfigPathIn (env : gmap string string) : string :=
  expandPathIn env (filepath.Join ["~/"; configDirName; configFileName]).

Definition getCompletionDirIn (env : gmap string string) : string :=
  expandPathIn env (filepath.Join ["~/"; completionDirName]).

(** The operations of [createDefaultConfig] on files, in order: the
    directory and the file are written unless [os.Stat] finds the file. *)
Definition createDefaultConfigOps (sys : System) (env : gmap string string)
    : list FileOp :=
  let configPath := getConfigPathIn env in
  Stat configPath
  :: match answer sys (Stat configPath) with
     | None => []
     | Some _ => [ MkdirAll (filepath.Dir configPath);
                   WriteFile configPath (defaultConfigToml (embedded sys)) ]
     end.

(** The operations of [loadConfig] on files, in order: [os.Stat], those
    of [createDefaultConfig] where the error of [os.Stat] says that the
    file does not exist, and [toml.DecodeFile]. *)
Definition loadConfigOps (sys : System) (env : gmap string string) : list FileOp :=
  let configPath := getConfigPathIn env in
  (Stat configPath
   :: match answer sys (Stat configPath) with
      | Some e => if IsNotExist e then createDefaultConfigOps sys env else []
      | None => []
      end
   ++ [DecodeFile configPath])%list.

(** The string with every byte replaced by its image. *)
Fixpoint mapBytes (f : ascii -> ascii) (s : string) : string :=
  match s with
  | String c s' => String (f c) (mapBytes f s')
  | EmptyString => EmptyString
  end.

(** The configuration with one more rule at the end of the list. *)
Definition withRule (config : Config) (pattern home : string) : Config :=
  {| settings := settings config;
     Rules := (Rules config ++ [{| Pattern := pattern; Home := home |}])%list |}.

(** The buffer of [Clean] on a rooted path begins with the root (its
    last byte, the buffer being reversed) and keeps it: [dotdot] is 1. *)
Definition keepsRoot (rooted : bool) (out : list ascii) (dotdot : nat) : Prop :=
  rooted = true -> dotdot = 1 /\ last out = Some filepath.Separator.

(** The buffer of [Clean] with the separator that goes in front of an
    element. *)
Definition separated (rooted : bool) (out : list ascii) : list ascii :=
  if (rooted && negb (Nat.eqb (length out) 1))
     || (negb rooted && negb (Nat.eqb (length out) 0))
  then filepath.Separator :: out else out.

(** ** The run of a management command *)

Definition addActions (s : Session) (acts : list Action) : Session :=
  {| sessionEnviron := sessionEnviron s; sessionDebugMode := sessionDebugMode s;
     actions := (actions s ++ acts)%list |}.

(** Whether the loop of [runAddRule] finds that the glob of [rule]
    matches the new pattern; [None] when the expanded pattern of [rule]
    does not compile. *)
Definition shadows (env : gmap string string) (newPattern : string) (rule : Rule)
    : option bool :=
  match glob.Compile (expandPathIn env (Pattern rule)) "" with
  | inl g => Some (glob.Match g newPattern)
  | inr _ => None
  end.

(** The two lines [runAddRule] writes for the rule that shadows the new
    pattern. *)
Definition shadowLines (patternFlag : string) (rule : Rule) : list Event :=
  [ Write Stdout ("[WARN] New pattern '" ++ patternFlag
                  ++ "' may be shadowed by existing Rule '" ++ Pattern rule ++ "'." ++ nl);
    Write Stdout ("[INFO] Rule priority is determined by their order in the config file."
                  ++ nl) ].

(** The links made, in order: [oldname] and [newname] of every call of
    [os.Symlink]. *)
Definition symlinks (acts : list Action) : list (string * string) :=
  flat_map (fun a => match a with Do (Symlink o n) => [(o, n)] | _ => [] end) acts.

(** What [runAddWrapper] writes where the wrapper directory is not found
    in [PATH]. *)
Definition pathWarning (env : gmap string string) : list Event :=
  if negb (strings.Contains (os.Getenv env "PATH") (getWrapperDirIn env)) then
    [ Write Stdout ("[WARN] Wrapper Directory '" ++ getWrapperDirIn env
                    ++ "' not found in your $PATH." ++ nl);
      Write Stdout ("[INFO] Please run `multiprof init` and follow the setup instructions."
                    ++ nl) ]
  else [].

(** [runAddWrapper] from [logSuccess("Created Wrapper ...")] on. *)
Definition afterSymlink (sys : System) (cmdName symlinkPath : string) : Mgr unit :=
  let config := loadConfig (host sys) in
  let wrapperName := cmdName ++ Suffix (settings config) in
  lift (logSuccess "Created Wrapper for '%s' at %s" [cmdName; symlinkPath]) ;;
  if negb (String.eqb (Suffix (settings config)) "") then
    err ← createCompletionFile sys wrapperName cmdName;
    match err with
    | Some e => lift (logWarn "Could not create completion file: %v" [e])
    | None => lift (logSuccess "Created completion file for '%s'." [wrapperName])
    end
  else mret tt.

(** Every write of the events goes to standard error, and there is none
    unless [debugMode] is set. *)
Definition debugOnly (debug : bool) (evs : list Event) : Prop :=
  Forall (fun w => w.1 = Stderr /\ debug = true) (writes evs).

(** The line of [runList] for the rule at index [i]. *)
Definition listLine (i : nat) (rule : Rule) : Event :=
  Write Stdout (itoa (S i) ++ ": When in '" ++ Pattern rule ++ "', use '" ++ Home rule
                ++ "' as HOME." ++ nl).

(** ** Sample processes *)

(** A file system for the examples: [exec.LookPath] over a list of
    executable files, searching the directories of [PATH] in order. *)
Definition lookPathIn (executables : list string)
    (env : gmap string string) (file : string) : string * option string :=
  let found (path : string) := existsb (String.eqb path) executables in
  if strings.Contains file "/" then
    if found file then (file, None) else ("", Some "exec: not found")
  else
    match filter (fun path => found path = true)
            (map (fun dir => filepath.Join [if String.eqb dir "" then "." else dir; file])
                 (filepath.SplitList (os.Getenv env "PATH"))) with
    | path :: _ =>
        if filepath.IsAbs path then (path, None)
        else (path, Some "exec: cannot run executable found relative to current directory")
    | [] => ("", Some "exec: executable file not found in $PATH")
    end.

Definition envHome : gmap string string :=
  <["HOME" := "/home/u"]>
    (<["PATH" := "/home/u/.local/bin/multiprof:/usr/bin"]> ∅).

Definition sampleFiles : list string :=
  ["/usr/bin/aws"; "/home/u/.local/bin/multiprof/aws_w"].

(** One rule, invoked as [aws_w] below [/work]. *)
Definition hostWork : Host :=
  {| Args := ["/home/u/.local/bin/multiprof/aws_w"; "s3"; "ls"];
     Getwd := "/work/proj";
     loadConfig := {| settings := {| Suffix := "_w" |};
                      Rules := [ {| Pattern := "/work/**"; Home := "/home/work" |} ] |};
     LookPath := lookPathIn sampleFiles |}.

(** Two overlapping rules, the second more specific. *)
Definition rulesOverlap : list Rule :=
  [ {| Pattern := "/a/**"; Home := "/home/first" |};
    {| Pattern := "/a/b/**"; Home := "/home/second" |} ].

(** A rule whose pattern has an unterminated character class, in front of
    a rule that matches. *)
Definition hostBadPattern : Host :=
  {| Args := ["/home/u/.local/bin/multiprof/aws_w"];
     Getwd := "/work/proj";
     loadConfig := {| settings := {| Suffix := "_w" |};
                      Rules := [ {| Pattern := "/tmp/[a"; Home := "/home/tmp" |};
                                 {| Pattern := "/work/**"; Home := "/home/work" |} ] |};
     LookPath := lookPathIn sampleFiles |}.

(** No rules. *)
Definition hostNoRules : Host :=
  {| Args := ["/home/u/.local/bin/multiprof/aws_w"];
     Getwd := "/work/proj";
     loadConfig := {| settings := {| Suffix := "_w" |}; Rules := [] |};
     LookPath := lookPathIn sampleFiles |}.

(** A host whose only rule does not match the directory. *)
Definition hostElsewhere : Host :=
  {| Args := ["/home/u/.local/bin/multiprof/aws_w"];
     Getwd := "/srv/data";
     loadConfig := {| settings := {| Suffix := "_w" |};
                      Rules := [ {| Pattern := "/work/**"; Home := "/home/work" |} ] |};
     LookPath := lookPathIn sampleFiles |}.

(** A wrapper for a command that is not installed. *)
Definition hostNoTarget : Host :=
  {| Args := ["/home/u/.local/bin/multiprof/gh_w"];
     Getwd := "/work/proj";
     loadConfig := {| settings := {| Suffix := "_w" |};
                      Rules := [ {| Pattern := "/work/**"; Home := "/home/work" |} ] |};
     LookPath := lookPathIn sampleFiles |}.

(** A rule that keeps the invoking user's home. *)
Definition hostSameHome : Host :=
  {| Args := ["/home/u/.local/bin/multiprof/aws_w"];
     Getwd := "/home/u/src";
     loadConfig := {| settings := {| Suffix := "_w" |};
                      Rules := [ {| Pattern := "~/**"; Home := "~" |} ] |};
     LookPath := lookPathIn sampleFiles |}.



(** The wrapper directory last in [PATH]. *)
Definition envWrapperLast : gmap string string :=
  <["HOME" := "/home/u"]>
    (<["PATH" := "/usr/bin:/home/u/.local/bin/multiprof"]> ∅).

(** The wrapper directory twice among the entries of [PATH] and once more
    as the last entry. *)
Definition envWrapperThrice : gmap string string :=
  <["HOME" := "/home/u"]>
    (<["PATH" := "/home/u/.local/bin/multiprof:/usr/bin:/home/u/.local/bin/multiprof:/bin:/home/u/.local/bin/multiprof"]> ∅).

(** The environment in which [hostWork] calls [exec.LookPath]. *)
Definition envAtLookup : gmap string string :=
  <["PATH" := "/home/u/.local/bin/multiprof:/usr/bin"]>
    (<["HOME" := "/home/work"]> envHome).

(** A system for the management commands: the binary is
    [/usr/local/bin/multiprof], the configuration has the suffix [_w] and
    the rule [/work/**], and no operation on files fails. *)
Definition sysManager (args : list string) : System :=
  {| host := {| Args := args;
                Getwd := "/work/proj";
                loadConfig := {| settings := {| Suffix := "_w" |};
                                 Rules := [ {| Pattern := "/work/**";
                                               Home := "/home/work" |} ] |};
                LookPath := lookPathIn sampleFiles |};
     embedded := {| helpText := "usage"; defaultConfigToml := "[settings]";
                    parseCompletionTemplate := None; parseInitHelpText := None |};
     Executable := ("/usr/local/bin/multiprof", None);
     answer := fun _ => None |}.

(** The same system with the configuration of [hostBadPattern], whose
    first pattern does not compile. *)
Definition sysBadPattern (args : list string) : System :=
  {| host := {| Args := args;
                Getwd := "/work/proj";
                loadConfig := loadConfig hostBadPattern;
                LookPath := lookPathIn sampleFiles |};
     embedded := embedded (sysManager args);
     Executable := ("/usr/local/bin/multiprof", None);
     answer := fun _ => None |}.

(** The same system on a file system without the configuration file:
    [os.Stat] answers that the file does not exist. *)
Definition sysFresh (args : list string) : System :=
  {| host := host (sysManager args);
     embedded := embedded (sysManager args);
     Executable := ("/usr/local/bin/multiprof", None);
     answer := fun op =>
       match op with
       | Stat _ =>
           Some {| Error := "stat: no such file or directory"; IsExist := false;
                   IsNotExist := true |}
       | _ => None
       end |}.

(** The same system on a file system where the link of the wrapper
    [aws_w] is there already. *)
Definition sysLinked (args : list string) : System :=
  {| host := host (sysManager args);
     embedded := embedded (sysManager args);
     Executable := ("/usr/local/bin/multiprof", None);
     answer := fun op =>
       match op with
       | Symlink _ _ =>
           Some {| Error := "symlink: file exists"; IsExist := true; IsNotExist := false |}
       | _ => None
       end |}.

(** * Properties *)

(** ** Byte strings *)

Section StringFacts.

Implicit Types s t u : string.

Lemma slen_app s t : String.length (s ++ t) = String.length s + String.length t.
Proof. induction s as [|c s IH]; simpl; [reflexivity | now rewrite IH]. Qed.

Lemma sapp_assoc s t u : (s ++ t) ++ u = s ++ (t ++ u).
Proof. induction s as [|c s IH]; simpl; [reflexivity | now rewrite IH]. Qed.

Lemma sapp_nil_r s : s ++ "" = s.
Proof. induction s as [|c s IH]; simpl; [reflexivity | now rewrite IH]. Qed.

Lemma stake_app s t : stake (String.length s) (s ++ t) = s.
Proof. induction s as [|c s IH]; simpl; [now destruct t | now rewrite IH]. Qed.

Lemma sdrop_app s t : sdrop (String.length s) (s ++ t) = t.
Proof. induction s as [|c s IH]; simpl; [reflexivity | exact IH]. Qed.

Lemma stake_sdrop n s : stake n s ++ sdrop n s = s.
Proof.
  revert s; induction n as [|n IH]; intros [|c s]; simpl; try reflexivity.
  now rewrite IH.
Qed.

Lemma slen_stake n s : n <= String.length s -> String.length (stake n s) = n.
Proof.
  revert s; induction n as [|n IH]; intros [|c s]; simpl; intros H; try lia.
  rewrite IH; lia.
Qed.

Lemma slen_sdrop n s : String.length (sdrop n s) = String.length s - n.
Proof.
  revert s; induction n as [|n IH]; intros [|c s]; simpl; try lia.
  apply IH.
Qed.

Lemma hasByte_app c s t : hasByte c (s ++ t) = hasByte c s || hasByte c t.
Proof.
  induction s as [|a s IH]; [reflexivity|]. simpl.
  now destruct (Ascii.eqb a c).
Qed.

End StringFacts.

(** ** Package [strings] *)

Section StringsFacts.

Implicit Types s t old : string.

Lemma HasPrefix_inv s t :
  strings.HasPrefix s t = true -> s = t ++ sdrop (String.length t) s.
Proof.
  unfold strings.HasPrefix. intros [_ H]%andb_true_iff.
  apply String.eqb_eq in H. rewrite <- H at 1. symmetry. apply stake_sdrop.
Qed.

Lemma HasSuffix_app s t : strings.HasSuffix (s ++ t) t = true.
Proof.
  unfold strings.HasSuffix. rewrite slen_app.
  replace (String.length s + String.length t - String.length t) with (String.length s) by lia.
  rewrite sdrop_app, String.eqb_refl, andb_true_r. apply Nat.leb_le. lia.
Qed.

Lemma HasSuffix_inv s t :
  strings.HasSuffix s t = true ->
  s = stake (String.length s - String.length t) s ++ t.
Proof.
  unfold strings.HasSuffix. intros [_ H]%andb_true_iff.
  apply String.eqb_eq in H.
  set (n := String.length s - String.length t) in *.
  rewrite <- H. symmetry. apply stake_sdrop.
Qed.

Lemma TrimSuffix_app s t : strings.TrimSuffix (s ++ t) t = s.
Proof.
  unfold strings.TrimSuffix. rewrite HasSuffix_app, slen_app.
  replace (String.length s + String.length t - String.length t) with (String.length s) by lia.
  apply stake_app.
Qed.

Lemma TrimSuffix_absent s t :
  strings.HasSuffix s t = false -> strings.TrimSuffix s t = s.
Proof. unfold strings.TrimSuffix. now intros ->. Qed.

Lemma TrimSuffix_empty s : strings.TrimSuffix s "" = s.
Proof. rewrite <- (sapp_nil_r s) at 1. apply TrimSuffix_app. Qed.

(** [Index] finds an occurrence, and the first one. *)
Lemma Index_Some s old j :
  strings.Index s old = Some j ->
  j + String.length old <= String.length s
  /\ s = stake j s ++ old ++ sdrop (j + String.length old) s.
Proof.
  revert j; induction s as [|c s IH]; intros j; simpl.
  - destruct (strings.HasPrefix "" old) eqn:E; [|discriminate].
    intros [= <-]. pose proof (HasPrefix_inv _ _ E) as H.
    unfold strings.HasPrefix in E. apply andb_true_iff in E as [E _].
    apply Nat.leb_le in E. split; [simpl in *; lia | exact H].
  - destruct (strings.HasPrefix (String c s) old) eqn:E.
    + intros [= <-]. pose proof (HasPrefix_inv _ _ E) as H.
      unfold strings.HasPrefix in E. apply andb_true_iff in E as [E _].
      apply Nat.leb_le in E. split; [simpl in *; lia | exact H].
    + destruct (strings.Index s old) as [j'|] eqn:Ej; [|discriminate].
      intros [= <-]. destruct (IH j' eq_refl) as [Hl Hs].
      split; [simpl; lia|]. simpl. now rewrite <- Hs.
Qed.

Lemma countLoop_S f s old :
  strings.countLoop (S f) s old
  = match strings.Index s old with
    | None => 0
    | Some i => S (strings.countLoop f (sdrop (i + String.length old) s) old)
    end.
Proof. reflexivity. Qed.

Lemma countLoop_fuel old f1 : forall f2 s,
  old <> "" -> String.length s < f1 -> String.length s < f2 ->
  strings.countLoop f1 s old = strings.countLoop f2 s old.
Proof.
  induction f1 as [|f1 IH]; intros f2 s Hold H1 H2; [lia|].
  destruct f2 as [|f2]; [lia|]. simpl.
  destruct (strings.Index s old) as [j|] eqn:E; [|reflexivity].
  f_equal. apply Index_Some in E as [Hl _].
  assert (0 < String.length old) by (destruct old; simpl; [congruence | lia]).
  apply IH; [assumption | rewrite slen_sdrop; lia ..].
Qed.

Lemma Count_first s old j :
  old <> "" -> strings.Index s old = Some j ->
  strings.Count s old = S (strings.Count (sdrop (j + String.length old) s) old).
Proof.
  intros Hold E. unfold strings.Count.
  apply String.eqb_neq in Hold as Hb. rewrite Hb, countLoop_S, E. f_equal.
  apply Index_Some in E as [Hl _].
  assert (0 < String.length old) by (destruct old; simpl; [congruence | lia]).
  apply countLoop_fuel; [assumption | rewrite slen_sdrop; lia ..].
Qed.

Lemma Count_absent s old :
  old <> "" -> strings.Index s old = None -> strings.Count s old = 0.
Proof.
  intros Hold E. unfold strings.Count.
  apply String.eqb_neq in Hold as Hb. now rewrite Hb, countLoop_S, E.
Qed.

(** Without an occurrence of [old] the string is returned as it is. *)
Lemma ReplaceAll_absent s old new :
  strings.Index s old = None -> strings.ReplaceAll s old new = s.
Proof.
  intros E. unfold strings.ReplaceAll.
  destruct (String.eqb old new); [reflexivity|].
  destruct (String.eqb_spec old "") as [->|Hold].
  - unfold strings.Index in E. destruct s; simpl in E; discriminate.
  - now rewrite Count_absent.
Qed.

(** The first occurrence is replaced and the scan goes on behind it. *)
Lemma ReplaceAll_first s old new j :
  old <> "" -> old <> new -> strings.Index s old = Some j ->
  strings.ReplaceAll s old new
  = stake j s ++ new ++ strings.ReplaceAll (sdrop (j + String.length old) s) old new.
Proof.
  intros Hold Hnew E. unfold strings.ReplaceAll.
  apply String.eqb_neq in Hold as Hb. apply String.eqb_neq in Hnew as Hn.
  rewrite Hn, Hb, (Count_first _ _ _ Hold E). simpl. rewrite E.
  now destruct (strings.Count _ old).
Qed.

Lemma ReplaceAll_RemoveAll old : old <> "" ->
  forall s, RemoveAll old s (strings.ReplaceAll s old "").
Proof.
  intros Hold s.
  remember (String.length s) as n eqn:Hn.
  revert s Hn. induction n as [n IH] using lt_wf_ind. intros s ->.
  destruct (strings.Index s old) as [j|] eqn:E.
  - rewrite (ReplaceAll_first _ _ _ _ Hold Hold E). simpl.
    destruct (Index_Some _ _ _ E) as [Hl Hs].
    assert (0 < String.length old) by (destruct old; simpl; [congruence | lia]).
    set (rest := sdrop (j + String.length old) s) in *.
    assert (Hlen : String.length (stake j s) = j) by (apply slen_stake; lia).
    rewrite Hs at 1. constructor.
    + rewrite Hlen, <- Hs. exact E.
    + apply (IH (String.length rest)); [|reflexivity].
      unfold rest. rewrite slen_sdrop. lia.
  - rewrite ReplaceAll_absent by assumption. now constructor.
Qed.

(** The relation determines its result. *)
Lemma RemoveAll_functional old s out1 out2 :
  RemoveAll old s out1 -> RemoveAll old s out2 -> out1 = out2.
Proof.
  intros H1; revert out2.
  induction H1 as [s E|p rest out E H IH]; intros out2 H2.
  - inversion H2 as [s' E'|p' rest' out' E' H' Heq]; subst; [reflexivity|].
    congruence.
  - remember (p ++ old ++ rest) as s eqn:Hs.
    destruct H2 as [s E'|p' rest' out' E' H']; [congruence|].
    assert (String.length p' = String.length p) as Hlen by congruence.
    assert (p' = p) as ->.
    { apply (f_equal (stake (String.length p))) in Hs.
      rewrite stake_app, <- Hlen, stake_app in Hs. exact Hs. }
    apply String.app_inj, String.app_inj in Hs. subst rest'.
    f_equal. now apply IH.
Qed.

(** Removing occurrences brings in no byte the string does not have. *)
Lemma RemoveAll_hasByte c old s out :
  RemoveAll old s out -> hasByte c s = false -> hasByte c out = false.
Proof.
  induction 1 as [s E|p rest out E H IH]; intros Hc; [assumption|].
  rewrite !hasByte_app in Hc. rewrite hasByte_app.
  apply orb_false_iff in Hc as [Hp Hc]. apply orb_false_iff in Hc as [_ Hr].
  now rewrite Hp, IH.
Qed.

Lemma safePathOf_hasByte c originalPath wrapperDir :
  hasByte c originalPath = false -> hasByte c (safePathOf originalPath wrapperDir) = false.
Proof.
  apply RemoveAll_hasByte with (old := wrapperDir ++ ":").
  apply ReplaceAll_RemoveAll. destruct wrapperDir; discriminate.
Qed.

End StringsFacts.

(** ** Package [os]: expansion of variable references *)

Section ExpandFacts.

Variable mapping : string -> string.

Lemma expandLoop_skip a b :
  os.expandLoop mapping (String.length a) (a ++ b) = os.expandLoop mapping 0 b.
Proof.
  induction a as [|x a IH]; simpl; [|exact IH].
  destruct b; reflexivity.
Qed.

Lemma expandLoop_plain pre rest :
  hasByte "$" pre = false ->
  os.expandLoop mapping 0 (pre ++ rest) = pre ++ os.expandLoop mapping 0 rest.
Proof.
  induction pre as [|x pre IH]; intros H; [reflexivity|].
  simpl in H. destruct (Ascii.eqb x "$") eqn:Ex; [discriminate|].
  simpl. rewrite Ex. simpl. now rewrite IH.
Qed.

Lemma expandLoop_no_dollar s :
  hasByte "$" s = false -> os.expandLoop mapping 0 s = s.
Proof.
  intros H. rewrite <- (sapp_nil_r s) at 1.
  rewrite expandLoop_plain by assumption. simpl. apply sapp_nil_r.
Qed.

Lemma scanAlphaNum_app name post :
  allAlphaNum name = true -> endsName post = true ->
  os.scanAlphaNum (name ++ post) = name.
Proof.
  induction name as [|x name IH]; simpl; intros Hn Hp.
  - destruct post as [|y post]; [reflexivity|]. simpl in *.
    now destruct (os.isAlphaNum y).
  - apply andb_true_iff in Hn as [-> Hn]. now rewrite IH.
Qed.

Lemma getShellName_name name post :
  isName name = true -> endsName post = true ->
  os.getShellName (name ++ post) = (name, String.length name).
Proof.
  destruct name as [|x name]; [discriminate|]. intros Hn Hp.
  unfold isName in Hn. apply andb_true_iff in Hn as [Hx Hn].
  apply negb_true_iff in Hx.
  assert (Ascii.eqb x "{" = false) as Hb.
  { simpl in Hn. apply andb_true_iff in Hn as [Hn _].
    destruct (Ascii.eqb_spec x "{") as [->|]; [discriminate | reflexivity]. }
  change (String x name ++ post) with (String x (name ++ post)).
  unfold os.getShellName. rewrite Hb, Hx.
  change (String x (name ++ post)) with (String x name ++ post).
  now rewrite scanAlphaNum_app.
Qed.

Lemma scanBrace_app name post : forall i acc,
  hasByte "}" name = false ->
  os.scanBrace i acc (name ++ "}" ++ post)
  = if Nat.eqb (i + String.length name) 1 then ("", 2)
    else (acc ++ name, i + String.length name + 1).
Proof.
  induction name as [|x name IH]; intros i acc H.
  - simpl. rewrite Nat.add_0_r, sapp_nil_r. reflexivity.
  - simpl in H. destruct (Ascii.eqb x "}") eqn:Ex; [discriminate|].
    change (String x name ++ "}" ++ post) with (String x (name ++ "}" ++ post)).
    simpl os.scanBrace. rewrite Ex, IH by assumption.
    change (String.length (String x name)) with (S (String.length name)).
    replace (S i + String.length name) with (i + S (String.length name)) by lia.
    now rewrite sapp_assoc.
Qed.

Lemma getShellName_braces name post :
  name <> "" -> hasByte "}" name = false ->
  os.getShellName ("{" ++ name ++ "}" ++ post) = (name, String.length name + 2).
Proof.
  intros Hne H.
  assert (Hscan : os.scanBrace 1 "" (name ++ "}" ++ post)
                  = (name, String.length name + 2)).
  { rewrite scanBrace_app by assumption.
    destruct name as [|x name]; [congruence|]. simpl.
    f_equal. lia. }
  change ("{" ++ name ++ "}" ++ post) with (String "{" (name ++ "}" ++ post)).
  unfold os.getShellName. simpl Ascii.eqb. cbv iota.
  destruct name as [|c1 name]; [congruence|].
  change (String c1 name ++ "}" ++ post) with (String c1 (name ++ "}" ++ post)) in *.
  destruct name as [|c2 name].
  - simpl in H |- *. destruct (Ascii.eqb c1 "}"); [discriminate|].
    destruct (os.isShellSpecialVar c1); reflexivity.
  - change (String c2 name ++ "}" ++ post) with (String c2 (name ++ "}" ++ post)) in *.
    simpl in H. destruct (Ascii.eqb c1 "}"); [discriminate|].
    destruct (Ascii.eqb c2 "}") eqn:E2; [discriminate|].
    rewrite andb_false_r. exact Hscan.
Qed.

Lemma expandLoop_dollar r :
  r <> "" ->
  os.expandLoop mapping 0 (String "$" r)
  = (if String.eqb (os.getShellName r).1 "" then
       if Nat.ltb 0 (os.getShellName r).2 then "" else "$"
     else mapping (os.getShellName r).1)
    ++ os.expandLoop mapping (os.getShellName r).2 r.
Proof.
  intros H. destruct r as [|a r]; [congruence|].
  change (os.expandLoop mapping 0 (String "$" (String a r)))
    with (let '(name, w) := os.getShellName (String a r) in
          (if String.eqb name "" then if Nat.ltb 0 w then "" else "$" else mapping name)
          ++ os.expandLoop mapping w (String a r)).
  now destruct (os.getShellName (String a r)).
Qed.

(** [$name] is replaced by what [mapping] gives for [name]. *)
Lemma Expand_name pre name post :
  hasByte "$" pre = false -> isName name = true -> endsName post = true ->
  os.Expand (pre ++ "$" ++ name ++ post) mapping
  = pre ++ mapping name ++ os.Expand post mapping.
Proof.
  intros Hpre Hn Hp. unfold os.Expand.
  rewrite expandLoop_plain by assumption. f_equal.
  change ("$" ++ name ++ post) with (String "$" (name ++ post)).
  assert (Hne : name <> "") by (destruct name; [discriminate | congruence]).
  assert (Hr : name ++ post <> "") by (destruct name; [congruence | discriminate]).
  rewrite expandLoop_dollar by assumption.
  rewrite getShellName_name by assumption. simpl fst; simpl snd.
  apply String.eqb_neq in Hne. rewrite Hne.
  now rewrite expandLoop_skip.
Qed.

(** [${name}] is replaced by what [mapping] gives for [name]. *)
Lemma Expand_braces pre name post :
  hasByte "$" pre = false -> name <> "" -> hasByte "}" name = false ->
  os.Expand (pre ++ "${" ++ name ++ "}" ++ post) mapping
  = pre ++ mapping name ++ os.Expand post mapping.
Proof.
  intros Hpre Hne Hn. unfold os.Expand.
  rewrite expandLoop_plain by assumption. f_equal.
  change ("${" ++ name ++ "}" ++ post) with (String "$" ("{" ++ name ++ "}" ++ post)).
  rewrite expandLoop_dollar by discriminate.
  rewrite getShellName_braces by assumption. simpl fst; simpl snd.
  apply String.eqb_neq in Hne as Hb. rewrite Hb. f_equal.
  replace ("{" ++ name ++ "}" ++ post) with (("{" ++ name ++ "}") ++ post)
    by (simpl; now rewrite sapp_assoc).
  replace (String.length name + 2) with (String.length ("{" ++ name ++ "}"))
    by (simpl; rewrite slen_app; simpl; lia).
  apply expandLoop_skip.
Qed.

End ExpandFacts.

Lemma Getenv_unset (env : gmap string string) (name : string) :
  env !! name = None -> os.Getenv env name = "".
Proof. unfold os.Getenv. now intros ->. Qed.

(** ** The rule loop *)

Ltac run_go :=
  unfold mbind, M_bind, bind, mret, M_ret, ret, leave, emit, getEnviron,
    expandPath, glob_Compile, glob_Match, debugf, logError, logInfo,
    os_Setenv, os_Getenv, os_Exit, exec_LookPath, os_Args0, syscall_Exec,
    getWrapperDir; simpl.

Section RuleLoop.

Variables (c cs : string).

Lemma addOutput_nil st : addOutput st [] = st.
Proof. destruct st; unfold addOutput; simpl. now rewrite app_nil_r. Qed.

Lemma addOutput_app st evs1 evs2 :
  addOutput (addOutput st evs1) evs2 = addOutput st (evs1 ++ evs2).
Proof. unfold addOutput; simpl. now rewrite app_assoc. Qed.

Lemma rangeRules_nil st : rangeRules c cs [] st = (inl ("", false), st).
Proof. reflexivity. Qed.

Lemma rangeRules_skip rule rest st :
  ruleMatches (environ st) c cs rule = Some false ->
  rangeRules c cs (rule :: rest) st
  = rangeRules c cs rest
      (addOutput st [CallCompile (expandPathIn (environ st) (Pattern rule))]).
Proof.
  unfold ruleMatches. intros H. simpl. run_go.
  destruct (glob.Compile _ "") as [g|e]; [|discriminate]. injection H as H.
  apply orb_false_iff in H as [-> ->]. reflexivity.
Qed.

Lemma rangeRules_hit rule rest st :
  ruleMatches (environ st) c cs rule = Some true ->
  rangeRules c cs (rule :: rest) st
  = (inl (expandPathIn (environ st) (Home rule), true),
     addOutput st (CallCompile (expandPathIn (environ st) (Pattern rule))
                   :: debugLine st "Matched Rule with pattern: '%s'" [Pattern rule])).
Proof.
  unfold ruleMatches. intros H. simpl. run_go.
  destruct (glob.Compile _ "") as [g|e]; [|discriminate]. injection H as H.
  unfold debugLine, addOutput.
  destruct (glob.Match g c); simpl in *.
  - destruct (debugMode st); simpl; rewrite <- ?app_assoc; reflexivity.
  - rewrite H. destruct (debugMode st); simpl; rewrite <- ?app_assoc; reflexivity.
Qed.

Lemma rangeRules_nil_glob rule rest st :
  ruleMatches (environ st) c cs rule = None ->
  rangeRules c cs (rule :: rest) st
  = (inr nilPanic,
     addOutput st [CallCompile (expandPathIn (environ st) (Pattern rule))]).
Proof.
  unfold ruleMatches. intros H. simpl. run_go.
  destruct (glob.Compile _ "") as [g|e]; [discriminate|]. reflexivity.
Qed.

Lemma compiled_app evs1 evs2 : compiled (evs1 ++ evs2) = (compiled evs1 ++ compiled evs2)%list.
Proof. apply flat_map_app. Qed.

Lemma compiled_debugLine st format v : compiled (debugLine st format v) = [].
Proof. unfold debugLine. now destruct (debugMode st). Qed.

(** The loop leaves the environment and [debugMode] as they are. *)
Lemma rangeRules_frame rules : forall st,
  environ (rangeRules c cs rules st).2 = environ st
  /\ debugMode (rangeRules c cs rules st).2 = debugMode st.
Proof.
  induction rules as [|rule rest IH]; intros st; [now split|].
  destruct (ruleMatches (environ st) c cs rule) as [[|]|] eqn:E.
  - now rewrite rangeRules_hit.
  - rewrite rangeRules_skip by assumption.
    destruct (IH (addOutput st [CallCompile (expandPathIn (environ st) (Pattern rule))]))
      as [He Hd].
    now rewrite He, Hd.
  - now rewrite rangeRules_nil_glob.
Qed.

(** The result of the loop is a function of the rules, the two forms of
    the directory and the environment. *)
Lemma rangeRules_result rules : forall st1 st2,
  environ st1 = environ st2 ->
  (rangeRules c cs rules st1).1 = (rangeRules c cs rules st2).1.
Proof.
  induction rules as [|rule rest IH]; intros st1 st2 Henv; [reflexivity|].
  destruct (ruleMatches (environ st1) c cs rule) as [[|]|] eqn:E.
  - rewrite !rangeRules_hit by congruence. simpl. now rewrite Henv.
  - rewrite !rangeRules_skip by congruence. now apply IH.
  - now rewrite !rangeRules_nil_glob by congruence.
Qed.

(** When every rule compiles and none matches, the loop runs to the end. *)
Lemma rangeRules_no_match rules : forall st,
  Forall (fun rule => ruleMatches (environ st) c cs rule = Some false) rules ->
  rangeRules c cs rules st
  = (inl ("", false),
     addOutput st (map (fun rule => CallCompile (expandPathIn (environ st) (Pattern rule))) rules)).
Proof.
  induction rules as [|rule rest IH]; intros st H.
  - now rewrite rangeRules_nil, addOutput_nil.
  - inversion H as [|? ? Hr Hrest]; subst.
    rewrite rangeRules_skip by assumption.
    rewrite IH by exact Hrest. now rewrite addOutput_app.
Qed.

(** The loop on a list whose rules up to [rule] compile without matching:
    the scan arrives at [rule]. *)
Lemma rangeRules_prefix pre rule post : forall st,
  Forall (fun r => ruleMatches (environ st) c cs r = Some false) pre ->
  rangeRules c cs (pre ++ rule :: post) st
  = rangeRules c cs (rule :: post)
      (addOutput st (map (fun r => CallCompile (expandPathIn (environ st) (Pattern r))) pre)).
Proof.
  induction pre as [|r0 pre IH]; intros st H; simpl app.
  - now rewrite addOutput_nil.
  - inversion H as [|? ? Hr Hrest]; subst.
    rewrite rangeRules_skip by assumption.
    rewrite IH by exact Hrest. now rewrite addOutput_app.
Qed.

Lemma lookups_app evs1 evs2 : lookups (evs1 ++ evs2) = (lookups evs1 ++ lookups evs2)%list.
Proof. apply flat_map_app. Qed.

Lemma lookups_debugLine st format v : lookups (debugLine st format v) = [].
Proof. unfold debugLine. now destruct (debugMode st). Qed.

Lemma lookups_calls (f : Rule -> string) (l : list Rule) :
  lookups (map (fun rule => CallCompile (f rule)) l) = [].
Proof. induction l as [|r l IH]; [reflexivity | exact IH]. Qed.

Lemma compiled_calls (f : Rule -> string) (l : list Rule) :
  compiled (map (fun rule => CallCompile (f rule)) l) = map f l.
Proof. induction l as [|r l IH]; [reflexivity | simpl; now rewrite IH]. Qed.

(** The loop does not call [exec.LookPath]. *)
Lemma rangeRules_lookups rules : forall st,
  lookups (output (rangeRules c cs rules st).2) = lookups (output st).
Proof.
  induction rules as [|rule rest IH]; intros st; [reflexivity|].
  destruct (ruleMatches (environ st) c cs rule) as [[|]|] eqn:E.
  - rewrite rangeRules_hit by assumption. simpl.
    rewrite lookups_app. simpl. now rewrite lookups_debugLine, app_nil_r.
  - rewrite rangeRules_skip by assumption. rewrite IH. simpl.
    rewrite lookups_app. simpl. now rewrite app_nil_r.
  - rewrite rangeRules_nil_glob by assumption. simpl.
    rewrite lookups_app. simpl. now rewrite app_nil_r.
Qed.

(** A result of the loop with [profileMatched] set comes from the first
    rule that matches, every rule before it having compiled. *)
Lemma rangeRules_returns rules : forall st newHome matched,
  (rangeRules c cs rules st).1 = inl (newHome, matched) ->
  if matched then
    exists k rk, rules !! k = Some rk
      /\ ruleMatches (environ st) c cs rk = Some true
      /\ (forall j rj, j < k -> rules !! j = Some rj ->
            ruleMatches (environ st) c cs rj = Some false)
      /\ newHome = expandPathIn (environ st) (Home rk)
  else Forall (fun rule => ruleMatches (environ st) c cs rule = Some false) rules.
Proof.
  induction rules as [|r0 rest IH]; intros st newHome matched Hres.
  - injection Hres as <- <-. constructor.
  - destruct (ruleMatches (environ st) c cs r0) as [[|]|] eqn:E0.
    + rewrite rangeRules_hit in Hres by assumption. injection Hres as <- <-.
      exists 0, r0. repeat split; try assumption. intros j rj Hj; lia.
    + rewrite rangeRules_skip in Hres by assumption.
      apply IH in Hres. simpl in Hres. destruct matched.
      * destruct Hres as (k & rk & Hk & Hm & Hbefore & ->).
        exists (S k), rk. repeat split; try assumption.
        intros [|j] rj Hj Hrj; simpl in Hrj; [congruence|].
        apply (Hbefore j); [lia | assumption].
      * now constructor.
    + rewrite rangeRules_nil_glob in Hres by assumption. discriminate.
Qed.

(** The loop leaves [runWrapper] only by the panic on a nil glob. *)
Lemma rangeRules_outcome rules : forall st o,
  (rangeRules c cs rules st).1 = inr o -> o = nilPanic.
Proof.
  induction rules as [|rule rest IH]; intros st o H; [discriminate|].
  destruct (ruleMatches (environ st) c cs rule) as [[|]|] eqn:E.
  - rewrite rangeRules_hit in H by assumption. discriminate.
  - rewrite rangeRules_skip in H by assumption. now apply IH in H.
  - rewrite rangeRules_nil_glob in H by assumption. now injection H as <-.
Qed.

End RuleLoop.

(** ** The wrapper after the loop *)

(** [os.Setenv] on the keys of the program *)
Section SetenvFacts.

Lemma Setenv_lookup_ne key key' value env :
  key <> key' -> os.Setenv key value env !! key' = env !! key'.
Proof.
  intros Hne. unfold os.Setenv.
  destruct (_ || _); [reflexivity | now apply lookup_insert_ne].
Qed.



Lemma Setenv_PATH value env :
  hasByte Ascii.zero value = false -> os.Setenv "PATH" value env = <["PATH" := value]> env.
Proof. intros Hv. unfold os.Setenv. now rewrite Hv. Qed.


End SetenvFacts.

(** Running the primitives. *)
Section Steps.

Context {A B : Type}.

Lemma bind_run (m : M A) (k : A -> M B) st :
  (m ≫= k) st
  = match m st with
    | (inl a, st') => k a st'
    | (inr o, st') => (inr o, st')
    end.
Proof. reflexivity. Qed.

Lemma debugf_run format v st :
  debugf format v st = (inl tt, addOutput st (debugLine st format v)).
Proof.
  unfold debugf, debugLine, addOutput, emit. destruct st as [env [|] out]; simpl.
  - reflexivity.
  - now rewrite app_nil_r.
Qed.

Lemma expandPath_run path st :
  expandPath path st = (inl (expandPathIn (environ st) path), st).
Proof. reflexivity. Qed.

Lemma os_Setenv_run key value st :
  os_Setenv key value st = (inl tt, withEnviron st (os.Setenv key value (environ st)) []).
Proof. unfold os_Setenv, withEnviron. now rewrite app_nil_r. Qed.

Lemma os_Getenv_run key st :
  os_Getenv key st = (inl (os.Getenv (environ st) key), st).
Proof. reflexivity. Qed.

Lemma logError_run format v st :
  logError format v st
  = (inl tt, addOutput st [Write Stderr (Sprintf ("[FAIL] " ++ format ++ nl) v)]).
Proof. reflexivity. Qed.

Lemma logInfo_run format v st :
  logInfo format v st
  = (inl tt, addOutput st [Write Stdout (Sprintf ("[INFO] " ++ format ++ nl) v)]).
Proof. reflexivity. Qed.

Lemma exec_LookPath_run h file st :
  exec_LookPath h file st
  = (inl (LookPath h (environ st) file),
     addOutput st [CallLookPath (environ st) file]).
Proof. reflexivity. Qed.

End Steps.

Section AfterLoop.

Variable h : Host.

Let config := loadConfig h.
Let cwd := Getwd h.

(** [runWrapper] in terms of the loop and of what comes after it. *)
Lemma runWrapper_unfold st :
  let expandedCwd := expandPathIn (environ st) cwd in
  let expandedCwdWithSlash := expandedCwd ++ "/" in
  let st1 := addOutput st (debugLine st "Checking match for '%s' and '%s'"
                             [expandedCwd; expandedCwdWithSlash]) in
  runWrapper h st
  = match rangeRules expandedCwd expandedCwdWithSlash (Rules config) st1 with
    | (inl (newHome, true), st2) => afterMatch h newHome st2
    | (inl (_, false), st2) => (inr (Exit 1), addOutput st2 (noMatchLines cwd))
    | (inr o, st2) => (inr o, st2)
    end.
Proof.
  intros expandedCwd expandedCwdWithSlash st1.
  unfold runWrapper. fold config cwd.
  rewrite bind_run, expandPath_run. fold expandedCwd.
  change (expandedCwd ++ String filepath.Separator "") with expandedCwdWithSlash.
  rewrite bind_run, debugf_run. fold st1.
  rewrite bind_run.
  destruct (rangeRules expandedCwd expandedCwdWithSlash (Rules config) st1)
    as [[[newHome [|]]|o] st2]; [| |reflexivity].
  - (* matched *)
    rewrite bind_run. change (negb true) with false. cbv beta iota.
    unfold ret at 1. cbv beta iota.
    rewrite bind_run, os_Setenv_run, bind_run, debugf_run, bind_run.
    unfold afterMatch, os_Args0.
    destruct (Args h) as [|arg0 args].
    + unfold leave. f_equal. destruct st2 as [e2 [|] o2]; unfold withEnviron, addOutput, debugLine; simpl;
        rewrite ?app_nil_r; reflexivity.
    + unfold mret, M_ret, ret at 1.
      rewrite bind_run, os_Getenv_run, bind_run.
      unfold getWrapperDir. rewrite expandPath_run, bind_run, os_Setenv_run.
      rewrite bind_run, debugf_run, bind_run, exec_LookPath_run.
      simpl environ.
      destruct (LookPath h _ _) as [targetCmdPath [e|]].
      * rewrite bind_run, os_Setenv_run, bind_run, logError_run.
        unfold os_Exit, leave. f_equal.
        destruct st2 as [e2 [|] o2]; unfold withEnviron, addOutput, debugLine, notFoundLine;
          simpl; rewrite <- ?app_assoc, ?app_nil_r; simpl; reflexivity.
      * rewrite bind_run, os_Setenv_run, bind_run, debugf_run.
        unfold syscall_Exec. rewrite bind_run. unfold getEnviron, leave.
        destruct st2 as [e2 [|] o2]; unfold withEnviron, addOutput, debugLine;
          simpl; rewrite <- ?app_assoc, ?app_nil_r; simpl; reflexivity.
  - (* no rule matched *)
    rewrite bind_run. change (negb false) with true. cbv beta iota.
    rewrite bind_run, logError_run, bind_run, logInfo_run.
    unfold os_Exit, leave. f_equal.
    unfold addOutput, noMatchLines; simpl. now rewrite <- app_assoc.
Qed.

(** The state in which the loop starts and its two forms of the
    directory, for a process started with the environment [env0]. *)
Let c0 env0 := expandPathIn env0 cwd.
Let cs0 env0 := c0 env0 ++ "/".
Let st1 env0 :=
  addOutput (init env0)
    (debugLine (init env0) "Checking match for '%s' and '%s'" [c0 env0; cs0 env0]).

(** When [exec.LookPath] is called, a rule has matched; the call is the
    only one, and it is made after [os.Setenv] of [HOME] to the expanded
    home of that rule and of [PATH] to the safe path, with the wrapper
    name without the suffix as the file. *)
Lemma runWrapper_lookup env0 envL file :
  (envL, file) ∈ lookups (output (runWrapper h (init env0)).2) ->
  exists k rule arg0 args,
    Rules config !! k = Some rule
    /\ ruleMatches env0 (c0 env0) (cs0 env0) rule = Some true
    /\ (forall j rj, j < k -> Rules config !! j = Some rj ->
          ruleMatches env0 (c0 env0) (cs0 env0) rj = Some false)
    /\ Args h = arg0 :: args
    /\ let newHome := expandPathIn env0 (Home rule) in
       let env1 := os.Setenv "HOME" newHome env0 in
       let env2 :=
         os.Setenv "PATH" (safePathOf (os.Getenv env0 "PATH") (getWrapperDirIn env1)) env1 in
       envL = env2
       /\ file = strings.TrimSuffix (filepath.Base arg0) (Suffix (settings config))
       /\ lookups (output (runWrapper h (init env0)).2) = [(envL, file)]
       /\ environ (runWrapper h (init env0)).2 = os.Setenv "PATH" (os.Getenv env0 "PATH") env2
       /\ match LookPath h env2 file with
          | (_, Some e) =>
              (runWrapper h (init env0)).1 = inr (Exit 1)
              /\ exists pre, output (runWrapper h (init env0)).2
                             = (pre ++ [notFoundLine file e])%list
          | (targetCmdPath, None) =>
              (runWrapper h (init env0)).1
              = inr (Exec targetCmdPath (Args h)
                       (os.Setenv "PATH" (os.Getenv env0 "PATH") env2))
          end.
Proof.
  rewrite runWrapper_unfold. fold config cwd. simpl environ.
  fold (c0 env0). fold (cs0 env0). fold (st1 env0).
  pose proof (rangeRules_frame (c0 env0) (cs0 env0) (Rules config) (st1 env0)) as [Henv _].
  pose proof (rangeRules_lookups (c0 env0) (cs0 env0) (Rules config) (st1 env0)) as Hlk.
  pose proof (rangeRules_returns (c0 env0) (cs0 env0) (Rules config) (st1 env0)) as Hret.
  destruct (rangeRules (c0 env0) (cs0 env0) (Rules config) (st1 env0))
    as [[[newHome [|]]|o] st2]; simpl in Henv, Hlk.
  - specialize (Hret newHome true eq_refl). simpl in Hret.
    destruct Hret as (k & rule & Hk & Hm & Hbefore & ->).
    assert (Hl0 : lookups (output st2) = []).
    { rewrite Hlk. unfold st1; simpl. now rewrite lookups_debugLine. }
    assert (HP : os.Getenv (os.Setenv "HOME" (expandPathIn env0 (Home rule)) env0) "PATH"
                 = os.Getenv env0 "PATH").
    { unfold os.Getenv. now rewrite Setenv_lookup_ne. }
    unfold afterMatch. rewrite Henv. simpl environ. rewrite HP.
    destruct (Args h) as [|arg0 args] eqn:HArgs.
    + simpl. rewrite lookups_app, Hl0, lookups_debugLine. intros H; inversion H.
    + set (file' := strings.TrimSuffix _ _).
      set (env2 := os.Setenv "PATH" _ _).
      assert (Hl : forall tail, lookups tail = [] ->
                lookups (output st2 ++
                  (debugLine st2 "Set HOME to: '%s'" [expandPathIn env0 (Home rule)] ++
                   debugLine st2 "Temporarily searching for '%s' in safe PATH" [file'] ++
                   [CallLookPath env2 file']) ++ tail) = [(env2, file')]).
      { intros tail Ht. rewrite !lookups_app, Hl0, !lookups_debugLine, Ht. reflexivity. }
      destruct (LookPath h env2 file') as [targetCmdPath [e|]] eqn:HL; simpl.
      * rewrite Hl by reflexivity. intros [= -> ->]%list_elem_of_singleton.
        exists k, rule, arg0, args. cbv zeta.
        change (LookPath h _ _) with (LookPath h env2 file'). rewrite HL.
        repeat split; try assumption; try reflexivity.
        eexists. rewrite app_assoc. reflexivity.
      * rewrite Hl by apply lookups_debugLine. intros [= -> ->]%list_elem_of_singleton.
        exists k, rule, arg0, args. cbv zeta.
        change (LookPath h _ _) with (LookPath h env2 file'). rewrite HL.
        repeat split; try assumption; reflexivity.
  - simpl. rewrite lookups_app, Hlk. unfold st1; simpl.
    rewrite lookups_debugLine. intros H; inversion H.
  - simpl. rewrite Hlk. unfold st1; simpl.
    rewrite lookups_debugLine. intros H; inversion H.
Qed.


End AfterLoop.

(** ** [filepath.Clean] on clean paths *)

Section CleanFacts.

Lemma cleanLoop_slash rooted inElem p out dotdot :
  filepath.cleanLoop rooted inElem (String "/" p) out dotdot
  = filepath.cleanLoop rooted false p out dotdot.
Proof. reflexivity. Qed.

Lemma elemEnd_rooted elems tail :
  filepath.elemEnd tail = true -> filepath.elemEnd (rootedPath elems ++ tail) = true.
Proof. destruct elems; [trivial | reflexivity]. Qed.

(** The inner loop of the default case copies the rest of the element. *)
Lemma cleanLoop_copy rooted e : forall p out dotdot,
  hasByte "/" e = false ->
  filepath.cleanLoop rooted true (e ++ p) out dotdot
  = filepath.cleanLoop rooted true p (rev (list_ascii_of_string e) ++ out) dotdot.
Proof.
  induction e as [|a e IH]; intros p out dotdot H; [reflexivity|].
  simpl in H. destruct (Ascii.eqb a "/") eqn:Ea; [discriminate|].
  change (String a e ++ p) with (String a (e ++ p)).
  simpl filepath.cleanLoop. unfold filepath.IsPathSeparator, filepath.Separator.
  rewrite Ea, IH by assumption. simpl. now rewrite <- app_assoc.
Qed.

(** A normal element is a real path element: a separator is written in
    front of it unless the buffer holds the root only, and the element
    is copied. *)
Lemma cleanLoop_elem e p out :
  normalElem e = true -> filepath.elemEnd p = true ->
  filepath.cleanLoop true false (e ++ p) out 1
  = filepath.cleanLoop true true p (pushElem out e) 1.
Proof.
  unfold normalElem. intros Hn Hp.
  apply andb_true_iff in Hn as [Hn Hdd]. apply andb_true_iff in Hn as [Hn Hd].
  apply andb_true_iff in Hn as [Hne Hs].
  apply negb_true_iff in Hne, Hs, Hd, Hdd.
  destruct e as [|a e]; [discriminate|].
  pose proof Hs as Hs'. simpl in Hs'.
  destruct (Ascii.eqb a "/") eqn:Ea; [discriminate|].
  assert (Hgo : filepath.cleanLoop true false (String a e ++ p) out 1
                = filepath.cleanLoop true true (e ++ p)
                    (a :: (if Nat.eqb (length out) 1 then out
                           else filepath.Separator :: out)) 1).
  { change (String a e ++ p) with (String a (e ++ p)).
    simpl filepath.cleanLoop. unfold filepath.IsPathSeparator, filepath.Separator.
    rewrite Ea.
    assert (Hout : (if negb (Nat.eqb (length out) 1) || false
                    then "/"%char :: out else out)
                   = (if Nat.eqb (length out) 1 then out else "/"%char :: out))
      by (now destruct (Nat.eqb (length out) 1)).
    destruct (Ascii.eqb_spec a ".") as [->|Hdot].
    - (* the element begins with a dot *)
      destruct e as [|b e]; [discriminate|].
      simpl in Hs'. destruct (Ascii.eqb b "/") eqn:Eb; [discriminate|].
      change (String b e ++ p) with (String b (e ++ p)).
      simpl filepath.elemEnd. unfold filepath.IsPathSeparator, filepath.Separator.
      rewrite Eb. simpl andb.
      destruct (Ascii.eqb_spec b ".") as [->|Hb].
      + destruct e as [|d e]; [discriminate|].
        simpl in Hs'. destruct (Ascii.eqb d "/") eqn:Ed; [discriminate|].
        change (String d e ++ p) with (String d (e ++ p)).
        simpl filepath.elemEnd. unfold filepath.IsPathSeparator, filepath.Separator.
        rewrite Ed. simpl. now rewrite Hout.
      + simpl. now rewrite Hout.
    - simpl andb. destruct (e ++ p); simpl; now rewrite Hout. }
  rewrite Hgo, cleanLoop_copy by assumption.
  unfold pushElem. simpl. now rewrite <- app_assoc.
Qed.

Lemma cleanLoop_rooted elems : forall inElem out tail,
  Forall (fun e => normalElem e = true) elems -> filepath.elemEnd tail = true ->
  filepath.cleanLoop true inElem (rootedPath elems ++ tail) out 1
  = filepath.cleanLoop true (match elems with [] => inElem | _ => true end) tail
      (fold_left pushElem elems out) 1.
Proof.
  induction elems as [|e rest IH]; intros inElem out tail Hall Ht; [reflexivity|].
  inversion Hall as [|? ? He Hrest]; subst.
  change (rootedPath (e :: rest) ++ tail)
    with (String "/" ((e ++ rootedPath rest) ++ tail)).
  rewrite cleanLoop_slash, sapp_assoc.
  rewrite cleanLoop_elem by (try assumption; now apply elemEnd_rooted).
  rewrite IH by assumption. simpl fold_left. now destruct rest.
Qed.

Lemma list_ascii_app (s t : string) :
  list_ascii_of_string (s ++ t) = (list_ascii_of_string s ++ list_ascii_of_string t)%list.
Proof. induction s as [|a s IH]; simpl; [reflexivity | now rewrite IH]. Qed.

(** The buffer after the elements, read forward. *)
Lemma pushed_elems elems : forall acc,
  acc <> "" ->
  let out := rev (list_ascii_of_string ("/" ++ acc)) in
  fold_left pushElem elems out
  = rev (list_ascii_of_string (("/" ++ acc) ++ rootedPath elems)).
Proof.
  induction elems as [|e rest IH]; intros acc Hacc out.
  - simpl. now rewrite sapp_nil_r.
  - simpl fold_left.
    assert (Hlen : Nat.eqb (length out) 1 = false).
    { unfold out. rewrite length_rev. destruct acc; [congruence | reflexivity]. }
    assert (Hpush : pushElem out e = rev (list_ascii_of_string ("/" ++ (acc ++ "/" ++ e)))).
    { unfold pushElem. rewrite Hlen. unfold out, filepath.Separator.
      change ("/" ++ acc ++ "/" ++ e) with (String "/" (acc ++ "/" ++ e)).
      change ("/" ++ acc) with (String "/" acc).
      simpl list_ascii_of_string. rewrite !list_ascii_app. simpl.
      rewrite !rev_app_distr. simpl. rewrite <- !app_assoc. reflexivity. }
    rewrite Hpush, IH by (destruct acc; [congruence | discriminate]).
    f_equal. f_equal. simpl. rewrite !sapp_assoc. reflexivity.
Qed.

(** A clean absolute path joined with a clean path below it is their
    concatenation with one separator between them. *)
Lemma Clean_join_rooted (e : string) (elems1 elems2 : list string) :
  Forall (fun e => normalElem e = true) (e :: elems1 ++ elems2) ->
  filepath.Clean (rootedPath (e :: elems1) ++ "/" ++ rootedPath elems2)
  = rootedPath (e :: elems1 ++ elems2).
Proof.
  intros Hall. inversion Hall as [|? ? He Hrest]; subst.
  apply Forall_app in Hrest as [H1 H2].
  change (rootedPath (e :: elems1) ++ "/" ++ rootedPath elems2)
    with (String "/" ((e ++ rootedPath elems1) ++ "/" ++ rootedPath elems2)).
  unfold filepath.Clean.
  change (filepath.IsPathSeparator "/") with true. cbv iota.
  rewrite sapp_assoc.
  rewrite cleanLoop_elem by (try assumption; now apply elemEnd_rooted).
  rewrite cleanLoop_rooted by (try assumption; reflexivity).
  change ("/" ++ rootedPath elems2) with (String "/" (rootedPath elems2)).
  rewrite cleanLoop_slash.
  rewrite <- (sapp_nil_r (rootedPath elems2)), cleanLoop_rooted
    by (try assumption; reflexivity).
  simpl filepath.cleanLoop. rewrite <- fold_left_app.
  assert (Hne : e <> "").
  { unfold normalElem in He. destruct e; [discriminate | congruence]. }
  assert (Hfirst : pushElem [filepath.Separator] e = rev (list_ascii_of_string ("/" ++ e))).
  { unfold pushElem. reflexivity. }
  rewrite Hfirst, pushed_elems by assumption.
  destruct (rev (list_ascii_of_string (("/" ++ e) ++ rootedPath (elems1 ++ elems2))))
    as [|x l] eqn:El.
  - apply (f_equal (@length ascii)) in El. rewrite length_rev in El. discriminate.
  - rewrite <- El, rev_involutive, string_of_list_ascii_of_string.
    change (rootedPath (e :: elems1 ++ elems2))
      with ("/" ++ e ++ rootedPath (elems1 ++ elems2)).
    apply sapp_assoc.
Qed.

End CleanFacts.

(** ** Globs of a text followed by a star *)

Section GlobFacts.

Lemma anyThen_all (s : string) :
  glob.anyThen "" (fun rest => String.eqb rest "") s = true.
Proof.
  induction s as [|c s IH]; [reflexivity|]. simpl. exact IH.
Qed.

Lemma anyThen_no_separator (seps s : string) :
  glob.anyThen seps (fun rest => String.eqb rest "") s
  = forallb (fun c => negb (hasByte c seps)) (list_ascii_of_string s).
Proof.
  induction s as [|c s IH]; [reflexivity|]. simpl. now rewrite IH.
Qed.

(** [text**] matches the strings that begin with [text]. *)
Lemma Match_text_super (text seps s : string) :
  glob.Match {| glob.nodes := [glob.KindText text; glob.KindSuper];
                glob.separators := seps |} s
  = strings.HasPrefix s text.
Proof.
  unfold glob.Match. simpl. rewrite anyThen_all. apply andb_true_r.
Qed.

(** Compiled without separators, [text*] matches the same strings. *)
Lemma Match_text_any (text s : string) :
  glob.Match {| glob.nodes := [glob.KindText text; glob.KindAny];
                glob.separators := "" |} s
  = strings.HasPrefix s text.
Proof.
  unfold glob.Match. simpl. rewrite anyThen_all. apply andb_true_r.
Qed.

(** Compiled with separators, [text*] matches the strings that begin with
    [text] and go on without a separator. *)
Lemma Match_text_any_separators (text seps s : string) :
  glob.Match {| glob.nodes := [glob.KindText text; glob.KindAny];
                glob.separators := seps |} s
  = strings.HasPrefix s text
    && forallb (fun c => negb (hasByte c seps))
         (list_ascii_of_string (sdrop (String.length text) s)).
Proof.
  unfold glob.Match. simpl. now rewrite anyThen_no_separator.
Qed.

End GlobFacts.


(** When the scan arrives at a rule whose expanded pattern does not
    compile, the call [g.Match] on the nil glob panics; the rules behind it
    are not examined. *)
Lemma rangeRules_bad_pattern (c cs : string) (pre post : list Rule) (rule : Rule) st :
  Forall (fun r => ruleMatches (environ st) c cs r = Some false) pre ->
  ruleMatches (environ st) c cs rule = None ->
  (rangeRules c cs (pre ++ rule :: post) st).1 = inr nilPanic
  /\ compiled (output (rangeRules c cs (pre ++ rule :: post) st).2)
     = (compiled (output st)
        ++ map (fun r => expandPathIn (environ st) (Pattern r)) (pre ++ [rule]))%list.
Proof.
  intros Hpre Hbad. rewrite rangeRules_prefix by assumption.
  rewrite rangeRules_nil_glob by assumption. split; [reflexivity|].
  simpl. rewrite <- app_assoc, compiled_app, map_app. f_equal.
  change [CallCompile (expandPathIn (environ st) (Pattern rule))]
    with (map (fun r => CallCompile (expandPathIn (environ st) (Pattern r))) [rule]).
  rewrite <- map_app, compiled_calls. now rewrite map_app.
Qed.

(** * The claims *)

(** C1.  The rule loop goes through the rules in configuration order and
    stops at the first match.  If the rule at index [i] matches, then the
    patterns compiled are those of the rules at indices [0..k] for some
    [k <= i], in that order, so no rule behind [i] is examined; a result
    the loop returns is the expanded home of the rule at the earliest index
    whose pattern matches, with every rule before it examined and found not
    to match; and the loop does return that result when the patterns before
    index [i] compile. *)
Theorem first_match_wins (c cs : string) (rules : list Rule) :
  forall (st : State) (i : nat) (r : Rule),
  rules !! i = Some r ->
  ruleMatches (environ st) c cs r = Some true ->
  (exists k, k <= i
     /\ compiled (output (rangeRules c cs rules st).2)
        = (compiled (output st)
           ++ map (fun r => expandPathIn (environ st) (Pattern r)) (take (S k) rules))%list)
  /\ (forall newHome matched,
        (rangeRules c cs rules st).1 = inl (newHome, matched) ->
        exists k rk, k <= i /\ rules !! k = Some rk
          /\ ruleMatches (environ st) c cs rk = Some true
          /\ (forall j rj, j < k -> rules !! j = Some rj ->
                ruleMatches (environ st) c cs rj = Some false)
          /\ matched = true
          /\ newHome = expandPathIn (environ st) (Home rk))
  /\ ((forall j rj, j < i -> rules !! j = Some rj ->
         ruleMatches (environ st) c cs rj <> None) ->
      exists newHome, (rangeRules c cs rules st).1 = inl (newHome, true)).
Proof.
  induction rules as [|r0 rest IH]; intros st i r Hi Hr; [discriminate|].
  destruct (ruleMatches (environ st) c cs r0) as [[|]|] eqn:E0.
  - (* the first rule matches *)
    rewrite rangeRules_hit by assumption. simpl. split; [|split].
    + exists 0. split; [lia|]. rewrite compiled_app. simpl.
      now rewrite compiled_debugLine.
    + intros newHome matched [= <- <-]. exists 0, r0.
      repeat split; try lia; try assumption.
    + intros _. eauto.
  - (* the first rule compiles and does not match *)
    destruct i as [|i]; [simpl in Hi; congruence|]. simpl in Hi.
    rewrite rangeRules_skip by assumption.
    set (st1 := addOutput st _).
    destruct (IH st1 i r Hi Hr) as (Hex & Hret & Hdoes). split; [|split].
    + destruct Hex as (k & Hk & Hc). exists (S k). split; [lia|].
      rewrite Hc. unfold st1; simpl. rewrite compiled_app, <- app_assoc.
      reflexivity.
    + intros newHome matched Hres.
      destruct (Hret _ _ Hres) as (k & rk & Hk & Hrk & Hm & Hbefore & -> & ->).
      exists (S k), rk. repeat split; try assumption; try lia.
      intros [|j] rj Hj Hrj; simpl in Hrj; [congruence|].
      apply (Hbefore j); [lia | assumption].
    + intros Hcompile. apply Hdoes. intros j rj Hj Hrj.
      apply (Hcompile (S j)); [lia | assumption].
  - (* the first pattern does not compile *)
    destruct i as [|i]; [simpl in Hi; congruence|].
    rewrite rangeRules_nil_glob by assumption. simpl. split; [|split].
    + exists 0. split; [lia|]. rewrite compiled_app. reflexivity.
    + intros newHome matched [=].
    + intros Hcompile. exfalso. apply (Hcompile 0 r0); [lia | reflexivity | assumption].
Qed.

(** With the rules [/a/**] and [/a/b/**] and the directory [/a/b/c], the
    second rule matches and the loop returns a match: the first rule, its
    pattern being the only one compiled. *)
Lemma first_match_wins_witness :
  rulesOverlap !! 1 = Some {| Pattern := "/a/b/**"; Home := "/home/second" |}
  /\ ruleMatches envHome "/a/b/c" "/a/b/c/"
       {| Pattern := "/a/b/**"; Home := "/home/second" |} = Some true
  /\ exists newHome,
       (rangeRules "/a/b/c" "/a/b/c/" rulesOverlap (init envHome)).1
       = inl (newHome, true).
Proof.
  split; [reflexivity|]. split; [reflexivity|].
  apply (first_match_wins "/a/b/c" "/a/b/c/" rulesOverlap (init envHome) 1
           {| Pattern := "/a/b/**"; Home := "/home/second" |} eq_refl eq_refl).
  intros [|j] rj Hj Hrj; [|lia].
  injection Hrj as <-. discriminate.
Defined.

Example first_match_wins_overlap :
  compiled (output (rangeRules "/a/b/c" "/a/b/c/" rulesOverlap (init envHome)).2)
  = ["/a/**"]
  /\ (rangeRules "/a/b/c" "/a/b/c/" rulesOverlap (init envHome)).1
     = inl ("/home/first", true).
Proof. split; reflexivity. Qed.

(** C2 (the code departs from the claim).  [runWrapper] compiles the
    pattern without separators, so [*] stands for any run of characters,
    path separators included, as [**] does: the glob of [/a/*] matches
    every string that begins with [/a/], and the rule [/a/*] matches the
    directory [/a/c/d].  Compiled with the separator [/] the same pattern
    does not match it.  The other matches of the claim hold: [/a/b/**]
    matches [/a/b] (through the form with the trailing separator) and
    [/a/b/c/d] but not [/a/bc], and [/a/*] matches [/a/c]. *)
Theorem star_crosses_separators :
  glob.Compile "/a/*" "" = inl {| glob.nodes := [glob.KindText "/a/"; glob.KindAny];
                                  glob.separators := "" |}
  /\ (forall s, match glob.Compile "/a/*" "" with
                | inl g => glob.Match g s = strings.HasPrefix s "/a/"
                | inr _ => False
                end)
  /\ ruleMatches envHome "/a/c/d" "/a/c/d/" {| Pattern := "/a/*"; Home := "/h" |} = Some true
  /\ (forall k s, glob.matchNode "" glob.KindAny k s = glob.matchNode "" glob.KindSuper k s)
  /\ match glob.Compile "/a/*" "/" with
     | inl g => glob.Match g "/a/c/d" || glob.Match g "/a/c/d/"
     | inr _ => true
     end = false
  /\ ruleMatches envHome "/a/c" "/a/c/" {| Pattern := "/a/*"; Home := "/h" |} = Some true
  /\ ruleMatches envHome "/a/b" "/a/b/" {| Pattern := "/a/b/**"; Home := "/h" |} = Some true
  /\ ruleMatches envHome "/a/b/c/d" "/a/b/c/d/" {| Pattern := "/a/b/**"; Home := "/h" |} = Some true
  /\ ruleMatches envHome "/a/bc" "/a/bc/" {| Pattern := "/a/b/**"; Home := "/h" |} = Some false.
Proof.
  repeat split; try reflexivity.
  intros s. change (glob.Compile "/a/*" "")
    with (@inl glob.Glob string {| glob.nodes := [glob.KindText "/a/"; glob.KindAny];
                                   glob.separators := "" |}).
  apply Match_text_any.
Qed.

Section SafePath.

Variable h : Host.


End SafePath.


(** The wrapper directory as the last entry of [PATH] stays in the [PATH]
    of the lookup. *)
Example safe_path_keeps_last_entry :
  lookups (output (runWrapper hostSameHome (init envWrapperLast)).2)
  = [(envWrapperLast, "aws")]
  /\ envWrapperLast !! "PATH" = Some "/usr/bin:/home/u/.local/bin/multiprof".
Proof. split; vm_compute; reflexivity. Qed.

Section ExecEnvironment.

Variable h : Host.

Let config := loadConfig h.
Let cwd := Getwd h.




End ExecEnvironment.


Example exec_environment_aws :
  (runWrapper hostWork (init envHome)).1
  = inr (Exec "/usr/bin/aws" ["/home/u/.local/bin/multiprof/aws_w"; "s3"; "ls"]
           (<["HOME" := "/home/work"]> envHome)).
Proof. vm_compute. reflexivity. Qed.


Section WrapperDirectory.

Variable h : Host.

Let config := loadConfig h.
Let cwd := Getwd h.


End WrapperDirectory.



Example wrapper_dir_under_old_home_stays :
  getWrapperDirIn envHome = "/home/u/.local/bin/multiprof"
  /\ getWrapperDirIn (<["HOME" := "/home/work"]> envHome) = "/home/work/.local/bin/multiprof"
  /\ lookups (output (runWrapper hostWork (init envHome)).2)
     = [(<["PATH" := "/home/u/.local/bin/multiprof:/usr/bin"]>
           (<["HOME" := "/home/work"]> envHome), "aws")]
  /\ lookups (output (runWrapper hostSameHome (init envHome)).2)
     = [(<["PATH" := "/usr/bin"]> envHome, "aws")].
Proof. repeat split; vm_compute; reflexivity. Qed.

Section TargetName.

Variable h : Host.

Let config := loadConfig h.
Let cwd := Getwd h.

(** C6.  The file [exec.LookPath] is asked for is the base name of
    [os.Args[0]] without the configured suffix: the stem when the name is
    the stem followed by the suffix, and the name itself when it does not
    end with the suffix or the suffix is empty. *)
Theorem target_name_strips_suffix (env0 envL : gmap string string) (file : string) :
  (envL, file) ∈ lookups (output (runWrapper h (init env0)).2) ->
  exists arg0 args,
    Args h = arg0 :: args
    /\ let wrapperName := filepath.Base arg0 in
       let suffix := Suffix (settings config) in
       file = strings.TrimSuffix wrapperName suffix
       /\ (forall stem, wrapperName = stem ++ suffix -> file = stem)
       /\ ((forall stem, wrapperName <> stem ++ suffix) -> file = wrapperName)
       /\ (suffix = "" -> file = wrapperName).
Proof.
  intros Hin.
  destruct (runWrapper_lookup h env0 envL file Hin)
    as (k & rule & arg0 & args & _ & _ & _ & HArgs & Hrun).
  cbv zeta in Hrun. destruct Hrun as (_ & -> & _).
  exists arg0, args. split; [exact HArgs|]. cbv zeta. fold config.
  repeat split.
  - intros stem ->. apply TrimSuffix_app.
  - intros Hno. apply TrimSuffix_absent.
    destruct (strings.HasSuffix _ _) eqn:E; [|reflexivity].
    apply HasSuffix_inv in E. exfalso. eapply Hno. exact E.
  - intros ->. apply TrimSuffix_empty.
Qed.

End TargetName.

(** Invoked as [aws_w] with the suffix [_w], the wrapper looks for
    [aws]. *)
Lemma target_name_strips_suffix_witness :
  (envAtLookup, "aws") ∈ lookups (output (runWrapper hostWork (init envHome)).2)
  /\ exists arg0 args,
       Args hostWork = arg0 :: args
       /\ "aws" = strings.TrimSuffix (filepath.Base arg0) "_w".
Proof.
  assert (Hin : (envAtLookup, "aws")
                ∈ lookups (output (runWrapper hostWork (init envHome)).2))
    by (vm_compute; apply list_elem_of_here).
  split; [exact Hin|].
  destruct (target_name_strips_suffix hostWork envHome envAtLookup "aws" Hin)
    as (arg0 & args & HArgs & Hfile & _).
  exists arg0, args. split; [exact HArgs | exact Hfile].
Defined.

Example target_name_examples :
  strings.TrimSuffix "aws_w" "_w" = "aws"
  /\ strings.TrimSuffix "aws" "_w" = "aws"
  /\ strings.TrimSuffix "aws" "" = "aws"
  /\ strings.TrimSuffix "_w" "_w" = ""
  /\ filepath.Base "/home/u/.local/bin/multiprof/aws_w" = "aws_w".
Proof. repeat split; reflexivity. Qed.

(** C7, the claim as it stands fails: with [HOME=/home/u] the input
    [~/a/../b] becomes [/home/u/b], not the home directory followed by
    [/a/../b]; [filepath.Join] cleans the joined path. *)
Lemma expandPath_not_verbatim :
  os.UserHomeDir envHome = Some "/home/u"
  /\ expandPathIn envHome "~/a/../b" = "/home/u/b"
  /\ expandPathIn envHome "~/a/../b" <> "/home/u" ++ "/a/../b".
Proof. repeat split; vm_compute; [reflexivity .. | discriminate]. Qed.

(** [~rest] with a home directory: [filepath.Join(homeDir, path[1:])]. *)
Lemma expandPath_tilde (env : gmap string string) (rest home : string) :
  os.UserHomeDir env = Some home ->
  expandPathIn env ("~" ++ rest)
  = os.ExpandEnv env (filepath.Clean (home ++ "/" ++ rest)).
Proof.
  intros Hh. unfold expandPathIn.
  change (strings.HasPrefix ("~" ++ rest) "~") with true. cbv iota.
  rewrite Hh. change (sdrop 1 ("~" ++ rest)) with rest.
  unfold os.UserHomeDir in Hh.
  destruct (String.eqb_spec (os.Getenv env "HOME") "") as [|Hne]; [discriminate|].
  injection Hh as <-. unfold filepath.Join.
  apply String.eqb_neq in Hne. now rewrite Hne.
Qed.

(** C7, amended.  A string that does not begin with a tilde is not
    normalized; a string [~rest] becomes the cleaned
    [home + "/" + rest] when the lookup of the home directory succeeds
    and keeps its tilde when it fails.  Where the home directory is a
    clean absolute path other than the root, [/h1/.../hm] with at least
    one element, [rest] is empty or a clean path [/e1/.../en], and every
    element is non-empty, without separator and neither [.] nor [..],
    cleaning changes nothing and [rest] follows the home directory
    verbatim.  After that, [$name] and [${name}] are replaced by the
    values of the environment, the empty string for an unset variable,
    and a string without a dollar stays as it is. *)
Theorem expandPath_joins_then_substitutes (env : gmap string string) (path : string) :
  (strings.HasPrefix path "~" = false ->
   expandPathIn env path = os.ExpandEnv env path)
  /\ (forall rest home, path = "~" ++ rest -> os.UserHomeDir env = Some home ->
        expandPathIn env path = os.ExpandEnv env (filepath.Clean (home ++ "/" ++ rest)))
  /\ (forall rest, path = "~" ++ rest -> os.UserHomeDir env = None ->
        expandPathIn env path = os.ExpandEnv env path)
  /\ (forall e elems1 elems2,
        path = "~" ++ rootedPath elems2 ->
        os.UserHomeDir env = Some (rootedPath (e :: elems1)) ->
        Forall (fun e => normalElem e = true) (e :: elems1 ++ elems2) ->
        expandPathIn env path
        = os.ExpandEnv env (rootedPath (e :: elems1) ++ rootedPath elems2))
  /\ (hasByte "$" path = false -> os.ExpandEnv env path = path)
  /\ (forall pre name post, path = pre ++ "$" ++ name ++ post ->
        hasByte "$" pre = false -> isName name = true -> endsName post = true ->
        os.ExpandEnv env path = pre ++ os.Getenv env name ++ os.ExpandEnv env post)
  /\ (forall pre name post, path = pre ++ "${" ++ name ++ "}" ++ post ->
        hasByte "$" pre = false -> name <> "" -> hasByte "}" name = false ->
        os.ExpandEnv env path = pre ++ os.Getenv env name ++ os.ExpandEnv env post)
  /\ (forall name, env !! name = None -> os.Getenv env name = "").
Proof.
  repeat split.
  - intros H. unfold expandPathIn. now rewrite H.
  - intros rest home ->. apply expandPath_tilde.
  - intros rest -> Hh. unfold expandPathIn.
    change (strings.HasPrefix ("~" ++ rest) "~") with true. cbv iota.
    now rewrite Hh.
  - intros e elems1 elems2 -> Hh Hall.
    rewrite (expandPath_tilde env _ _ Hh), Clean_join_rooted by assumption.
    f_equal. change (rootedPath (e :: elems1 ++ elems2))
      with (rootedPath ((e :: elems1) ++ elems2)).
    generalize (e :: elems1). intros l. induction l as [|x l IH]; [reflexivity|].
    simpl. now rewrite IH, !sapp_assoc.
  - apply expandLoop_no_dollar.
  - intros pre name post ->. apply Expand_name.
  - intros pre name post ->. apply Expand_braces.
  - apply Getenv_unset.
Qed.

Lemma expandPath_joins_then_substitutes_witness :
  ("~/work/$X/**" = "~" ++ "/work/$X/**"
   /\ os.UserHomeDir envHome = Some "/home/u"
   /\ expandPathIn envHome "~/work/$X/**"
      = os.ExpandEnv envHome (filepath.Clean ("/home/u" ++ "/" ++ "/work/$X/**")))
  /\ (strings.HasPrefix "/a/../b//c/" "~" = false
      /\ expandPathIn envHome "/a/../b//c/" = os.ExpandEnv envHome "/a/../b//c/")
  /\ (os.UserHomeDir envHome = Some (rootedPath ["home"; "u"])
      /\ Forall (fun e => normalElem e = true) ("home" :: ["u"] ++ ["work"; "client-a"; "**"])
      /\ expandPathIn envHome ("~" ++ rootedPath ["work"; "client-a"; "**"])
         = os.ExpandEnv envHome
             (rootedPath ["home"; "u"] ++ rootedPath ["work"; "client-a"; "**"]))
  /\ (hasByte "$" "/a/../b//c/" = false
      /\ os.ExpandEnv envHome "/a/../b//c/" = "/a/../b//c/")
  /\ (isName "HOME" = true /\ endsName "/x" = true
      /\ os.ExpandEnv envHome ("/opt" ++ "$" ++ "HOME" ++ "/x")
         = "/opt" ++ os.Getenv envHome "HOME" ++ os.ExpandEnv envHome "/x")
  /\ (hasByte "}" "UNSET" = false
      /\ os.ExpandEnv envHome ("/opt/" ++ "${" ++ "UNSET" ++ "}" ++ "/x")
         = "/opt/" ++ os.Getenv envHome "UNSET" ++ os.ExpandEnv envHome "/x")
  /\ (envHome !! "UNSET" = None /\ os.Getenv envHome "UNSET" = "").
Proof.
  destruct (expandPath_joins_then_substitutes envHome "~/work/$X/**")
    as (_ & Htilde & _).
  destruct (expandPath_joins_then_substitutes envHome "/a/../b//c/")
    as (Hplain & _ & _ & _ & Hnodollar & _).
  destruct (expandPath_joins_then_substitutes envHome
              ("~" ++ rootedPath ["work"; "client-a"; "**"]))
    as (_ & _ & _ & Hclean & _).
  destruct (expandPath_joins_then_substitutes envHome ("/opt" ++ "$" ++ "HOME" ++ "/x"))
    as (_ & _ & _ & _ & _ & Hname & _).
  destruct (expandPath_joins_then_substitutes envHome
              ("/opt/" ++ "${" ++ "UNSET" ++ "}" ++ "/x"))
    as (_ & _ & _ & _ & _ & _ & Hbraces & Hunset).
  assert (Hall : Forall (fun e => normalElem e = true)
                   ("home" :: ["u"] ++ ["work"; "client-a"; "**"]))
    by (repeat constructor).
  split; [split; [reflexivity | split; [reflexivity|]]|].
  { exact (Htilde "/work/$X/**" "/home/u" eq_refl eq_refl). }
  split; [split; [reflexivity | exact (Hplain eq_refl)]|].
  split; [split; [reflexivity | split; [exact Hall|]]|].
  { exact (Hclean "home" ["u"] ["work"; "client-a"; "**"] eq_refl eq_refl Hall). }
  split; [split; [reflexivity | exact (Hnodollar eq_refl)]|].
  split; [split; [reflexivity | split; [reflexivity|]]|].
  { exact (Hname "/opt" "HOME" "/x" eq_refl eq_refl eq_refl eq_refl). }
  split; [split; [reflexivity|]|].
  { exact (Hbraces "/opt/" "UNSET" "/x" eq_refl eq_refl ltac:(discriminate) eq_refl). }
  split; [reflexivity | exact (Hunset "UNSET" eq_refl)].
Defined.

Example expandPath_examples :
  expandPathIn envHome "~/work/client-a/**" = "/home/u/work/client-a/**"
  /\ expandPathIn envHome "~" = "/home/u"
  /\ expandPathIn envHome "~/" = "/home/u"
  /\ expandPathIn envHome "~other/x" = "/home/u/other/x"
  /\ expandPathIn envHome "$HOME/x/${UNSET}y" = "/home/u/x/y"
  /\ expandPathIn (delete "HOME" envHome) "~/x" = "~/x"
  /\ expandPathIn envHome "/a/../b//c/" = "/a/../b//c/".
Proof. repeat split; vm_compute; reflexivity. Qed.

(** C8 (the code departs from the claim).  The pattern [/tmp/[a] does not
    compile.  With a rule of that pattern in front of the rule [/work/**],
    [runWrapper] in [/work/proj] panics on the first rule and never
    compiles the pattern of the second, which matches the directory. *)
Theorem compile_failure_panics :
  glob.Compile "/tmp/[a" "" = inr "unexpected end of input"
  /\ ruleMatches envHome "/work/proj" "/work/proj/"
       {| Pattern := "/work/**"; Home := "/home/work" |} = Some true
  /\ (runWrapper hostBadPattern (init envHome)).1 = inr nilPanic
  /\ compiled (output (runWrapper hostBadPattern (init envHome)).2) = ["/tmp/[a"]
  /\ lookups (output (runWrapper hostBadPattern (init envHome)).2) = [].
Proof. repeat split; reflexivity. Qed.

Section Failures.

Variable h : Host.

Let config := loadConfig h.
Let cwd := Getwd h.

(** C9.  When every rule has been examined without a match, and so with
    no rules at all, [runWrapper] writes the diagnostic with the
    [add-rule] invocation for the current directory and exits with status
    1, without a call of [exec.LookPath] and with every pattern compiled
    once.  When [exec.LookPath] fails, [runWrapper] writes the diagnostic
    that names the command searched and exits with status 1; the call is
    the only one of the run. *)
Theorem failures_exit_nonzero (env0 : gmap string string) :
  let run := runWrapper h (init env0) in
  let expandedCwd := expandPathIn env0 cwd in
  (Forall (fun rule => ruleMatches env0 expandedCwd (expandedCwd ++ "/") rule = Some false)
     (Rules config) ->
   run.1 = inr (Exit 1)
   /\ (exists pre, output run.2 = (pre ++ noMatchLines cwd)%list)
   /\ lookups (output run.2) = []
   /\ compiled (output run.2)
      = map (fun rule => expandPathIn env0 (Pattern rule)) (Rules config))
  /\ (Rules config = [] ->
      run.1 = inr (Exit 1)
      /\ exists pre, output run.2 = (pre ++ noMatchLines cwd)%list)
  /\ (forall envL file targetCmdPath e,
        (envL, file) ∈ lookups (output run.2) ->
        LookPath h envL file = (targetCmdPath, Some e) ->
        run.1 = inr (Exit 1)
        /\ (exists pre, output run.2 = (pre ++ [notFoundLine file e])%list)
        /\ lookups (output run.2) = [(envL, file)]).
Proof.
  intros run expandedCwd.
  assert (Hno : Forall (fun rule => ruleMatches env0 expandedCwd (expandedCwd ++ "/") rule
                                    = Some false) (Rules config) ->
                run.1 = inr (Exit 1)
                /\ (exists pre, output run.2 = (pre ++ noMatchLines cwd)%list)
                /\ lookups (output run.2) = []
                /\ compiled (output run.2)
                   = map (fun rule => expandPathIn env0 (Pattern rule)) (Rules config)).
  { intros Hall. unfold run. rewrite runWrapper_unfold. fold config cwd.
    simpl environ. fold expandedCwd.
    rewrite rangeRules_no_match by exact Hall. simpl environ.
    repeat split.
    - eexists. reflexivity.
    - simpl. rewrite !lookups_app, lookups_debugLine, lookups_calls. reflexivity.
    - simpl. rewrite !compiled_app, compiled_debugLine, compiled_calls. simpl.
      apply app_nil_r. }
  split; [exact Hno|]. split.
  - intros Hnil. destruct Hno as (H1 & H2 & _); [rewrite Hnil; constructor|].
    now split.
  - intros envL file targetCmdPath e Hin HL.
    destruct (runWrapper_lookup h env0 envL file Hin)
      as (k & rule & arg0 & args & _ & _ & _ & _ & Hrun).
    cbv zeta in Hrun. destruct Hrun as (Henv & _ & Hone & _ & Hout).
    rewrite <- Henv, HL in Hout. destruct Hout as [Hexit Hline].
    repeat split; assumption.
Qed.

End Failures.

(** Without rules, and with a rule for another directory, the wrapper
    exits with status 1 and the [add-rule] hint; for a command that is not
    installed it exits with status 1 and names the command. *)
Lemma failures_exit_nonzero_witness :
  (Rules (loadConfig hostNoRules) = []
   /\ (runWrapper hostNoRules (init envHome)).1 = inr (Exit 1)
   /\ exists pre,
        output (runWrapper hostNoRules (init envHome)).2
        = (pre ++ noMatchLines "/work/proj")%list)
  /\ (Forall (fun rule => ruleMatches envHome "/srv/data" "/srv/data/" rule = Some false)
        (Rules (loadConfig hostElsewhere))
      /\ (runWrapper hostElsewhere (init envHome)).1 = inr (Exit 1)
      /\ lookups (output (runWrapper hostElsewhere (init envHome)).2) = [])
  /\ ((envAtLookup, "gh") ∈ lookups (output (runWrapper hostNoTarget (init envHome)).2)
      /\ LookPath hostNoTarget envAtLookup "gh"
         = ("", Some "exec: executable file not found in $PATH")
      /\ (runWrapper hostNoTarget (init envHome)).1 = inr (Exit 1)
      /\ exists pre,
           output (runWrapper hostNoTarget (init envHome)).2
           = (pre ++ [notFoundLine "gh" "exec: executable file not found in $PATH"])%list).
Proof.
  split; [|split].
  - split; [reflexivity|].
    exact (proj1 (proj2 (failures_exit_nonzero hostNoRules envHome)) eq_refl).
  - assert (Hall : Forall (fun rule => ruleMatches envHome "/srv/data" "/srv/data/" rule
                                       = Some false)
                     (Rules (loadConfig hostElsewhere)))
      by (repeat constructor).
    split; [exact Hall|].
    destruct (proj1 (failures_exit_nonzero hostElsewhere envHome) Hall)
      as (Hexit & _ & Hno & _).
    split; assumption.
  - assert (Hin : (envAtLookup, "gh")
                  ∈ lookups (output (runWrapper hostNoTarget (init envHome)).2))
      by (vm_compute; apply list_elem_of_here).
    assert (HL : LookPath hostNoTarget envAtLookup "gh"
                 = ("", Some "exec: executable file not found in $PATH"))
      by (vm_compute; reflexivity).
    split; [exact Hin|]. split; [exact HL|].
    destruct (proj2 (proj2 (failures_exit_nonzero hostNoTarget envHome))
                envAtLookup "gh" "" _ Hin HL) as (Hexit & Hline & _).
    split; assumption.
Defined.

Example failures_exit_nonzero_no_target :
  runWrapper hostNoTarget (init envHome)
  = (inr (Exit 1),
     {| environ := <["HOME" := "/home/work"]> envHome;
        debugMode := false;
        output := [ CallCompile "/work/**";
                    CallLookPath envAtLookup "gh";
                    notFoundLine "gh" "exec: executable file not found in $PATH" ] |}).
Proof. vm_compute. reflexivity. Qed.

(** C10.  The result of the rule loop is determined by the rules, the
    directory and the environment: two states with the same environment
    give the same result, whatever their [debugMode] and output; the loop
    leaves the environment as it was, so that running it again in the state
    it has left gives the same result once more. *)
Theorem matching_deterministic (cwd : string) (rules : list Rule) (st1 st2 : State) :
  environ st1 = environ st2 ->
  let run st :=
    rangeRules (expandPathIn (environ st) cwd)
               (expandPathIn (environ st) cwd ++ "/") rules st in
  (run st1).1 = (run st2).1
  /\ environ (run st1).2 = environ st1
  /\ (run (run st1).2).1 = (run st1).1.
Proof.
  intros Henv run. unfold run.
  pose proof (rangeRules_frame (expandPathIn (environ st1) cwd)
                (expandPathIn (environ st1) cwd ++ "/") rules st1) as [Hf _].
  split; [|split].
  - rewrite <- Henv. now apply rangeRules_result.
  - exact Hf.
  - rewrite Hf. apply rangeRules_result. exact Hf.
Qed.

Lemma matching_deterministic_witness :
  environ (init envHome)
  = environ {| environ := envHome; debugMode := true;
               output := [Write Stdout "earlier output"] |}
  /\ (rangeRules "/a/b/c" "/a/b/c/" rulesOverlap (init envHome)).1
     = (rangeRules "/a/b/c" "/a/b/c/" rulesOverlap
          {| environ := envHome; debugMode := true;
             output := [Write Stdout "earlier output"] |}).1.
Proof.
  split; [reflexivity|].
  exact (proj1 (matching_deterministic "/a/b/c" rulesOverlap (init envHome)
                  {| environ := envHome; debugMode := true;
                     output := [Write Stdout "earlier output"] |} eq_refl)).
Defined.

(** * Further properties of the program *)

(** ** Prefixes, byte by byte *)

Section PrefixFacts.

Implicit Types s t p : string.

Lemma HasPrefix_nil s : strings.HasPrefix s "" = true.
Proof. unfold strings.HasPrefix. now destruct s. Qed.

Lemma HasPrefix_nil_cons b p : strings.HasPrefix "" (String b p) = false.
Proof. reflexivity. Qed.

Lemma HasPrefix_cons a s b p :
  strings.HasPrefix (String a s) (String b p) = Ascii.eqb a b && strings.HasPrefix s p.
Proof.
  unfold strings.HasPrefix. simpl.
  destruct (Ascii.eqb a b), (Nat.leb (String.length p) (String.length s)); reflexivity.
Qed.

Lemma HasPrefix_app p s : strings.HasPrefix (p ++ s) p = true.
Proof.
  induction p as [|a p IH]; [apply HasPrefix_nil|].
  change (String a p ++ s) with (String a (p ++ s)).
  now rewrite HasPrefix_cons, Ascii.eqb_refl, IH.
Qed.

(** [d + "/"] begins with [t + "/"] when [d] is [t] or begins with
    [t + "/"]. *)
Lemma HasPrefix_slash t : forall d,
  strings.HasPrefix (d ++ "/") (t ++ "/")
  = String.eqb d t || strings.HasPrefix d (t ++ "/").
Proof.
  induction t as [|b t IH]; intros [|a d].
  - reflexivity.
  - change (String a d ++ "/") with (String a (d ++ "/")).
    change ("" ++ "/") with (String "/" "").
    now rewrite !HasPrefix_cons, !HasPrefix_nil.
  - change (String b t ++ "/") with (String b (t ++ "/")).
    change ("" ++ "/") with (String "/" "").
    rewrite HasPrefix_cons. destruct (t ++ "/") eqn:E.
    + destruct t; discriminate.
    + rewrite HasPrefix_nil_cons. now rewrite andb_false_r.
  - change (String b t ++ "/") with (String b (t ++ "/")).
    change (String a d ++ "/") with (String a (d ++ "/")).
    rewrite !HasPrefix_cons, IH. simpl String.eqb.
    destruct (Ascii.eqb a b); reflexivity.
Qed.

End PrefixFacts.

(** ** Globs of a literal text *)

Section LiteralGlobs.

Lemma plainText_app t u : plainText (t ++ u) = plainText t && plainText u.
Proof.
  induction t as [|c t IH]; [reflexivity|]. simpl. rewrite IH.
  now rewrite !andb_assoc.
Qed.

(** The lexer reads a plain text up to the first breaker. *)
Lemma fetchText_plain t rest :
  plainText t = true ->
  match rest with
  | String c _ => hasByte c glob.inTextBreakers = true
  | EmptyString => True
  end ->
  glob.fetchText glob.inTextBreakers false (t ++ rest) = (t, rest).
Proof.
  intros Ht Hrest. induction t as [|c t IH].
  - destruct rest as [|c r]; [reflexivity|]. simpl in *.
    rewrite Hrest.
    destruct (Ascii.eqb c glob.char_escape) eqn:E; [|reflexivity].
    apply Ascii.eqb_eq in E. subst c. discriminate.
  - cbn [plainText] in Ht. apply andb_true_iff in Ht as [Hc Ht].
    apply andb_true_iff in Hc as [Hb He].
    apply negb_true_iff in Hb, He.
    change (String c t ++ rest) with (String c (t ++ rest)).
    cbn [glob.fetchText]. rewrite He, Hb. cbn [negb andb]. now rewrite (IH Ht).
Qed.

(** A plain byte begins a text item. *)
Lemma lexLoop_text fuel c t rest :
  plainText (String c t) = true ->
  match rest with
  | String c' _ => hasByte c' glob.inTextBreakers = true
  | EmptyString => True
  end ->
  glob.lexLoop (S fuel) 0 (String c t ++ rest)
  = {| glob.TType := glob.Text; glob.Raw := String c t |} :: glob.lexLoop fuel 0 rest.
Proof.
  intros Ht Hrest.
  pose proof (fetchText_plain _ _ Ht Hrest) as Hf.
  cbn [plainText] in Ht. apply andb_true_iff in Ht as [Hc _].
  apply andb_true_iff in Hc as [Hb _]. apply negb_true_iff in Hb.
  assert (Hne : forall x, hasByte x glob.inTextBreakers = true -> Ascii.eqb c x = false).
  { intros x Hx. destruct (Ascii.eqb_spec c x) as [->|]; [congruence | reflexivity]. }
  change (String c t ++ rest) with (String c (t ++ rest)) in *.
  cbn [glob.lexLoop].
  rewrite (Hne glob.char_terms_open), (Hne glob.char_range_open),
    (Hne glob.char_single), (Hne glob.char_any) by reflexivity.
  change (Nat.ltb 0 0) with false. rewrite !andb_false_r.
  cbv beta iota zeta. rewrite Hf. reflexivity.
Qed.

(** A plain text followed by [**] compiles to the text and a super
    wildcard. *)
Lemma Compile_text_super t separators :
  plainText t = true -> t <> "" ->
  glob.Compile (t ++ "**") separators
  = inl {| glob.nodes := [glob.KindText t; glob.KindSuper];
           glob.separators := separators |}.
Proof.
  intros Ht Hne. destruct t as [|c t]; [congruence|].
  unfold glob.Compile, glob.lex.
  rewrite lexLoop_text by (try assumption; reflexivity).
  rewrite slen_app. replace (String.length (String c t) + String.length "**")
    with (S (S (S (String.length t)))) by (simpl; lia).
  reflexivity.
Qed.

(** A plain text compiles to itself. *)
Lemma Compile_text t separators :
  plainText t = true -> t <> "" ->
  glob.Compile t separators
  = inl {| glob.nodes := [glob.KindText t]; glob.separators := separators |}.
Proof.
  intros Ht Hne. destruct t as [|c t]; [congruence|].
  assert (Hlex : glob.lex (String c t)
                 = [ {| glob.TType := glob.Text; glob.Raw := String c t |};
                     {| glob.TType := glob.EOF; glob.Raw := "" |} ]).
  { unfold glob.lex. rewrite <- (sapp_nil_r (String c t)) at 2.
    rewrite lexLoop_text by (try assumption; exact I).
    now destruct (String.length (String c t)). }
  unfold glob.Compile. now rewrite Hlex.
Qed.

Lemma Match_text (text seps s : string) :
  glob.Match {| glob.nodes := [glob.KindText text]; glob.separators := seps |} s
  = String.eqb s text.
Proof.
  unfold glob.Match. simpl.
  destruct (strings.HasPrefix s text) eqn:E.
  - apply HasPrefix_inv in E. simpl.
    destruct (String.eqb_spec (sdrop (String.length text) s) "") as [H0|H0].
    + rewrite H0, sapp_nil_r in E. subst s. symmetry. apply String.eqb_refl.
    + symmetry. apply String.eqb_neq. intros ->.
      apply H0. rewrite <- (sapp_nil_r text) at 2. apply sdrop_app.
  - simpl. symmetry. apply String.eqb_neq. intros ->.
    rewrite <- (sapp_nil_r text) in E at 1. now rewrite HasPrefix_app in E.
Qed.

End LiteralGlobs.

(** ** The rules a directory falls under *)

(** X1.  A rule whose expanded pattern is a plain path [t] followed by
    [/**] matches the directory [t] and every path that begins with
    [t/], and nothing else: a directory that only shares a prefix of its
    name with [t] is not matched. *)
Theorem subtree_rule_matches (env : gmap string string) (rule : Rule) (t d : string) :
  plainText t = true ->
  expandPathIn env (Pattern rule) = t ++ "/**" ->
  ruleMatches env d (d ++ "/") rule
  = Some (String.eqb d t || strings.HasPrefix d (t ++ "/")).
Proof.
  intros Ht Hp. unfold ruleMatches. rewrite Hp.
  replace (t ++ "/**") with ((t ++ "/") ++ "**") by (now rewrite sapp_assoc).
  rewrite Compile_text_super.
  - rewrite !Match_text_super, HasPrefix_slash. f_equal.
    destruct (String.eqb d t), (strings.HasPrefix d (t ++ "/")); reflexivity.
  - rewrite plainText_app, Ht. reflexivity.
  - destruct t; discriminate.
Qed.

(** The rule [~/work/client-a/**] of the readme, for the user whose home
    is [/home/u], in a directory below and in a sibling directory. *)
Lemma subtree_rule_matches_witness :
  plainText "/home/u/work/client-a" = true
  /\ expandPathIn envHome "~/work/client-a/**" = "/home/u/work/client-a" ++ "/**"
  /\ ruleMatches envHome "/home/u/work/client-a/src" ("/home/u/work/client-a/src" ++ "/")
       {| Pattern := "~/work/client-a/**"; Home := "~/work/client-a" |}
     = Some true
  /\ ruleMatches envHome "/home/u/work/client-abc" ("/home/u/work/client-abc" ++ "/")
       {| Pattern := "~/work/client-a/**"; Home := "~/work/client-a" |}
     = Some false.
Proof.
  split; [reflexivity|]. split; [reflexivity|]. split.
  - exact (subtree_rule_matches envHome
             {| Pattern := "~/work/client-a/**"; Home := "~/work/client-a" |}
             "/home/u/work/client-a" "/home/u/work/client-a/src" eq_refl eq_refl).
  - exact (subtree_rule_matches envHome
             {| Pattern := "~/work/client-a/**"; Home := "~/work/client-a" |}
             "/home/u/work/client-a" "/home/u/work/client-abc" eq_refl eq_refl).
Defined.

(** X2.  A rule whose expanded pattern is a plain path, without a
    wildcard, matches that one directory only (written with or without
    the separator at its end), and no directory below it. *)
Theorem literal_rule_matches_one_directory
    (env : gmap string string) (rule : Rule) (t d : string) :
  plainText t = true ->
  expandPathIn env (Pattern rule) = t ->
  ruleMatches env d (d ++ "/") rule
  = Some (String.eqb d t || String.eqb (d ++ "/") t).
Proof.
  intros Ht Hp. unfold ruleMatches. rewrite Hp.
  destruct (String.eqb_spec t "") as [->|Hne]; [reflexivity|].
  rewrite Compile_text by assumption. now rewrite !Match_text.
Qed.

Lemma literal_rule_matches_one_directory_witness :
  plainText "/home/u/work" = true
  /\ expandPathIn envHome "~/work" = "/home/u/work"
  /\ ruleMatches envHome "/home/u/work" ("/home/u/work" ++ "/")
       {| Pattern := "~/work"; Home := "~/work" |} = Some true
  /\ ruleMatches envHome "/home/u/work/src" ("/home/u/work/src" ++ "/")
       {| Pattern := "~/work"; Home := "~/work" |} = Some false.
Proof.
  split; [reflexivity|]. split; [reflexivity|]. split.
  - exact (literal_rule_matches_one_directory envHome
             {| Pattern := "~/work"; Home := "~/work" |}
             "/home/u/work" "/home/u/work" eq_refl eq_refl).
  - exact (literal_rule_matches_one_directory envHome
             {| Pattern := "~/work"; Home := "~/work" |}
             "/home/u/work" "/home/u/work/src" eq_refl eq_refl).
Defined.

(** X3.  Rules put behind the rules of the list, as [runAddRule] puts
    the new rule, change nothing for a directory that a rule of the list
    matches: the loop returns the same home and leaves the same state.
    They are examined, in the state the list has left, for the
    directories that no rule of the list matches. *)
Theorem appended_rules_come_last (c cs : string) (rules extra : list Rule) :
  forall (st : State) (newHome : string) (matched : bool),
  (rangeRules c cs rules st).1 = inl (newHome, matched) ->
  rangeRules c cs (rules ++ extra) st
  = if matched then rangeRules c cs rules st
    else rangeRules c cs extra (rangeRules c cs rules st).2.
Proof.
  induction rules as [|r0 rest IH]; intros st newHome matched H.
  - injection H as <- <-. reflexivity.
  - simpl app. destruct (ruleMatches (environ st) c cs r0) as [[|]|] eqn:E.
    + rewrite rangeRules_hit in H by assumption. injection H as <- <-.
      now rewrite !rangeRules_hit.
    + rewrite !rangeRules_skip by assumption.
      rewrite rangeRules_skip in H by assumption. now apply (IH _ newHome).
    + rewrite rangeRules_nil_glob in H by assumption. discriminate.
Qed.

(** In [/a/b/c] the rule [/a/**] keeps its home when [/a/b/**] is put
    behind it; in [/srv] it does not match and the rule put behind it is
    examined. *)
Lemma appended_rules_come_last_witness :
  (rangeRules "/a/b/c" "/a/b/c/"
     [{| Pattern := "/a/**"; Home := "/home/first" |}] (init envHome)).1
  = inl ("/home/first", true)
  /\ rangeRules "/a/b/c" "/a/b/c/"
       ([{| Pattern := "/a/**"; Home := "/home/first" |}]
        ++ [{| Pattern := "/a/b/**"; Home := "/home/second" |}]) (init envHome)
     = rangeRules "/a/b/c" "/a/b/c/"
         [{| Pattern := "/a/**"; Home := "/home/first" |}] (init envHome).
Proof.
  split; [reflexivity|].
  exact (appended_rules_come_last "/a/b/c" "/a/b/c/"
           [{| Pattern := "/a/**"; Home := "/home/first" |}]
           [{| Pattern := "/a/b/**"; Home := "/home/second" |}]
           (init envHome) "/home/first" true eq_refl).
Defined.

(** ** The safe path, entry by entry *)

Section PathEntries.

Implicit Types s t e old : string.

Lemma stake_app_plus p s n : stake (String.length p + n) (p ++ s) = p ++ stake n s.
Proof. induction p as [|a p IH]; simpl; [reflexivity | now rewrite IH]. Qed.

Lemma sdrop_app_plus p s n : sdrop (String.length p + n) (p ++ s) = sdrop n s.
Proof. induction p as [|a p IH]; simpl; [reflexivity | exact IH]. Qed.

Lemma Index_cons a s old :
  strings.Index (String a s) old
  = if strings.HasPrefix (String a s) old then Some 0 else S <$> strings.Index s old.
Proof. reflexivity. Qed.

Lemma Index_HasPrefix s old :
  strings.HasPrefix s old = true -> strings.Index s old = Some 0.
Proof. intros H. destruct s; cbn [strings.Index]; now rewrite H. Qed.

(** An occurrence of [old] has the bytes of [old]. *)
Lemma Index_hasByte c s old j :
  strings.Index s old = Some j -> hasByte c old = true -> hasByte c s = true.
Proof.
  intros [_ Hs]%Index_Some Hc. rewrite Hs, !hasByte_app, Hc.
  now rewrite orb_true_r.
Qed.

(** Two entries in front of a colon: the one begins with the other when
    they are equal. *)
Lemma HasPrefix_entry x : forall y rest,
  hasByte ":" x = false -> hasByte ":" y = false ->
  strings.HasPrefix (x ++ ":" ++ rest) (y ++ ":") = String.eqb x y.
Proof.
  induction x as [|a x IH]; intros [|b y] rest Hx Hy.
  - change ("" ++ ":" ++ rest) with (String ":" rest).
    change ("" ++ ":") with (String ":" "").
    now rewrite HasPrefix_cons, HasPrefix_nil.
  - change ("" ++ ":" ++ rest) with (String ":" rest).
    change (String b y ++ ":") with (String b (y ++ ":")).
    rewrite HasPrefix_cons. simpl in Hy.
    destruct (Ascii.eqb_spec b ":") as [->|Hb]; [discriminate|].
    destruct (Ascii.eqb_spec ":" b) as [<-|]; [congruence | reflexivity].
  - change (String a x ++ ":" ++ rest) with (String a (x ++ ":" ++ rest)).
    change ("" ++ ":") with (String ":" "").
    rewrite HasPrefix_cons. simpl in Hx.
    destruct (Ascii.eqb a ":"); [discriminate | reflexivity].
  - change (String a x ++ ":" ++ rest) with (String a (x ++ ":" ++ rest)).
    change (String b y ++ ":") with (String b (y ++ ":")).
    rewrite HasPrefix_cons. simpl in Hx, Hy.
    destruct (Ascii.eqb a ":"); [discriminate|].
    destruct (Ascii.eqb b ":"); [discriminate|].
    rewrite IH by assumption. reflexivity.
Qed.

(** No occurrence of [wd:] begins in an entry that does not end with
    [wd]. *)
Lemma Index_entry wd e : forall rest,
  hasByte ":" e = false -> hasByte ":" wd = false ->
  (forall e1 e2, e = e1 ++ e2 -> e2 <> wd) ->
  strings.Index (e ++ ":" ++ rest) (wd ++ ":")
  = (fun j => String.length e + 1 + j) <$> strings.Index rest (wd ++ ":").
Proof.
  induction e as [|a e IH]; intros rest He Hwd Hsuf.
  - change ("" ++ ":" ++ rest) with (String ":" rest). rewrite Index_cons.
    change (String ":" rest) with ("" ++ ":" ++ rest).
    rewrite HasPrefix_entry by assumption.
    assert (Hne : "" <> wd) by (apply (Hsuf "" ""); reflexivity).
    apply String.eqb_neq in Hne. rewrite Hne.
    now destruct (strings.Index rest (wd ++ ":")).
  - change (String a e ++ ":" ++ rest) with (String a (e ++ ":" ++ rest)).
    rewrite Index_cons.
    change (String a (e ++ ":" ++ rest)) with (String a e ++ ":" ++ rest).
    rewrite HasPrefix_entry by assumption.
    assert (Hne : String a e <> wd) by (apply (Hsuf "" (String a e)); reflexivity).
    apply String.eqb_neq in Hne. rewrite Hne.
    rewrite IH; [now destruct (strings.Index rest (wd ++ ":")) | | assumption |].
    + simpl in He. now destruct (Ascii.eqb a ":").
    + intros e1 e2 ->. apply (Hsuf (String a e1) e2). reflexivity.
Qed.

(** Such an entry and its colon stay in the safe path. *)
Lemma ReplaceAll_entry wd e rest :
  hasByte ":" e = false -> hasByte ":" wd = false ->
  (forall e1 e2, e = e1 ++ e2 -> e2 <> wd) ->
  strings.ReplaceAll (e ++ ":" ++ rest) (wd ++ ":") ""
  = e ++ ":" ++ strings.ReplaceAll rest (wd ++ ":") "".
Proof.
  intros He Hwd Hsuf.
  assert (Hold : wd ++ ":" <> "") by (destruct wd; discriminate).
  pose proof (Index_entry wd e rest He Hwd Hsuf) as Hi.
  destruct (strings.Index rest (wd ++ ":")) as [j|] eqn:Ej.
  - change (strings.Index (e ++ ":" ++ rest) (wd ++ ":")
            = Some (String.length e + 1 + j)) in Hi.
    rewrite (ReplaceAll_first _ _ _ _ Hold Hold Hi).
    rewrite (ReplaceAll_first _ _ _ _ Hold Hold Ej).
    change ("" ++ ?x) with x.
    replace (e ++ ":" ++ rest) with ((e ++ ":") ++ rest) by apply sapp_assoc.
    replace (String.length e + 1) with (String.length (e ++ ":"))
      by (rewrite slen_app; reflexivity).
    rewrite stake_app_plus, <- Nat.add_assoc, sdrop_app_plus.
    now rewrite !sapp_assoc.
  - now rewrite !ReplaceAll_absent.
Qed.

Lemma Join_cons e (rest : list string) sep :
  rest <> [] -> strings.Join (e :: rest) sep = e ++ sep ++ strings.Join rest sep.
Proof. destruct rest; [congruence | reflexivity]. Qed.

End PathEntries.

(** Where the entries before the last have no colon and are the wrapper
    directory or do not end with it, [strings.ReplaceAll] takes out the
    entries equal to the wrapper directory. *)
Lemma safePathOf_entries (wrapperDir last : string) (entries : list string) :
  hasByte ":" wrapperDir = false ->
  hasByte ":" last = false ->
  Forall (fun e => hasByte ":" e = false
                   /\ (e = wrapperDir \/ strings.HasSuffix e wrapperDir = false)) entries ->
  safePathOf (strings.Join (entries ++ [last]) ":") wrapperDir
  = strings.Join (filter (fun e => e <> wrapperDir) entries ++ [last]) ":".
Proof.
  intros Hwd Hlast Hall. unfold safePathOf.
  assert (Hold : wrapperDir ++ ":" <> "") by (destruct wrapperDir; discriminate).
  induction Hall as [|e entries [He Hcase] Hall IH].
  - simpl. apply ReplaceAll_absent.
    destruct (strings.Index last (wrapperDir ++ ":")) as [j|] eqn:Ej; [|reflexivity].
    apply (Index_hasByte ":") in Ej; [congruence|].
    rewrite hasByte_app. now rewrite orb_true_r.
  - change ((e :: entries) ++ [last])%list with (e :: (entries ++ [last]))%list.
    rewrite Join_cons by (now destruct entries).
    destruct (decide (e = wrapperDir)) as [->|Hne].
    + rewrite filter_cons_False by (intros H; now apply H).
      assert (Hi : strings.Index (wrapperDir ++ ":" ++ strings.Join (entries ++ [last]) ":")
                     (wrapperDir ++ ":") = Some 0).
      { replace (wrapperDir ++ ":" ++ strings.Join (entries ++ [last]) ":")
          with ((wrapperDir ++ ":") ++ strings.Join (entries ++ [last]) ":")
          by apply sapp_assoc.
        apply Index_HasPrefix, HasPrefix_app. }
      rewrite (ReplaceAll_first _ _ _ _ Hold Hold Hi).
      change (stake 0 ?x ++ "" ++ ?y) with y. change (0 + ?n) with n.
      replace (wrapperDir ++ ":" ++ strings.Join (entries ++ [last]) ":")
        with ((wrapperDir ++ ":") ++ strings.Join (entries ++ [last]) ":")
        by apply sapp_assoc.
      rewrite sdrop_app. exact IH.
    + rewrite filter_cons_True by assumption.
      change ((e :: filter (fun e0 => e0 <> wrapperDir) entries) ++ [last])%list
        with (e :: (filter (fun e0 => e0 <> wrapperDir) entries ++ [last]))%list.
      rewrite Join_cons by (now destruct (filter _ entries)).
      rewrite ReplaceAll_entry, IH; try assumption; [reflexivity|].
      intros e1 e2 -> ->. destruct Hcase as [Heq|Hsuf].
      * apply Hne. exact Heq.
      * now rewrite HasSuffix_app in Hsuf.
Qed.

(** X4.  In a process started with a [PATH] without NUL byte, written as
    the entries [entries] and the last entry [last] joined with colons:
    when the wrapper directory, as computed for the first rule that
    matches, and [last] have no colon, and every entry of [entries] has no
    colon and is the wrapper directory or does not end with it, the [PATH]
    under which [exec.LookPath] is called is the original one without the
    entries of [entries] equal to the wrapper directory, in the same
    order.  The last entry has no colon behind it and stays, whatever it
    is. *)
Theorem safe_path_drops_entries (h : Host) (env0 envL : gmap string string)
    (file last : string) (entries : list string) :
  (envL, file) ∈ lookups (output (runWrapper h (init env0)).2) ->
  os.Getenv env0 "PATH" = strings.Join (entries ++ [last]) ":" ->
  hasByte Ascii.zero (os.Getenv env0 "PATH") = false ->
  exists k rule,
    firstMatch h env0 k rule
    /\ let wrapperDir :=
         getWrapperDirIn (os.Setenv "HOME" (expandPathIn env0 (Home rule)) env0) in
       hasByte ":" wrapperDir = false ->
       hasByte ":" last = false ->
       Forall (fun e => hasByte ":" e = false
                        /\ (e = wrapperDir \/ strings.HasSuffix e wrapperDir = false))
         entries ->
       envL !! "PATH"
       = Some (strings.Join (filter (fun e => e <> wrapperDir) entries ++ [last]) ":").
Proof.
  intros Hin Hpath Hnul.
  destruct (runWrapper_lookup h env0 envL file Hin)
    as (k & rule & arg0 & args & Hk & Hm & Hbefore & HArgs & Hrun).
  cbv zeta in Hrun. destruct Hrun as (-> & _).
  exists k, rule. split; [repeat split; assumption|]. cbv zeta.
  intros Hwd Hlast Hall.
  rewrite Setenv_PATH by now apply safePathOf_hasByte.
  rewrite lookup_insert_eq, Hpath. f_equal.
  now apply safePathOf_entries.
Qed.

(** The wrapper directory twice among the entries, and once more as the
    last entry. *)
Lemma safe_path_drops_entries_witness :
  (<["PATH" := "/usr/bin:/bin:/home/u/.local/bin/multiprof"]> envWrapperThrice, "aws")
    ∈ lookups (output (runWrapper hostSameHome (init envWrapperThrice)).2)
  /\ os.Getenv envWrapperThrice "PATH"
     = strings.Join
         (["/home/u/.local/bin/multiprof"; "/usr/bin"; "/home/u/.local/bin/multiprof"; "/bin"]
          ++ ["/home/u/.local/bin/multiprof"]) ":"
  /\ hasByte Ascii.zero (os.Getenv envWrapperThrice "PATH") = false
  /\ getWrapperDirIn
       (os.Setenv "HOME" (expandPathIn envWrapperThrice "~") envWrapperThrice)
     = "/home/u/.local/bin/multiprof"
  /\ (<["PATH" := "/usr/bin:/bin:/home/u/.local/bin/multiprof"]> envWrapperThrice) !! "PATH"
     = Some (strings.Join (["/usr/bin"; "/bin"] ++ ["/home/u/.local/bin/multiprof"]) ":").
Proof.
  assert (Hin : (<["PATH" := "/usr/bin:/bin:/home/u/.local/bin/multiprof"]> envWrapperThrice,
                 "aws")
                ∈ lookups (output (runWrapper hostSameHome (init envWrapperThrice)).2))
    by (vm_compute; apply list_elem_of_here).
  split; [exact Hin|]. split; [reflexivity|]. split; [reflexivity|].
  split; [vm_compute; reflexivity|].
  destruct (safe_path_drops_entries hostSameHome envWrapperThrice _ _
              "/home/u/.local/bin/multiprof"
              ["/home/u/.local/bin/multiprof"; "/usr/bin";
               "/home/u/.local/bin/multiprof"; "/bin"] Hin eq_refl eq_refl)
    as (k & rule & Hfirst & Hpath).
  assert (Hk : k = 0).
  { destruct Hfirst as (Hk & _). apply lookup_lt_Some in Hk. simpl in Hk. lia. }
  subst k. destruct Hfirst as (Hk & _). injection Hk as <-.
  cbv zeta in Hpath.
  change (getWrapperDirIn _) with "/home/u/.local/bin/multiprof" in Hpath.
  apply Hpath; [reflexivity | reflexivity |].
  repeat constructor; (now left) || (now right).
Defined.

Example safe_path_drops_entries_thrice :
  lookups (output (runWrapper hostSameHome (init envWrapperThrice)).2)
  = [(<["PATH" := "/usr/bin:/bin:/home/u/.local/bin/multiprof"]> envWrapperThrice, "aws")].
Proof. vm_compute. reflexivity. Qed.

(** ** The last element of a joined path *)

Section LastElement.

Lemma cleanLoop_cons rooted inElem c r out dotdot :
  filepath.cleanLoop rooted inElem (String c r) out dotdot
  = let element (_ : unit) :=
      let out1 :=
        if (rooted && negb (Nat.eqb (length out) 1))
           || (negb rooted && negb (Nat.eqb (length out) 0))
        then filepath.Separator :: out else out in
      filepath.cleanLoop rooted true r (c :: out1) dotdot in
    if filepath.IsPathSeparator c then filepath.cleanLoop rooted false r out dotdot
    else if inElem then filepath.cleanLoop rooted true r (c :: out) dotdot
    else if Ascii.eqb c "." && filepath.elemEnd r then
      filepath.cleanLoop rooted false r out dotdot
    else
      match r with
      | String c2 r2 =>
          if Ascii.eqb c "." && Ascii.eqb c2 "." && filepath.elemEnd r2 then
            if Nat.ltb dotdot (length out) then
              filepath.cleanLoop rooted false r2 (filepath.backtrack dotdot out) dotdot
            else if negb rooted then
              let out1 := if Nat.ltb 0 (length out) then filepath.Separator :: out else out in
              let out2 := "."%char :: "."%char :: out1 in
              filepath.cleanLoop rooted false r2 out2 (length out2)
            else filepath.cleanLoop rooted false r2 out dotdot
          else element tt
      | EmptyString => element tt
      end.
Proof. reflexivity. Qed.

Lemma last_cons_keep (x c : ascii) (out : list ascii) :
  last out = Some x -> last (c :: out) = Some x.
Proof. destruct out; [discriminate | trivial]. Qed.

Lemma backtrackLoop_last (x : ascii) (out : list ascii) : forall c,
  last out = Some x -> last (filepath.backtrackLoop 1 c out) = Some x.
Proof.
  induction out as [|c' out IH]; intros c H; [discriminate|].
  cbn [filepath.backtrackLoop].
  destruct (Nat.ltb 1 (length (c' :: out)) && negb (filepath.IsPathSeparator c)) eqn:E;
    [|exact H].
  apply andb_true_iff in E as [E _]. apply Nat.ltb_lt in E.
  apply IH. destruct out; [simpl in E; lia | exact H].
Qed.

Lemma backtrack_last (x : ascii) (out : list ascii) :
  Nat.ltb 1 (length out) = true -> last out = Some x ->
  last (filepath.backtrack 1 out) = Some x.
Proof.
  intros E H. apply Nat.ltb_lt in E.
  destruct out as [|c out]; [discriminate|]. simpl.
  apply backtrackLoop_last. destruct out; [simpl in E; lia | exact H].
Qed.

(** Whatever comes in front of a separator, [Clean] arrives behind that
    separator at the beginning of an element. *)
Lemma cleanLoop_to_separator (n : nat) : forall x,
  String.length x <= n ->
  forall rooted inElem out dotdot rest,
  keepsRoot rooted out dotdot ->
  exists out' dotdot',
    keepsRoot rooted out' dotdot'
    /\ filepath.cleanLoop rooted inElem (x ++ String "/" rest) out dotdot
       = filepath.cleanLoop rooted false rest out' dotdot'.
Proof.
  induction n as [|n IH]; intros x Hlen rooted inElem out dotdot rest Hinv.
  - destruct x; [|simpl in Hlen; lia]. exists out, dotdot. now split.
  - destruct x as [|c x]; [exists out, dotdot; now split|].
    simpl in Hlen. apply le_S_n in Hlen.
    assert (Hcons : forall c', keepsRoot rooted (c' :: out) dotdot).
    { intros c' Hr. destruct (Hinv Hr) as [Hd Hl]. split; [exact Hd|].
      now apply last_cons_keep. }
    assert (Helem : exists out' dotdot',
               keepsRoot rooted out' dotdot'
               /\ filepath.cleanLoop rooted true (x ++ String "/" rest)
                    (c :: (if (rooted && negb (Nat.eqb (length out) 1))
                              || (negb rooted && negb (Nat.eqb (length out) 0))
                           then filepath.Separator :: out else out)) dotdot
                  = filepath.cleanLoop rooted false rest out' dotdot').
    { apply IH; [exact Hlen|]. intros Hr. destruct (Hinv Hr) as [Hd Hl].
      split; [exact Hd|]. apply last_cons_keep.
      destruct (_ || _); [now apply last_cons_keep | exact Hl]. }
    change (String c x ++ String "/" rest) with (String c (x ++ String "/" rest)).
    rewrite cleanLoop_cons. cbv zeta.
    destruct (filepath.IsPathSeparator c); [now apply IH|].
    destruct inElem; [apply IH; [exact Hlen | apply Hcons]|].
    destruct (Ascii.eqb c "." && filepath.elemEnd (x ++ String "/" rest));
      [now apply IH|].
    destruct x as [|c2 x].
    { change ("" ++ String "/" rest) with (String "/" rest) in *. cbv iota.
      change (Ascii.eqb "/" ".") with false. rewrite andb_false_r.
      cbn [andb]. exact Helem. }
    change (String c2 x ++ String "/" rest) with (String c2 (x ++ String "/" rest)) in *.
    cbv iota.
    destruct (Ascii.eqb c "." && Ascii.eqb c2 "." && filepath.elemEnd (x ++ String "/" rest));
      [|exact Helem].
    assert (Hlen2 : String.length x <= n) by (simpl in Hlen; lia).
    destruct (Nat.ltb dotdot (length out)) eqn:Elt.
    + apply IH; [exact Hlen2|]. intros Hr. destruct (Hinv Hr) as [Hd Hl].
      split; [exact Hd|]. subst dotdot. now apply backtrack_last.
    + destruct rooted; simpl negb; cbv iota.
      * now apply IH.
      * apply IH; [exact Hlen2 | intros [=]].
Qed.

(** A normal element at the end of the path is copied behind a
    separator. *)
Lemma cleanLoop_last_elem rooted e out dotdot :
  normalElem e = true ->
  filepath.cleanLoop rooted false e out dotdot
  = (rev (list_ascii_of_string e) ++ separated rooted out)%list.
Proof.
  unfold normalElem. intros Hn.
  apply andb_true_iff in Hn as [Hn Hdd]. apply andb_true_iff in Hn as [Hn Hd].
  apply andb_true_iff in Hn as [Hne Hs].
  apply negb_true_iff in Hne, Hs, Hd, Hdd.
  destruct e as [|a e]; [discriminate|].
  pose proof Hs as Hs'. simpl in Hs'.
  destruct (Ascii.eqb a "/") eqn:Ea; [discriminate|].
  assert (Hgo : filepath.cleanLoop rooted false (String a e) out dotdot
                = filepath.cleanLoop rooted true e (a :: separated rooted out) dotdot).
  { rewrite cleanLoop_cons. cbv zeta.
    unfold filepath.IsPathSeparator, filepath.Separator. rewrite Ea.
    fold (separated rooted out).
    destruct (Ascii.eqb_spec a ".") as [->|Hdot].
    - destruct e as [|b e]; [discriminate|].
      simpl in Hs'. destruct (Ascii.eqb b "/") eqn:Eb; [discriminate|].
      simpl filepath.elemEnd. unfold filepath.IsPathSeparator, filepath.Separator.
      rewrite Eb. simpl andb. cbv iota.
      destruct (Ascii.eqb_spec b ".") as [->|Hb]; [|reflexivity].
      destruct e as [|d e]; [discriminate|].
      simpl in Hs'. destruct (Ascii.eqb d "/") eqn:Ed; [discriminate|].
      simpl filepath.elemEnd. unfold filepath.IsPathSeparator, filepath.Separator.
      rewrite Ed. reflexivity.
    - simpl andb. cbv iota. now destruct e. }
  rewrite Hgo. rewrite <- (sapp_nil_r e) at 1.
  rewrite cleanLoop_copy by assumption. simpl. now rewrite <- app_assoc.
Qed.

Lemma hasByte_In (c : ascii) (s : string) :
  hasByte c s = false -> ~ In c (list_ascii_of_string s).
Proof.
  induction s as [|a s IH]; simpl; [tauto|].
  destruct (Ascii.eqb_spec a c) as [->|Hne]; [discriminate|].
  intros H [Ha|Hin]; [congruence | now apply IH].
Qed.

Lemma lastElem_rev_elem e : forall acc rest,
  hasByte "/" e = false ->
  filepath.lastElem (rev (list_ascii_of_string e) ++ rest) acc
  = filepath.lastElem rest (e ++ acc).
Proof.
  induction e as [|a e IH]; intros acc rest H; [reflexivity|].
  simpl in H. destruct (Ascii.eqb a "/") eqn:Ea; [discriminate|].
  simpl. rewrite <- app_assoc. rewrite IH by assumption. simpl.
  unfold filepath.IsPathSeparator, filepath.Separator. now rewrite Ea.
Qed.

Lemma stripSeps_rev_elem e rest :
  e <> "" -> hasByte "/" e = false ->
  filepath.stripSeps (rev (list_ascii_of_string e) ++ rest)
  = (rev (list_ascii_of_string e) ++ rest)%list.
Proof.
  intros Hne H. pose proof (hasByte_In _ _ H) as Hin.
  destruct (rev (list_ascii_of_string e)) as [|c l] eqn:E.
  - apply (f_equal (@length ascii)) in E. rewrite length_rev in E.
    destruct e; [congruence | discriminate].
  - simpl. unfold filepath.IsPathSeparator, filepath.Separator.
    destruct (Ascii.eqb_spec c "/") as [->|]; [|reflexivity].
    exfalso. apply Hin. apply in_rev. rewrite E. now left.
Qed.

(** The base of a path whose buffer ends with a normal element behind a
    separator, or with that element alone. *)
Lemma Base_of_buffer e (out : list ascii) :
  normalElem e = true ->
  match out with [] => True | c :: _ => c = filepath.Separator end ->
  filepath.Base (string_of_list_ascii (rev (rev (list_ascii_of_string e) ++ out))) = e.
Proof.
  unfold normalElem. intros Hn Hout.
  apply andb_true_iff in Hn as [Hn _]. apply andb_true_iff in Hn as [Hn _].
  apply andb_true_iff in Hn as [Hne Hs]. apply negb_true_iff in Hne, Hs.
  apply String.eqb_neq in Hne.
  assert (Hpath : String.eqb (string_of_list_ascii
                                (rev (rev (list_ascii_of_string e) ++ out))) "" = false).
  { destruct (rev (rev (list_ascii_of_string e) ++ out)) as [|c l] eqn:E; [|reflexivity].
    apply (f_equal (@length ascii)) in E.
    rewrite length_rev, length_app, length_rev in E.
    destruct e; [congruence | discriminate]. }
  unfold filepath.Base. rewrite Hpath.
  rewrite list_ascii_of_string_of_list_ascii, rev_involutive.
  rewrite stripSeps_rev_elem, lastElem_rev_elem, sapp_nil_r by assumption.
  assert (Hlast : filepath.lastElem out e = e).
  { destruct out as [|c out]; [reflexivity|]. subst c. reflexivity. }
  rewrite Hlast. apply String.eqb_neq in Hne. now rewrite Hne.
Qed.

(** What [separated] puts at the head of the buffer. *)
Lemma separated_head rooted out dotdot :
  keepsRoot rooted out dotdot ->
  match separated rooted out with [] => True | c :: _ => c = filepath.Separator end.
Proof.
  intros Hinv. unfold separated. destruct rooted; simpl.
  - destruct (Hinv eq_refl) as [_ Hl].
    destruct out as [|c [|c' out]]; [discriminate | | reflexivity].
    simpl in Hl. now injection Hl as ->.
  - now destruct out.
Qed.

(** The base name of a path joined with a normal element is that
    element. *)
Lemma Base_Join dir e :
  normalElem e = true -> filepath.Base (filepath.Join [dir; e]) = e.
Proof.
  intros Hn.
  assert (Hne : e <> "").
  { unfold normalElem in Hn. destruct e; [discriminate | congruence]. }
  assert (Hs : hasByte "/" e = false).
  { unfold normalElem in Hn. apply andb_true_iff in Hn as [Hn _].
    apply andb_true_iff in Hn as [Hn _]. apply andb_true_iff in Hn as [_ Hn].
    now apply negb_true_iff in Hn. }
  assert (Hbuf : forall out : list ascii,
            match out with [] => True | c :: _ => c = filepath.Separator end ->
            filepath.Base
              match (rev (list_ascii_of_string e) ++ out)%list with
              | [] => "."
              | _ :: _ => string_of_list_ascii (rev (rev (list_ascii_of_string e) ++ out))
              end = e).
  { intros out Hout.
    destruct (rev (list_ascii_of_string e) ++ out)%list eqn:E.
    - apply (f_equal (@length ascii)) in E.
      rewrite length_app, length_rev in E. destruct e; [congruence | discriminate].
    - rewrite <- E. now apply Base_of_buffer. }
  unfold filepath.Join.
  destruct (String.eqb_spec dir "") as [->|Hdir].
  - (* the directory is skipped *)
    apply String.eqb_neq in Hne as Hb. rewrite Hb.
    change (strings.Join [e] (String filepath.Separator "")) with e.
    unfold filepath.Clean. destruct e as [|a e']; [congruence|].
    assert (Ha : filepath.IsPathSeparator a = false).
    { simpl in Hs. unfold filepath.IsPathSeparator, filepath.Separator.
      now destruct (Ascii.eqb a "/"). }
    cbv beta iota zeta. rewrite Ha.
    rewrite cleanLoop_last_elem by assumption.
    change (separated false []) with (@nil ascii).
    apply (Hbuf []). exact I.
  - change (strings.Join [dir; e] (String filepath.Separator ""))
      with (dir ++ "/" ++ e).
    unfold filepath.Clean. destruct dir as [|c dir]; [congruence|].
    change (String c dir ++ "/" ++ e) with (String c (dir ++ String "/" e)).
    cbv beta iota zeta.
    destruct (filepath.IsPathSeparator c) eqn:Ec.
    + destruct (cleanLoop_to_separator _ dir (le_n _) true false
                  [filepath.Separator] 1 e) as (out' & d' & Hinv & ->).
      { intros _. now split. }
      destruct (Hinv eq_refl) as [-> _].
      rewrite cleanLoop_last_elem by assumption.
      apply Hbuf. now apply (separated_head true out' 1).
    + change (String c (dir ++ String "/" e)) with (String c dir ++ String "/" e).
      destruct (cleanLoop_to_separator _ (String c dir) (le_n _) false false
                  [] 0 e) as (out' & d' & Hinv & ->).
      { intros [=]. }
      rewrite cleanLoop_last_elem by assumption.
      apply Hbuf. now apply (separated_head false out' d').
Qed.

End LastElement.

(** ** Running a management command *)

Section ManagerSteps.

Context {A B : Type}.

Lemma mgr_bind_run (m : Mgr A) (k : A -> Mgr B) s :
  (m ≫= k) s
  = match m s with
    | (inl a, s') => k a s'
    | (inr o, s') => (inr o, s')
    end.
Proof. reflexivity. Qed.

Lemma addActions_nil s : addActions s [] = s.
Proof. destruct s; unfold addActions; simpl. now rewrite app_nil_r. Qed.

Lemma addActions_app s acts1 acts2 :
  addActions (addActions s acts1) acts2 = addActions s (acts1 ++ acts2).
Proof. unfold addActions; simpl. now rewrite app_assoc. Qed.

Lemma fileOps_app acts1 acts2 :
  fileOps (acts1 ++ acts2) = (fileOps acts1 ++ fileOps acts2)%list.
Proof. apply flat_map_app. Qed.

Lemma fileOps_Say evs : fileOps (map Say evs) = [].
Proof. induction evs as [|e evs IH]; [reflexivity | exact IH]. Qed.

Lemma said_app acts1 acts2 : said (acts1 ++ acts2) = (said acts1 ++ said acts2)%list.
Proof. apply flat_map_app. Qed.

Lemma said_Say evs : said (map Say evs) = evs.
Proof. induction evs as [|e evs IH]; [reflexivity | simpl; now rewrite IH]. Qed.

(** A computation of the wrapper's monad does nothing to files. *)
Lemma lift_fileOps (m : M A) s : fileOps (actions (lift m s).2) = fileOps (actions s).
Proof.
  unfold lift. destruct (m _) as [r st]. simpl.
  now rewrite fileOps_app, fileOps_Say, app_nil_r.
Qed.

Lemma lift_emit e s : lift (emit e) s = (inl tt, addActions s [Say e]).
Proof. reflexivity. Qed.

Lemma lift_expandPath path s :
  lift (expandPath path) s = (inl (expandPathIn (sessionEnviron s) path), s).
Proof.
  transitivity (@inl string Outcome (expandPathIn (sessionEnviron s) path), addActions s []);
    [reflexivity | now rewrite addActions_nil].
Qed.

Lemma lift_os_Getenv key s :
  lift (os_Getenv key) s = (inl (os.Getenv (sessionEnviron s) key), s).
Proof.
  transitivity (@inl string Outcome (os.Getenv (sessionEnviron s) key), addActions s []);
    [reflexivity | now rewrite addActions_nil].
Qed.

Lemma lift_os_Exit code s : lift (@os_Exit A code) s = (inr (Exit code), s).
Proof.
  transitivity (@inr A Outcome (Exit code), addActions s []);
    [reflexivity | now rewrite addActions_nil].
Qed.

Lemma perform_run sys op s :
  perform sys op s = (inl (answer sys op), addActions s [Do op]).
Proof. reflexivity. Qed.

End ManagerSteps.

(** ** The configuration file *)

Section ConfigFile.

Variable sys : System.

Lemma createDefaultConfig_run s :
  exists err,
    createDefaultConfig sys s
    = (inl err, addActions s (map Do (createDefaultConfigOps sys (sessionEnviron s)))).
Proof.
  unfold createDefaultConfig, createDefaultConfigOps.
  rewrite mgr_bind_run. unfold getConfigPath. rewrite lift_expandPath.
  fold (getConfigPathIn (sessionEnviron s)).
  set (configPath := getConfigPathIn (sessionEnviron s)).
  rewrite mgr_bind_run, perform_run.
  destruct (answer sys (Stat configPath)) as [e|].
  - rewrite mgr_bind_run, !perform_run, !addActions_app. eexists. reflexivity.
  - eexists. reflexivity.
Qed.

(** [loadConfig] returns the configuration of the host after its
    operations on files; it writes nothing and ends no process. *)
Lemma loadConfig_run s :
  let configPath := getConfigPathIn (sessionEnviron s) in
  manager.loadConfig sys s
  = (inl (loadConfig (host sys), answer sys (DecodeFile configPath)),
     addActions s (map Do (loadConfigOps sys (sessionEnviron s)))).
Proof.
  intros configPath. unfold manager.loadConfig, loadConfigOps.
  rewrite mgr_bind_run. unfold getConfigPath. rewrite lift_expandPath.
  fold (getConfigPathIn (sessionEnviron s)). fold configPath.
  rewrite mgr_bind_run, perform_run, mgr_bind_run.
  assert (Hstep : forall acts,
            perform sys (DecodeFile configPath) (addActions s acts)
            = (inl (answer sys (DecodeFile configPath)),
               addActions s (acts ++ [Do (DecodeFile configPath)]))).
  { intros acts. now rewrite perform_run, addActions_app. }
  destruct (answer sys (Stat configPath)) as [e|].
  - destruct (IsNotExist e).
    + rewrite mgr_bind_run.
      destruct (createDefaultConfig_run (addActions s [Do (Stat configPath)])) as [err ->].
      change ((mret tt : Mgr unit) ?s') with (@inl unit Outcome tt, s').
      cbv beta iota. rewrite addActions_app, mgr_bind_run, Hstep.
      change (sessionEnviron (addActions s [Do (Stat configPath)])) with (sessionEnviron s).
      cbn [map app]. rewrite map_app. cbn [map]. reflexivity.
    + change ((mret tt : Mgr unit) ?s') with (@inl unit Outcome tt, s').
      cbv beta iota. rewrite mgr_bind_run, Hstep. reflexivity.
  - change ((mret tt : Mgr unit) ?s') with (@inl unit Outcome tt, s').
    cbv beta iota. rewrite mgr_bind_run, Hstep. reflexivity.
Qed.


Lemma fileOps_Do ops : fileOps (map Do ops) = ops.
Proof. induction ops as [|op ops IH]; [reflexivity | simpl; now rewrite IH]. Qed.

Lemma said_Do ops : said (map Do ops) = [].
Proof. induction ops as [|op ops IH]; [reflexivity | exact IH]. Qed.

End ConfigFile.

(** ** [runAddRule] *)

Section AddRule.

Variables (patternFlag newPattern : string).

Lemma rangeShadowing_skip rule rest st :
  shadows (environ st) newPattern rule = Some false ->
  rangeShadowing patternFlag newPattern (rule :: rest) st
  = rangeShadowing patternFlag newPattern rest
      (addOutput st [CallCompile (expandPathIn (environ st) (Pattern rule))]).
Proof.
  unfold shadows. intros H. simpl. run_go.
  destruct (glob.Compile _ "") as [g|e]; [|discriminate]. injection H as ->.
  reflexivity.
Qed.

Lemma rangeShadowing_hit rule rest st :
  shadows (environ st) newPattern rule = Some true ->
  rangeShadowing patternFlag newPattern (rule :: rest) st
  = (inl tt,
     addOutput st (CallCompile (expandPathIn (environ st) (Pattern rule))
                   :: shadowLines patternFlag rule)).
Proof.
  unfold shadows. intros H. simpl. run_go.
  destruct (glob.Compile _ "") as [g|e]; [|discriminate]. injection H as ->.
  unfold logWarn, addOutput, shadowLines, emit. simpl.
  now rewrite <- !app_assoc.
Qed.

Lemma rangeShadowing_nil_glob rule rest st :
  shadows (environ st) newPattern rule = None ->
  rangeShadowing patternFlag newPattern (rule :: rest) st
  = (inr nilPanic,
     addOutput st [CallCompile (expandPathIn (environ st) (Pattern rule))]).
Proof.
  unfold shadows. intros H. simpl. run_go.
  destruct (glob.Compile _ "") as [g|e]; [discriminate|]. reflexivity.
Qed.

(** The loop changes neither the environment nor [debugMode]. *)
Lemma rangeShadowing_frame rules : forall st,
  environ (rangeShadowing patternFlag newPattern rules st).2 = environ st
  /\ debugMode (rangeShadowing patternFlag newPattern rules st).2 = debugMode st.
Proof.
  induction rules as [|rule rest IH]; intros st; [now split|].
  destruct (shadows (environ st) newPattern rule) as [[|]|] eqn:E.
  - now rewrite rangeShadowing_hit.
  - rewrite rangeShadowing_skip by assumption.
    destruct (IH (addOutput st [CallCompile (expandPathIn (environ st) (Pattern rule))]))
      as [He Hd].
    now rewrite He, Hd.
  - now rewrite rangeShadowing_nil_glob.
Qed.

(** The loop returns when every pattern it comes to compiles, and
    panics otherwise. *)
Lemma rangeShadowing_returns rules : forall st,
  Forall (fun rule => shadows (environ st) newPattern rule <> None) rules ->
  (rangeShadowing patternFlag newPattern rules st).1 = inl tt.
Proof.
  induction rules as [|rule rest IH]; intros st H; [reflexivity|].
  inversion H as [|? ? Hr Hrest]; subst.
  destruct (shadows (environ st) newPattern rule) as [[|]|] eqn:E; [| |congruence].
  - now rewrite rangeShadowing_hit.
  - rewrite rangeShadowing_skip by assumption. now apply IH.
Qed.

(** The loop ends the process by the panic on the nil glob only. *)
Lemma rangeShadowing_outcome rules : forall st o,
  (rangeShadowing patternFlag newPattern rules st).1 = inr o -> o = nilPanic.
Proof.
  induction rules as [|rule rest IH]; intros st o H; [discriminate|].
  destruct (shadows (environ st) newPattern rule) as [[|]|] eqn:E.
  - rewrite rangeShadowing_hit in H by assumption. discriminate.
  - rewrite rangeShadowing_skip in H by assumption. now apply IH in H.
  - rewrite rangeShadowing_nil_glob in H by assumption. now injection H as <-.
Qed.

Lemma rangeShadowing_prefix pre rule post : forall st,
  Forall (fun r => shadows (environ st) newPattern r = Some false) pre ->
  rangeShadowing patternFlag newPattern (pre ++ rule :: post) st
  = rangeShadowing patternFlag newPattern (rule :: post)
      (addOutput st (map (fun r => CallCompile (expandPathIn (environ st) (Pattern r))) pre)).
Proof.
  induction pre as [|r0 pre IH]; intros st H; simpl app.
  - now rewrite addOutput_nil.
  - inversion H as [|? ? Hr Hrest]; subst.
    rewrite rangeShadowing_skip by assumption.
    rewrite IH by exact Hrest. now rewrite addOutput_app.
Qed.

End AddRule.

Section AddRuleRun.

Variable sys : System.

Let config := loadConfig (host sys).

(** [runAddRule] with both flags given, in terms of its loop. *)
Lemma runAddRule_unfold args s actual rest :
  flag.parseLoop addRuleFlags ∅ args = (actual, rest, None) ->
  flag.value actual "pattern" <> "" -> flag.value actual "home" <> "" ->
  let p := flag.value actual "pattern" in
  let h := flag.value actual "home" in
  let env := sessionEnviron s in
  let cp := getConfigPathIn env in
  let scan := rangeShadowing p (expandPathIn env p) (Rules config)
                {| environ := env; debugMode := sessionDebugMode s; output := [] |} in
  let load := map Do (loadConfigOps sys env) in
  runAddRule sys args s
  = match scan.1 with
    | inl _ =>
        (inl tt,
         addActions s
           (load
            ++ map Say (output scan.2)
            ++ Do (Create cp)
               :: match answer sys (Create cp) with
                  | Some _ => []
                  | None => [Do (Encode cp (withRule config p h))]
                  end
            ++ [Say (Write Stdout ("[OK] Added Rule: when in '" ++ p ++ "', use '" ++ h
                                   ++ "' as HOME." ++ nl))]))
    | inr o => (inr o, addActions s (load ++ map Say (output scan.2)))
    end.
Proof.
  intros Hparse Hp Hh p h env cp scan load.
  unfold runAddRule. rewrite mgr_bind_run.
  assert (Hlift : lift (addCmd_Parse args) s = (inl actual, s)).
  { unfold addCmd_Parse. rewrite Hparse.
    transitivity (@inl (gmap string string) Outcome actual, addActions s []);
      [reflexivity | now rewrite addActions_nil]. }
  rewrite Hlift. fold p h.
  apply String.eqb_neq in Hp, Hh. fold p in Hp. fold h in Hh. rewrite Hp, Hh.
  cbn [orb]. rewrite mgr_bind_run.
  change ((mret tt : Mgr unit) s) with (@inl unit Outcome tt, s). cbv beta iota.
  rewrite mgr_bind_run, loadConfig_run. cbv beta iota zeta. fold env load config.
  clearbody load.
  rewrite mgr_bind_run, lift_expandPath, mgr_bind_run.
  change (sessionEnviron (addActions s load)) with env.
  pose proof (rangeShadowing_frame p (expandPathIn env p) (Rules config)
                {| environ := env; debugMode := sessionDebugMode s; output := [] |})
    as [Henv Hdebug].
  fold scan in Henv, Hdebug. simpl in Henv, Hdebug.
  unfold lift at 1.
  change (sessionEnviron (addActions s load)) with env.
  change (sessionDebugMode (addActions s load)) with (sessionDebugMode s).
  fold scan.
  destruct scan as [[[]|o] [env' debug' out']]; simpl in Henv, Hdebug |- *;
    subst env' debug'.
  - rewrite mgr_bind_run. unfold saveConfig.
    rewrite mgr_bind_run.
    unfold getConfigPath. rewrite lift_expandPath. simpl sessionEnviron.
    fold (getConfigPathIn env). fold cp.
    rewrite mgr_bind_run, perform_run.
    destruct (answer sys (Create cp)) as [e|].
    + change ((mret (Some e) : Mgr (option Err)) ?s') with (@inl (option Err) Outcome (Some e), s').
      cbv beta iota. unfold logSuccess. rewrite lift_emit.
      unfold addActions. simpl. rewrite <- !app_assoc. reflexivity.
    + rewrite perform_run. unfold logSuccess. rewrite lift_emit.
      unfold addActions, withRule. simpl.
      rewrite <- !app_assoc. reflexivity.
  - unfold addActions. simpl. now rewrite <- app_assoc.
Qed.

End AddRuleRun.

(** ** [runAddWrapper] *)

Section AddWrapperRun.

Variable sys : System.

Let config := loadConfig (host sys).

(** [runAddWrapper] with one argument, up to the call of [os.Symlink]. *)
Lemma runAddWrapper_unfold cmdName s :
  let env := sessionEnviron s in
  let multiprofPath := (Executable sys).1 in
  let symlinkPath := filepath.Join [getWrapperDirIn env; cmdName ++ Suffix (settings config)] in
  let s1 := addActions s (map Do (loadConfigOps sys env)
                          ++ map Say (pathWarning env)
                          ++ [Do (Symlink multiprofPath symlinkPath)]) in
  runAddWrapper sys [cmdName] s
  = match answer sys (Symlink multiprofPath symlinkPath) with
    | Some e =>
        if IsExist e then afterSymlink sys cmdName symlinkPath s1
        else (inr (Exit 1),
              addActions s1 [Say (Write Stderr ("[FAIL] Failed to create Wrapper: "
                                                ++ Error e ++ nl))])
    | None => afterSymlink sys cmdName symlinkPath s1
    end.
Proof.
  intros env multiprofPath symlinkPath s1.
  unfold runAddWrapper.
  rewrite mgr_bind_run, loadConfig_run. cbv beta iota zeta. fold env config.
  set (s0 := addActions s (map Do (loadConfigOps sys env))).
  rewrite mgr_bind_run. unfold getWrapperDir. rewrite lift_expandPath.
  change (sessionEnviron s0) with env.
  fold (getWrapperDirIn env).
  rewrite mgr_bind_run, lift_os_Getenv.
  change (sessionEnviron s0) with env.
  rewrite mgr_bind_run.
  assert (Hwarn : (if negb (strings.Contains (os.Getenv env "PATH") (getWrapperDirIn env))
                   then
                     lift (logWarn "Wrapper Directory '%s' not found in your $PATH."
                             [getWrapperDirIn env]) ;;
                     lift (logInfo
                             "Please run `multiprof init` and follow the setup instructions."
                             [])
                   else mret tt) s0
                  = (inl tt, addActions s0 (map Say (pathWarning env)))).
  { unfold pathWarning.
    destruct (negb (strings.Contains (os.Getenv env "PATH") (getWrapperDirIn env))).
    - rewrite mgr_bind_run. unfold logWarn, logInfo. rewrite !lift_emit.
      now rewrite addActions_app.
    - now rewrite addActions_nil. }
  rewrite Hwarn. cbv beta iota.
  rewrite mgr_bind_run, perform_run. unfold s0. rewrite !addActions_app.
  fold multiprofPath symlinkPath s1.
  rewrite mgr_bind_run.
  destruct (answer sys (Symlink multiprofPath symlinkPath)) as [e|]; [|reflexivity].
  destruct (IsExist e); [reflexivity|].
  cbn [negb]. rewrite mgr_bind_run. unfold logError. rewrite lift_emit, lift_os_Exit.
  reflexivity.
Qed.

Lemma symlinks_app acts1 acts2 :
  symlinks (acts1 ++ acts2) = (symlinks acts1 ++ symlinks acts2)%list.
Proof. apply flat_map_app. Qed.


(** [createCompletionFile] returns, and makes no link. *)
Lemma createCompletionFile_run wrapperName originalCmd s :
  exists err acts,
    createCompletionFile sys wrapperName originalCmd s = (inl err, addActions s acts)
    /\ symlinks acts = [].
Proof.
  unfold createCompletionFile.
  rewrite mgr_bind_run. unfold getCompletionDir. rewrite lift_expandPath.
  rewrite mgr_bind_run, perform_run.
  destruct (answer sys (MkdirAll _)) as [e|].
  { eexists _, _. split; reflexivity. }
  rewrite mgr_bind_run, perform_run, addActions_app.
  destruct (answer sys (Create _)) as [e|].
  { eexists _, _. split; reflexivity. }
  destruct (parseCompletionTemplate (embedded sys)) as [e|].
  { eexists _, _. split; reflexivity. }
  rewrite mgr_bind_run, perform_run, addActions_app.
  eexists _, _. split; reflexivity.
Qed.

(** Once the link is there, [runAddWrapper] reports it and returns. *)
Lemma afterSymlink_run cmdName symlinkPath s :
  exists acts,
    afterSymlink sys cmdName symlinkPath s
    = (inl tt,
       addActions s (Say (Write Stdout ("[OK] Created Wrapper for '" ++ cmdName ++ "' at "
                                        ++ symlinkPath ++ nl)) :: acts))
    /\ symlinks acts = [].
Proof.
  unfold afterSymlink. rewrite mgr_bind_run. unfold logSuccess at 1. rewrite lift_emit.
  destruct (negb (String.eqb (Suffix (settings (loadConfig (host sys)))) "")).
  - rewrite mgr_bind_run.
    destruct (createCompletionFile_run (cmdName ++ Suffix (settings (loadConfig (host sys))))
                cmdName
                (addActions s [Say (Write Stdout
                   (Sprintf ("[OK] " ++ "Created Wrapper for '%s' at %s" ++ nl)
                      [cmdName; symlinkPath]))]))
      as (err & acts & -> & Hacts).
    destruct err as [e|]; [unfold logWarn | unfold logSuccess]; rewrite lift_emit;
      rewrite !addActions_app; (eexists; split; [reflexivity|]);
      rewrite symlinks_app, Hacts; reflexivity.
  - exists []. split; reflexivity.
Qed.


End AddWrapperRun.


(** ** The management commands: what they leave behind *)

(** X5.  With both flags given, and every pattern of the configuration
    compiling, [runAddRule] returns after it has read the configuration
    with [loadConfig], created the configuration file and, the creation
    succeeding, encoded into it the configuration read with the new rule
    as its last rule, the pattern and the home as they were typed.  Its
    operations on files are those of [loadConfig], then [os.Create] and
    the encoding, and no other; it ends with the message of success
    whether or not the file could be created. *)
Theorem add_rule_saves_appended_rule (sys : System) (args rest : list string)
    (env actual : gmap string string) :
  flag.parseLoop addRuleFlags ∅ args = (actual, rest, None) ->
  flag.value actual "pattern" <> "" ->
  flag.value actual "home" <> "" ->
  Forall (fun rule =>
            shadows env (expandPathIn env (flag.value actual "pattern")) rule <> None)
    (Rules (loadConfig (host sys))) ->
  let run := runAddRule sys args (start env) in
  let configPath := getConfigPathIn env in
  run.1 = inl tt
  /\ fileOps (actions run.2)
     = (loadConfigOps sys env
        ++ Create configPath
           :: match answer sys (Create configPath) with
              | Some _ => []
              | None => [Encode configPath
                           (withRule (loadConfig (host sys)) (flag.value actual "pattern")
                              (flag.value actual "home"))]
              end)%list
  /\ last (actions run.2)
     = Some (Say (Write Stdout ("[OK] Added Rule: when in '" ++ flag.value actual "pattern"
                                ++ "', use '" ++ flag.value actual "home"
                                ++ "' as HOME." ++ nl))).
Proof.
  intros Hparse Hp Hh Hall run configPath. unfold run.
  rewrite (runAddRule_unfold sys args (start env) actual rest Hparse Hp Hh).
  cbv zeta. simpl sessionEnviron. fold configPath.
  rewrite rangeShadowing_returns by exact Hall.
  split; [reflexivity|]. cbn [snd addActions actions start app]. split.
  - rewrite !fileOps_app, fileOps_Do, fileOps_Say. cbn [app]. f_equal.
    cbn [fileOps flat_map app]. f_equal.
    now destruct (answer sys (Create configPath)).
  - rewrite app_comm_cons, !app_assoc. apply last_snoc.
Qed.

(** [multiprof add-rule --pattern /srv/** --home=/home/srv] *)
Lemma add_rule_saves_appended_rule_witness :
  flag.parseLoop addRuleFlags ∅ ["--pattern"; "/srv/**"; "--home=/home/srv"]
  = (<["home" := "/home/srv"]> (<["pattern" := "/srv/**"]> ∅), [], None)
  /\ (runAddRule (sysManager ["multiprof"; "add-rule"; "--pattern"; "/srv/**";
                              "--home=/home/srv"])
         ["--pattern"; "/srv/**"; "--home=/home/srv"] (start envHome)).1 = inl tt
  /\ fileOps (actions (runAddRule
                         (sysManager ["multiprof"; "add-rule"; "--pattern"; "/srv/**";
                                      "--home=/home/srv"])
                         ["--pattern"; "/srv/**"; "--home=/home/srv"] (start envHome)).2)
     = [ Stat "/home/u/.config/multiprof/config.toml";
         DecodeFile "/home/u/.config/multiprof/config.toml";
         Create "/home/u/.config/multiprof/config.toml";
         Encode "/home/u/.config/multiprof/config.toml"
           {| settings := {| Suffix := "_w" |};
              Rules := [ {| Pattern := "/work/**"; Home := "/home/work" |};
                         {| Pattern := "/srv/**"; Home := "/home/srv" |} ] |} ].
Proof.
  assert (Hparse : flag.parseLoop addRuleFlags ∅ ["--pattern"; "/srv/**"; "--home=/home/srv"]
                   = (<["home" := "/home/srv"]> (<["pattern" := "/srv/**"]> ∅), [], None))
    by (vm_compute; reflexivity).
  split; [exact Hparse|].
  destruct (add_rule_saves_appended_rule
              (sysManager ["multiprof"; "add-rule"; "--pattern"; "/srv/**"; "--home=/home/srv"])
              ["--pattern"; "/srv/**"; "--home=/home/srv"] [] envHome
              (<["home" := "/home/srv"]> (<["pattern" := "/srv/**"]> ∅))
              Hparse ltac:(discriminate) ltac:(discriminate)
              ltac:(repeat constructor; discriminate)) as (Hret & Hops & _).
  split; [exact Hret | exact Hops].
Defined.

(** X6.  When [runAddRule] does not return, the new rule is not saved.
    Where the process exits (a flag is wrong or missing) it has done
    nothing to a file; where it panics in its loop its operations on files
    are those of [loadConfig] and no other: the configuration file is
    neither created with [os.Create] nor encoded. *)
Theorem add_rule_failure_saves_nothing (sys : System) (args : list string)
    (s : Session) (o : Outcome) :
  (runAddRule sys args s).1 = inr o ->
  fileOps (actions (runAddRule sys args s).2)
  = (fileOps (actions s)
     ++ match o with
        | Exit _ => []
        | _ => loadConfigOps sys (sessionEnviron s)
        end)%list.
Proof.
  destruct (flag.parseLoop addRuleFlags ∅ args) as [[actual rest] [failure|]] eqn:Hparse.
  - (* the flags do not parse *)
    unfold runAddRule. rewrite mgr_bind_run.
    pose proof (lift_fileOps (addCmd_Parse args) s) as Hops.
    assert (Hexit : exists code, (lift (addCmd_Parse args) s).1 = inr (Exit code)).
    { unfold addCmd_Parse. rewrite Hparse. destruct failure; eexists; reflexivity. }
    destruct Hexit as [code Hcode].
    destruct (lift (addCmd_Parse args) s) as [[a|o''] s']; [discriminate|].
    cbn [fst snd] in *. intros [= <-]. injection Hcode as ->.
    rewrite Hops. now rewrite app_nil_r.
  - destruct (String.eqb_spec (flag.value actual "pattern") "") as [Hp|Hp];
      [|destruct (String.eqb_spec (flag.value actual "home") "") as [Hh|Hh]].
    + (* no pattern *)
      unfold runAddRule. rewrite mgr_bind_run.
      assert (Hlift : lift (addCmd_Parse args) s = (inl actual, s)).
      { unfold addCmd_Parse. rewrite Hparse.
        transitivity (@inl (gmap string string) Outcome actual, addActions s []);
          [reflexivity | now rewrite addActions_nil]. }
      rewrite Hlift, Hp. cbn [String.eqb orb].
      simpl. intros [= <-]. rewrite !fileOps_app. simpl. now rewrite !app_nil_r.
    + (* no home *)
      unfold runAddRule. rewrite mgr_bind_run.
      assert (Hlift : lift (addCmd_Parse args) s = (inl actual, s)).
      { unfold addCmd_Parse. rewrite Hparse.
        transitivity (@inl (gmap string string) Outcome actual, addActions s []);
          [reflexivity | now rewrite addActions_nil]. }
      rewrite Hlift, Hh. rewrite orb_true_r.
      simpl. intros [= <-]. rewrite !fileOps_app. simpl. now rewrite !app_nil_r.
    + (* both flags: the loop *)
      rewrite (runAddRule_unfold sys args s actual rest Hparse Hp Hh). cbv zeta.
      pose proof (rangeShadowing_outcome (flag.value actual "pattern")
                    (expandPathIn (sessionEnviron s) (flag.value actual "pattern"))
                    (Rules (loadConfig (host sys)))
                    {| environ := sessionEnviron s; debugMode := sessionDebugMode s;
                       output := [] |}) as Hpanic.
      destruct (rangeShadowing _ _ _ _) as [[[]|o'] st]; [discriminate|].
      cbn [fst snd] in *. intros [= <-]. rewrite (Hpanic o' eq_refl).
      cbn [addActions actions]. unfold nilPanic.
      now rewrite !fileOps_app, fileOps_Do, fileOps_Say, app_nil_r.
Qed.

(** [multiprof add-rule --pattern /srv/**], without [--home]. *)
Lemma add_rule_failure_saves_nothing_witness :
  (runAddRule (sysManager ["multiprof"; "add-rule"; "--pattern"; "/srv/**"])
     ["--pattern"; "/srv/**"] (start envHome)).1 = inr (Exit 1)
  /\ fileOps (actions (runAddRule (sysManager ["multiprof"; "add-rule"; "--pattern"; "/srv/**"])
                         ["--pattern"; "/srv/**"] (start envHome)).2) = [].
Proof.
  split; [reflexivity|].
  exact (add_rule_failure_saves_nothing
           (sysManager ["multiprof"; "add-rule"; "--pattern"; "/srv/**"])
           ["--pattern"; "/srv/**"] (start envHome) (Exit 1) eq_refl).
Defined.

(** X7.  When the loop of [runAddRule] comes to a rule whose expanded
    pattern does not compile, no rule before it having been found to
    shadow the new pattern, the call of [g.Match] on the nil glob panics:
    the new rule is not saved, the operations on files being those of
    [loadConfig] and no other. *)
Theorem add_rule_panics_on_bad_pattern (sys : System) (args rest : list string)
    (env actual : gmap string string) (pre post : list Rule) (bad : Rule) :
  flag.parseLoop addRuleFlags ∅ args = (actual, rest, None) ->
  flag.value actual "pattern" <> "" ->
  flag.value actual "home" <> "" ->
  Rules (loadConfig (host sys)) = (pre ++ bad :: post)%list ->
  Forall (fun rule =>
            shadows env (expandPathIn env (flag.value actual "pattern")) rule = Some false)
    pre ->
  shadows env (expandPathIn env (flag.value actual "pattern")) bad = None ->
  (runAddRule sys args (start env)).1 = inr nilPanic
  /\ fileOps (actions (runAddRule sys args (start env)).2) = loadConfigOps sys env.
Proof.
  intros Hparse Hp Hh Hrules Hpre Hbad.
  rewrite (runAddRule_unfold sys args (start env) actual rest Hparse Hp Hh).
  cbv zeta. simpl sessionEnviron. rewrite Hrules.
  rewrite rangeShadowing_prefix by exact Hpre.
  rewrite rangeShadowing_nil_glob by exact Hbad.
  split; [reflexivity|]. cbn [fst snd addActions actions start app].
  now rewrite fileOps_app, fileOps_Do, fileOps_Say, app_nil_r.
Qed.

(** The configuration whose first pattern is [/tmp/[a]. *)
Lemma add_rule_panics_on_bad_pattern_witness :
  shadows envHome (expandPathIn envHome "/srv/**")
    {| Pattern := "/tmp/[a"; Home := "/home/tmp" |} = None
  /\ (runAddRule (sysBadPattern ["multiprof"; "add-rule"; "--pattern"; "/srv/**";
                                 "--home"; "/home/srv"])
        ["--pattern"; "/srv/**"; "--home"; "/home/srv"] (start envHome)).1
     = inr nilPanic
  /\ fileOps (actions (runAddRule
                         (sysBadPattern ["multiprof"; "add-rule"; "--pattern"; "/srv/**";
                                         "--home"; "/home/srv"])
                         ["--pattern"; "/srv/**"; "--home"; "/home/srv"] (start envHome)).2)
     = [ Stat "/home/u/.config/multiprof/config.toml";
         DecodeFile "/home/u/.config/multiprof/config.toml" ].
Proof.
  split; [reflexivity|].
  refine (add_rule_panics_on_bad_pattern
                   (sysBadPattern ["multiprof"; "add-rule"; "--pattern"; "/srv/**";
                                   "--home"; "/home/srv"])
                   ["--pattern"; "/srv/**"; "--home"; "/home/srv"] [] envHome
                   (<["home" := "/home/srv"]> (<["pattern" := "/srv/**"]> ∅))
                   [] [{| Pattern := "/work/**"; Home := "/home/work" |}]
                   {| Pattern := "/tmp/[a"; Home := "/home/tmp" |}
                   _ _ _ eq_refl _ eq_refl).
  - vm_compute. reflexivity.
  - discriminate.
  - discriminate.
  - constructor.
Defined.

(** X8.  A rule whose expanded pattern is a plain path [t] followed by
    [/**] is reported as shadowing the new pattern when the expansion of
    the new pattern begins with [t/], and then the loop stops; otherwise
    the loop goes on to the next rule. *)
Theorem nested_pattern_is_reported (patternFlag newPattern t : string)
    (rule : Rule) (rest : list Rule) (st : State) :
  plainText t = true ->
  expandPathIn (environ st) (Pattern rule) = t ++ "/**" ->
  rangeShadowing patternFlag newPattern (rule :: rest) st
  = if strings.HasPrefix newPattern (t ++ "/")
    then (inl tt, addOutput st (CallCompile (t ++ "/**") :: shadowLines patternFlag rule))
    else rangeShadowing patternFlag newPattern rest (addOutput st [CallCompile (t ++ "/**")]).
Proof.
  intros Ht Hp.
  assert (Hs : shadows (environ st) newPattern rule
               = Some (strings.HasPrefix newPattern (t ++ "/"))).
  { unfold shadows. rewrite Hp.
    replace (t ++ "/**") with ((t ++ "/") ++ "**") by (now rewrite sapp_assoc).
    rewrite Compile_text_super.
    - now rewrite Match_text_super.
    - rewrite plainText_app, Ht. reflexivity.
    - destruct t; discriminate. }
  destruct (strings.HasPrefix newPattern (t ++ "/")).
  - rewrite rangeShadowing_hit by exact Hs. now rewrite Hp.
  - rewrite rangeShadowing_skip by exact Hs. now rewrite Hp.
Qed.

(** The new pattern [/work/client/**] behind the rule [/work/**]. *)
Lemma nested_pattern_is_reported_witness :
  plainText "/work" = true
  /\ rangeShadowing "/work/client/**" "/work/client/**"
       [{| Pattern := "/work/**"; Home := "/home/work" |}] (init envHome)
     = (inl tt,
        addOutput (init envHome)
          (CallCompile "/work/**"
           :: shadowLines "/work/client/**" {| Pattern := "/work/**"; Home := "/home/work" |})).
Proof.
  split; [reflexivity|].
  exact (nested_pattern_is_reported "/work/client/**" "/work/client/**" "/work"
           {| Pattern := "/work/**"; Home := "/home/work" |} [] (init envHome)
           eq_refl eq_refl).
Defined.

(** ** Wrappers: from [add-wrapper] to the command *)



(** X10.  Where [os.Symlink] fails because the link exists already,
    [runAddWrapper] goes on as if it had made the link: it reports the
    wrapper as created and returns.  On any other error of [os.Symlink]
    it writes the error and exits with status 1, its operations on files
    being those of [loadConfig] and the call of [os.Symlink], and no
    other. *)
Theorem add_wrapper_accepts_existing_link (sys : System) (cmdName : string)
    (s : Session) (e : Err) :
  let multiprofPath := (Executable sys).1 in
  let symlinkPath :=
    filepath.Join [getWrapperDirIn (sessionEnviron s);
                   cmdName ++ Suffix (settings (loadConfig (host sys)))] in
  let run := runAddWrapper sys [cmdName] s in
  answer sys (Symlink multiprofPath symlinkPath) = Some e ->
  if IsExist e then
    run.1 = inl tt
    /\ Say (Write Stdout ("[OK] Created Wrapper for '" ++ cmdName ++ "' at "
                          ++ symlinkPath ++ nl)) ∈ actions run.2
  else
    run.1 = inr (Exit 1)
    /\ fileOps (actions run.2)
       = (fileOps (actions s) ++ loadConfigOps sys (sessionEnviron s)
          ++ [Symlink multiprofPath symlinkPath])%list
    /\ last (actions run.2)
       = Some (Say (Write Stderr ("[FAIL] Failed to create Wrapper: " ++ Error e ++ nl))).
Proof.
  intros multiprofPath symlinkPath run Hanswer. unfold run.
  rewrite runAddWrapper_unfold. cbv zeta. fold multiprofPath symlinkPath.
  rewrite Hanswer. destruct (IsExist e).
  - destruct (afterSymlink_run sys cmdName symlinkPath
                (addActions s (map Do (loadConfigOps sys (sessionEnviron s))
                               ++ map Say (pathWarning (sessionEnviron s))
                               ++ [Do (Symlink multiprofPath symlinkPath)])))
      as (acts & -> & _).
    split; [reflexivity|]. cbn [snd]. unfold addActions at 1. cbn [actions].
    apply elem_of_app. right. apply list_elem_of_here.
  - split; [reflexivity|]. cbn [snd addActions actions]. split.
    + rewrite !fileOps_app, fileOps_Do, fileOps_Say. cbn [fileOps flat_map app].
      now rewrite app_nil_r.
    + apply last_snoc.
Qed.

(** The link of [aws_w] is there already. *)
Lemma add_wrapper_accepts_existing_link_witness :
  answer (sysLinked ["multiprof"; "add-wrapper"; "aws"])
    (Symlink "/usr/local/bin/multiprof" "/home/u/.local/bin/multiprof/aws_w")
  = Some {| Error := "symlink: file exists"; IsExist := true; IsNotExist := false |}
  /\ (runAddWrapper (sysLinked ["multiprof"; "add-wrapper"; "aws"]) ["aws"]
        (start envHome)).1 = inl tt.
Proof.
  split; [reflexivity|].
  exact (proj1 (add_wrapper_accepts_existing_link
                  (sysLinked ["multiprof"; "add-wrapper"; "aws"]) "aws" (start envHome)
                  {| Error := "symlink: file exists"; IsExist := true;
                     IsNotExist := false |} eq_refl)).
Defined.

(** X11.  Started through a path whose last element is a normal element
    [name], [main] chooses by that name alone: the management commands
    where [name] is the base name of the binary or [main], and the
    wrapper otherwise, whatever the directory is. *)
Theorem main_chooses_by_name (sys : System) (dir name ownExecutable : string)
    (args : list string) (s : Session) :
  Executable sys = (ownExecutable, None) ->
  Args (host sys) = filepath.Join [dir; name] :: args ->
  normalElem name = true ->
  main sys s
  = if String.eqb name (filepath.Base ownExecutable) || String.eqb name "main"
    then match args with
         | command :: args' => runManager sys command args' s
         | [] => printUsage sys s
         end
    else lift (runWrapper (host sys)) s.
Proof.
  intros Hexe HArgs Hn. unfold main. rewrite Hexe.
  rewrite mgr_bind_run.
  change ((mret tt : Mgr unit) s) with (@inl unit Outcome tt, s). cbv beta iota.
  rewrite mgr_bind_run.
  assert (Harg0 : lift (os_Args0 (host sys)) s = (inl (filepath.Join [dir; name]), s)).
  { unfold os_Args0. rewrite HArgs.
    transitivity (@inl string Outcome (filepath.Join [dir; name]), addActions s []);
      [reflexivity | now rewrite addActions_nil]. }
  rewrite Harg0, HArgs. rewrite Base_Join by exact Hn.
  destruct (String.eqb name (filepath.Base ownExecutable) || String.eqb name "main");
    [|reflexivity].
  now destruct args.
Qed.

(** The wrapper [aws_w] of [hostWork], and the binary itself. *)
Lemma main_chooses_by_name_witness :
  main {| host := hostWork; embedded := embedded (sysManager []);
          Executable := ("/usr/local/bin/multiprof", None); answer := fun _ => None |}
    (start envHome)
  = lift (runWrapper hostWork) (start envHome)
  /\ main (sysManager ["/usr/local/bin/multiprof"; "list"]) (start envHome)
     = runManager (sysManager ["/usr/local/bin/multiprof"; "list"]) "list" [] (start envHome).
Proof.
  split.
  - exact (main_chooses_by_name
             {| host := hostWork; embedded := embedded (sysManager []);
                Executable := ("/usr/local/bin/multiprof", None); answer := fun _ => None |}
             "/home/u/.local/bin/multiprof" "aws_w" "/usr/local/bin/multiprof"
             ["s3"; "ls"] (start envHome) eq_refl eq_refl eq_refl).
  - exact (main_chooses_by_name (sysManager ["/usr/local/bin/multiprof"; "list"])
             "/usr/local/bin" "multiprof" "/usr/local/bin/multiprof"
             ["list"] (start envHome) eq_refl eq_refl eq_refl).
Defined.

(** ** What the wrapper writes *)

Section WrapperWrites.

Lemma writes_app evs1 evs2 : writes (evs1 ++ evs2) = (writes evs1 ++ writes evs2)%list.
Proof. apply flat_map_app. Qed.

Lemma debugOnly_app debug evs1 evs2 :
  debugOnly debug evs1 -> debugOnly debug evs2 -> debugOnly debug (evs1 ++ evs2).
Proof. unfold debugOnly. rewrite writes_app. apply Forall_app_2. Qed.

Lemma debugOnly_debugLine st format v : debugOnly (debugMode st) (debugLine st format v).
Proof.
  unfold debugOnly, debugLine. destruct (debugMode st); repeat constructor.
Qed.

Lemma debugOnly_nil debug : debugOnly debug [].
Proof. constructor. Qed.

Lemma debugOnly_CallCompile debug pattern : debugOnly debug [CallCompile pattern].
Proof. constructor. Qed.

Lemma debugOnly_CallLookPath debug env file : debugOnly debug [CallLookPath env file].
Proof. constructor. Qed.

(** What the loop of [runWrapper] appends to the output is written in
    debug mode only. *)
Lemma rangeRules_debugOnly (c cs : string) (rules : list Rule) : forall st,
  exists evs,
    output (rangeRules c cs rules st).2 = (output st ++ evs)%list
    /\ debugOnly (debugMode st) evs.
Proof.
  induction rules as [|rule rest IH]; intros st.
  - exists []. split; [simpl; now rewrite app_nil_r | constructor].
  - destruct (ruleMatches (environ st) c cs rule) as [[|]|] eqn:E.
    + rewrite rangeRules_hit by assumption. eexists. split; [reflexivity|].
      apply (debugOnly_app _ [_]); [constructor | apply debugOnly_debugLine].
    + rewrite rangeRules_skip by assumption.
      destruct (IH (addOutput st [CallCompile (expandPathIn (environ st) (Pattern rule))]))
        as (evs & -> & Hevs).
      eexists. split; [simpl; rewrite <- app_assoc; reflexivity|].
      apply debugOnly_app; [constructor | exact Hevs].
    + rewrite rangeRules_nil_glob by assumption. eexists. split; [reflexivity|].
      constructor.
Qed.

End WrapperWrites.

(** X12.  A run of [runWrapper] that arrives at [syscall.Exec] has
    written nothing to standard output; what it has written to standard
    error are the lines of [debugf], and so nothing at all unless
    [MULTIPROF_DEBUG] is [1] or [true]: the command starts with the
    output of the wrapper empty. *)
Theorem wrapper_is_silent (h : Host) (env0 : gmap string string)
    (targetCmdPath : string) (argv : list string) (envv : gmap string string) :
  (runWrapper h (init env0)).1 = inr (Exec targetCmdPath argv envv) ->
  Forall (fun w => w.1 = Stderr) (writes (output (runWrapper h (init env0)).2))
  /\ (os.Getenv env0 debugEnvVar <> "1" -> os.Getenv env0 debugEnvVar <> "true" ->
      writes (output (runWrapper h (init env0)).2) = []).
Proof.
  intros Hexec.
  assert (Hall : debugOnly (debugMode (init env0)) (output (runWrapper h (init env0)).2)).
  { revert Hexec. rewrite runWrapper_unfold. cbv zeta.
    set (c := expandPathIn (environ (init env0)) (Getwd h)).
    set (st1 := addOutput (init env0) _).
    remember (debugMode (init env0)) as debug eqn:Hd.
    assert (Hd1 : debugMode st1 = debug) by (subst debug; reflexivity).
    assert (Hst1 : debugOnly debug (output st1)).
    { subst debug. unfold st1. apply (debugOnly_debugLine (init env0)). }
    pose proof (rangeRules_frame c (c ++ "/") (Rules (loadConfig h)) st1) as [_ Hdebug].
    pose proof (rangeRules_outcome c (c ++ "/") (Rules (loadConfig h)) st1) as Hpanic.
    destruct (rangeRules_debugOnly c (c ++ "/") (Rules (loadConfig h)) st1)
      as (evs & Hout & Hevs).
    rewrite Hd1 in Hevs.
    destruct (rangeRules c (c ++ "/") (Rules (loadConfig h)) st1)
      as [[[newHome [|]]|o] st2]; cbn [fst snd] in Hout, Hdebug, Hpanic |- *.
    - assert (Hst2 : debugOnly debug (output st2)).
      { rewrite Hout. apply debugOnly_app; assumption. }
      assert (Hd2 : debugMode st2 = debug) by congruence.
      unfold afterMatch. destruct (Args h) as [|arg0 args]; [discriminate|].
      destruct (LookPath h _ _) as [p [e|]]; [discriminate|]. intros _.
      cbn [snd withEnviron output].
      repeat apply debugOnly_app; try assumption;
        try (rewrite <- Hd2; apply debugOnly_debugLine).
      apply debugOnly_CallLookPath.
    - discriminate.
    - intros Ho. injection Ho as ->. discriminate (Hpanic _ eq_refl). }
  split.
  - eapply Forall_impl; [exact Hall|]. now intros w [Hw _].
  - intros H1 H2.
    assert (Hoff : debugMode (init env0) = false).
    { simpl. apply String.eqb_neq in H1, H2. now rewrite H1, H2. }
    rewrite Hoff in Hall. unfold debugOnly in Hall.
    destruct (writes _) as [|w l]; [reflexivity|].
    inversion Hall as [|? ? [_ Hfalse] _]. discriminate.
Qed.

(** [aws_w] in [/work/proj], without [MULTIPROF_DEBUG]. *)
Lemma wrapper_is_silent_witness :
  (runWrapper hostWork (init envHome)).1
  = inr (Exec "/usr/bin/aws" (Args hostWork) (<["HOME" := "/home/work"]> envHome))
  /\ os.Getenv envHome debugEnvVar <> "1"
  /\ os.Getenv envHome debugEnvVar <> "true"
  /\ writes (output (runWrapper hostWork (init envHome)).2) = [].
Proof.
  assert (Hexec : (runWrapper hostWork (init envHome)).1
                  = inr (Exec "/usr/bin/aws" (Args hostWork)
                           (<["HOME" := "/home/work"]> envHome)))
    by (vm_compute; reflexivity).
  assert (H1 : os.Getenv envHome debugEnvVar <> "1") by discriminate.
  assert (H2 : os.Getenv envHome debugEnvVar <> "true") by discriminate.
  split; [exact Hexec|]. split; [exact H1|]. split; [exact H2|].
  exact (proj2 (wrapper_is_silent hostWork envHome _ _ _ Hexec) H1 H2).
Defined.

(** ** The directories of the program *)

Section Directories.

Lemma rootedPath_app elems1 elems2 :
  rootedPath (elems1 ++ elems2) = rootedPath elems1 ++ rootedPath elems2.
Proof.
  induction elems1 as [|x l IH]; [reflexivity|].
  simpl. now rewrite IH, !sapp_assoc.
Qed.

(** [~/e1/.../en] under a home directory that is a clean absolute
    path. *)
Lemma expandPathIn_under_home (env : gmap string string) (e : string)
    (elems1 elems2 : list string) :
  os.Getenv env "HOME" = rootedPath (e :: elems1) ->
  Forall (fun e => normalElem e = true) (e :: elems1 ++ elems2) ->
  hasByte "$" (rootedPath (e :: elems1)) = false ->
  hasByte "$" (rootedPath elems2) = false ->
  expandPathIn env ("~" ++ rootedPath elems2)
  = rootedPath (e :: elems1) ++ rootedPath elems2.
Proof.
  intros Hhome Hall Hd1 Hd2.
  assert (Hh : os.UserHomeDir env = Some (rootedPath (e :: elems1))).
  { unfold os.UserHomeDir. rewrite Hhome. reflexivity. }
  rewrite (expandPath_tilde env _ _ Hh), Clean_join_rooted by assumption.
  change (e :: elems1 ++ elems2)%list with ((e :: elems1) ++ elems2)%list.
  rewrite rootedPath_app. unfold os.ExpandEnv, os.Expand.
  apply expandLoop_no_dollar. rewrite hasByte_app, Hd1, Hd2. reflexivity.
Qed.

End Directories.

(** X13.  Under a [HOME] that is a clean absolute path without a dollar,
    the wrapper directory, the configuration file and the completion
    directory are that path followed by [/.local/bin/multiprof],
    [/.config/multiprof/config.toml] and
    [/.local/share/bash-completion/completions]. *)
Theorem directories_under_home (env : gmap string string) (e : string)
    (elems : list string) :
  os.Getenv env "HOME" = rootedPath (e :: elems) ->
  Forall (fun e => normalElem e = true) (e :: elems) ->
  hasByte "$" (rootedPath (e :: elems)) = false ->
  getWrapperDirIn env = rootedPath (e :: elems) ++ "/.local/bin/multiprof"
  /\ getConfigPathIn env = rootedPath (e :: elems) ++ "/.config/multiprof/config.toml"
  /\ getCompletionDirIn env
     = rootedPath (e :: elems) ++ "/.local/share/bash-completion/completions".
Proof.
  intros Hhome Hall Hd.
  assert (Hmore : forall elems2,
            Forall (fun e => normalElem e = true) elems2 ->
            Forall (fun e => normalElem e = true) (e :: elems ++ elems2)).
  { intros elems2 H2. change (e :: elems ++ elems2)%list with ((e :: elems) ++ elems2)%list.
    now apply Forall_app_2. }
  split; [|split].
  - apply (expandPathIn_under_home env e elems [".local"; "bin"; "multiprof"]);
      try assumption; [|reflexivity].
    apply Hmore. repeat constructor.
  - apply (expandPathIn_under_home env e elems [".config"; "multiprof"; "config.toml"]);
      try assumption; [|reflexivity].
    apply Hmore. repeat constructor.
  - apply (expandPathIn_under_home env e elems
             [".local"; "share"; "bash-completion"; "completions"]);
      try assumption; [|reflexivity].
    apply Hmore. repeat constructor.
Qed.

Lemma directories_under_home_witness :
  os.Getenv envHome "HOME" = rootedPath ["home"; "u"]
  /\ getWrapperDirIn envHome = "/home/u/.local/bin/multiprof"
  /\ getConfigPathIn envHome = "/home/u/.config/multiprof/config.toml"
  /\ getCompletionDirIn envHome = "/home/u/.local/share/bash-completion/completions".
Proof.
  split; [reflexivity|].
  exact (directories_under_home envHome "home" ["u"] eq_refl
           ltac:(repeat constructor) eq_refl).
Defined.

(** X14.  Without a [HOME], or with an empty one, the error of
    [os.UserHomeDir] is dropped and the tilde stays: the three paths are
    the relative paths [~/.local/bin/multiprof],
    [~/.config/multiprof/config.toml] and
    [~/.local/share/bash-completion/completions]. *)
Theorem directories_without_home (env : gmap string string) :
  os.Getenv env "HOME" = "" ->
  getWrapperDirIn env = "~/.local/bin/multiprof"
  /\ getConfigPathIn env = "~/.config/multiprof/config.toml"
  /\ getCompletionDirIn env = "~/.local/share/bash-completion/completions".
Proof.
  intros Hhome.
  assert (Hh : os.UserHomeDir env = None).
  { unfold os.UserHomeDir. now rewrite Hhome. }
  unfold getWrapperDirIn, getConfigPathIn, getCompletionDirIn, expandPathIn.
  rewrite Hh. repeat split; apply expandLoop_no_dollar; reflexivity.
Qed.

Lemma directories_without_home_witness :
  os.Getenv (delete "HOME" envHome) "HOME" = ""
  /\ getConfigPathIn (delete "HOME" envHome) = "~/.config/multiprof/config.toml".
Proof.
  split; [reflexivity|].
  exact (proj1 (proj2 (directories_without_home (delete "HOME" envHome) eq_refl))).
Defined.

(** ** The completion hook *)

Section HookName.

Variables (a b : ascii).

Hypothesis Hab : a <> b.

(** [ReplaceAll] of one byte by another, byte by byte. *)
Lemma ReplaceAll_byte (s : string) :
  strings.ReplaceAll s (String a "") (String b "")
  = mapBytes (fun c => if Ascii.eqb c a then b else c) s.
Proof.
  assert (Hold : String a "" <> "") by discriminate.
  assert (Hnew : String a "" <> String b "") by congruence.
  induction s as [|c s IH].
  - now rewrite ReplaceAll_absent.
  - cbn [mapBytes]. rewrite <- IH.
    destruct (Ascii.eqb_spec c a) as [->|Hc].
    + assert (Hi : strings.Index (String a s) (String a "") = Some 0).
      { apply Index_HasPrefix. now rewrite HasPrefix_cons, Ascii.eqb_refl, HasPrefix_nil. }
      now rewrite (ReplaceAll_first _ _ _ _ Hold Hnew Hi).
    + assert (Hi : strings.Index (String c s) (String a "")
                   = S <$> strings.Index s (String a "")).
      { rewrite Index_cons, HasPrefix_cons.
        apply Ascii.eqb_neq in Hc. now rewrite Hc. }
      destruct (strings.Index s (String a "")) as [j|] eqn:Ej.
      * rewrite (ReplaceAll_first _ _ _ _ Hold Hnew Hi).
        now rewrite (ReplaceAll_first _ _ _ _ Hold Hnew Ej).
      * now rewrite !ReplaceAll_absent.
Qed.

Lemma hasByte_mapBytes (s : string) :
  hasByte a (mapBytes (fun c => if Ascii.eqb c a then b else c) s) = false.
Proof.
  induction s as [|c s IH]; [reflexivity|]. simpl.
  destruct (Ascii.eqb_spec c a) as [->|Hc].
  - apply not_eq_sym, Ascii.eqb_neq in Hab. now rewrite Hab.
  - apply Ascii.eqb_neq in Hc. now rewrite Hc.
Qed.

Lemma slen_mapBytes (f : ascii -> ascii) (s : string) :
  String.length (mapBytes f s) = String.length s.
Proof. induction s as [|c s IH]; simpl; [reflexivity | now rewrite IH]. Qed.

End HookName.

(** X15.  The hook name that [createCompletionFile] gives to the
    template is [multiprof_hook_] followed by the name of the wrapper
    with every hyphen turned into an underscore and every other byte as
    it is: it has no hyphen. *)
Theorem hook_name_has_no_hyphen (wrapperName : string) :
  hookName wrapperName
  = "multiprof_hook_"
    ++ mapBytes (fun c => if Ascii.eqb c "-" then "_"%char else c) wrapperName
  /\ hasByte "-" (hookName wrapperName) = false
  /\ String.length (hookName wrapperName) = 15 + String.length wrapperName.
Proof.
  assert (Hname : hookName wrapperName
                  = "multiprof_hook_"
                    ++ mapBytes (fun c => if Ascii.eqb c "-" then "_"%char else c) wrapperName).
  { unfold hookName. now rewrite (ReplaceAll_byte "-" "_") by discriminate. }
  rewrite Hname. split; [reflexivity|]. split.
  - rewrite hasByte_app, (hasByte_mapBytes "-" "_") by discriminate. reflexivity.
  - rewrite slen_app, slen_mapBytes. reflexivity.
Qed.

(** ** [runList] and [runInit] *)

Section ListAndInit.

Lemma rangeList_run (rules : list Rule) : forall i st,
  rangeList i rules st
  = (inl tt, addOutput st (imap (fun k rule => listLine (i + k) rule) rules)).
Proof.
  induction rules as [|rule rest IH]; intros i st.
  - simpl. now rewrite addOutput_nil.
  - cbn [rangeList]. rewrite bind_run.
    change (emit ?e st) with (@inl unit Outcome tt, addOutput st [e]). cbv beta iota.
    rewrite IH, addOutput_app. f_equal. f_equal. cbn [imap app]. f_equal.
    + unfold listLine. rewrite Nat.add_0_r, Nat.add_1_r. reflexivity.
    + apply imap_ext. intros k r _. unfold compose. f_equal. lia.
Qed.

End ListAndInit.

(** X16.  [runList] reads the configuration with [loadConfig], whose
    operations on files come first, and then writes the suffix and the
    heading and one line for every rule, in the order of the
    configuration, which is the order in which [runWrapper] examines the
    rules; the line of the rule at index [k] carries the number [k + 1].
    Without rules it says that there are none.  It does nothing else and
    returns. *)
Theorem list_shows_rules_in_order (sys : System) (s : Session) :
  (runList sys s).1 = inl tt
  /\ actions (runList sys s).2
     = (actions s
        ++ map Do (loadConfigOps sys (sessionEnviron s))
        ++ map Say
             ([ Write Stdout ("Wrapper Suffix: " ++ dq
                              ++ Suffix (settings (loadConfig (host sys))) ++ dq ++ nl);
                Write Stdout ("--- Rules (checked in order of priority) ---" ++ nl) ]
              ++ match Rules (loadConfig (host sys)) with
                 | [] => [ Write Stdout
                             ("No Rules defined. Use 'multiprof add-rule' to create one."
                              ++ nl) ]
                 | rules => imap listLine rules
                 end))%list.
Proof.
  unfold runList. rewrite mgr_bind_run, loadConfig_run. cbv beta iota zeta.
  remember (map Do (loadConfigOps sys (sessionEnviron s))) as load eqn:Hload.
  rewrite mgr_bind_run, lift_emit. cbv beta iota.
  rewrite mgr_bind_run, lift_emit. cbv beta iota.
  destruct (Rules (loadConfig (host sys))) as [|rule rest] eqn:Hrules.
  - rewrite lift_emit. split; [reflexivity|].
    cbn [snd actions addActions map app]. now rewrite <- !app_assoc.
  - unfold lift. rewrite rangeList_run. split; [reflexivity|].
    cbn [snd actions addActions addOutput output sessionEnviron sessionDebugMode
         environ debugMode map app].
    rewrite <- !app_assoc. reflexivity.
Qed.

(** Without a configuration file, [multiprof list] writes the default
    configuration before it decodes the file. *)
Example list_creates_missing_config :
  fileOps (actions (runList (sysFresh ["multiprof"; "list"]) (start envHome)).2)
  = [ Stat "/home/u/.config/multiprof/config.toml";
      Stat "/home/u/.config/multiprof/config.toml";
      MkdirAll "/home/u/.config/multiprof";
      WriteFile "/home/u/.config/multiprof/config.toml" "[settings]";
      DecodeFile "/home/u/.config/multiprof/config.toml" ]
  /\ said (actions (runList (sysManager ["multiprof"; "list"]) (start envHome)).2)
     = [ Write Stdout ("Wrapper Suffix: " ++ dq ++ "_w" ++ dq ++ nl);
         Write Stdout ("--- Rules (checked in order of priority) ---" ++ nl);
         Write Stdout ("1: When in '/work/**', use '/home/work' as HOME." ++ nl) ].
Proof. split; vm_compute; reflexivity. Qed.

(** X17.  Where [os.Stat] finds the configuration file, [runInit] writes
    no file: it makes the wrapper directory, executes the template of
    its instructions on standard output if the template parses, and
    returns; the configuration is left as it is. *)
Theorem init_keeps_existing_config (sys : System) (s : Session) :
  let configPath := getConfigPathIn (sessionEnviron s) in
  let wrapperDir := getWrapperDirIn (sessionEnviron s) in
  answer sys (Stat configPath) = None ->
  (runInit sys s).1 = inl tt
  /\ fileOps (actions (runInit sys s).2)
     = (fileOps (actions s)
        ++ Stat configPath :: MkdirAll wrapperDir
           :: match parseInitHelpText (embedded sys) with
              | Some _ => []
              | None => [Execute "init" None [("WrapperDir", wrapperDir)]]
              end)%list.
Proof.
  intros configPath wrapperDir Hstat.
  assert (Hconfig : forall s',
            sessionEnviron s' = sessionEnviron s ->
            createDefaultConfig sys s' = (inl None, addActions s' [Do (Stat configPath)])).
  { intros s' Henv. unfold createDefaultConfig.
    rewrite mgr_bind_run. unfold getConfigPath. rewrite lift_expandPath. cbv beta iota.
    rewrite Henv. fold (getConfigPathIn (sessionEnviron s)). fold configPath.
    rewrite mgr_bind_run, perform_run, Hstat. reflexivity. }
  assert (Hrun : exists acts,
            runInit sys s = (inl tt, addActions s acts)
            /\ fileOps acts
               = Stat configPath :: MkdirAll wrapperDir
                 :: match parseInitHelpText (embedded sys) with
                    | Some _ => []
                    | None => [Execute "init" None [("WrapperDir", wrapperDir)]]
                    end).
  { unfold runInit. rewrite mgr_bind_run. unfold logInfo at 1. rewrite lift_emit.
    cbv beta iota. rewrite mgr_bind_run, Hconfig by reflexivity. cbv beta iota.
    rewrite mgr_bind_run. unfold logSuccess at 1. rewrite lift_emit. cbv beta iota.
    rewrite mgr_bind_run. unfold getWrapperDir. rewrite lift_expandPath. cbv beta iota.
    cbn [sessionEnviron addActions]. fold (getWrapperDirIn (sessionEnviron s)).
    fold wrapperDir.
    rewrite mgr_bind_run, perform_run. cbv beta iota.
    rewrite mgr_bind_run, lift_os_Getenv. cbv beta iota.
    rewrite mgr_bind_run. unfold logSuccess at 1. rewrite lift_emit. cbv beta iota.
    destruct (parseInitHelpText (embedded sys)) as [e|].
    - unfold logError. rewrite lift_emit. unfold addActions. cbn [actions sessionEnviron
        sessionDebugMode]. rewrite <- !app_assoc.
      eexists. split; [reflexivity | reflexivity].
    - rewrite mgr_bind_run, perform_run. unfold addActions. cbn [actions sessionEnviron
        sessionDebugMode]. rewrite <- !app_assoc.
      eexists. split; [reflexivity | reflexivity]. }
  destruct Hrun as (acts & -> & Hacts).
  split; [reflexivity|]. cbn [snd actions addActions].
  now rewrite fileOps_app, Hacts.
Qed.

Lemma init_keeps_existing_config_witness :
  answer (sysManager ["multiprof"; "init"]) (Stat (getConfigPathIn envHome)) = None
  /\ fileOps (actions (runInit (sysManager ["multiprof"; "init"]) (start envHome)).2)
     = [ Stat "/home/u/.config/multiprof/config.toml";
         MkdirAll "/home/u/.local/bin/multiprof";
         Execute "init" None [("WrapperDir", "/home/u/.local/bin/multiprof")] ].
Proof.
  split; [reflexivity|].
  exact (proj2 (init_keeps_existing_config (sysManager ["multiprof"; "init"])
                  (start envHome) eq_refl)).
Defined.

(** ** The name a wrapper is started by *)

Section CalledAs.

(** The base name of a path that ends with a separator and a name is
    that name. *)
Lemma Base_slash (dir name : string) :
  name <> "" -> hasByte "/" name = false ->
  filepath.Base (dir ++ "/" ++ name) = name.
Proof.
  intros Hne Hs. unfold filepath.Base.
  assert (Hpath : String.eqb (dir ++ "/" ++ name) "" = false) by (now destruct dir).
  rewrite Hpath, list_ascii_app. cbn [list_ascii_of_string append].
  rewrite rev_app_distr. cbn [rev]. rewrite <- !app_assoc. cbn [app].
  rewrite stripSeps_rev_elem, lastElem_rev_elem, sapp_nil_r by assumption.
  cbn [filepath.lastElem]. change (filepath.IsPathSeparator "/") with true. cbv iota.
  apply String.eqb_neq in Hne. now rewrite Hne.
Qed.

(** The base name of a name is the name. *)
Lemma Base_name (name : string) :
  name <> "" -> hasByte "/" name = false -> filepath.Base name = name.
Proof.
  intros Hne Hs. unfold filepath.Base.
  apply String.eqb_neq in Hne as Hb. rewrite Hb.
  rewrite <- (app_nil_r (rev _)).
  rewrite stripSeps_rev_elem, lastElem_rev_elem, sapp_nil_r
    by (try assumption; now apply String.eqb_neq).
  cbn [filepath.lastElem]. now rewrite Hb.
Qed.

End CalledAs.

(** X18.  The command [runWrapper] looks for depends on the last element
    of [os.Args[0]] only: started by the bare name of the wrapper or by
    any path that ends with a separator and that name, it looks for the
    name without the suffix. *)
Theorem wrapper_target_ignores_directory (h : Host) (env0 envL : gmap string string)
    (file dir name : string) (args : list string) :
  name <> "" -> hasByte "/" name = false ->
  Args h = name :: args \/ Args h = (dir ++ "/" ++ name) :: args ->
  (envL, file) ∈ lookups (output (runWrapper h (init env0)).2) ->
  file = strings.TrimSuffix name (Suffix (settings (loadConfig h))).
Proof.
  intros Hne Hs HArgs Hin.
  destruct (runWrapper_lookup h env0 envL file Hin)
    as (k & rule & arg0 & args' & _ & _ & _ & HArgs' & Hrun).
  cbv zeta in Hrun. destruct Hrun as (_ & -> & _).
  destruct HArgs as [HArgs|HArgs]; rewrite HArgs in HArgs'.
  - assert (Harg0 : arg0 = name) by congruence.
    now rewrite Harg0, Base_name.
  - assert (Harg0 : arg0 = dir ++ "/" ++ name) by congruence.
    now rewrite Harg0, Base_slash.
Qed.

(** [aws_w] started as [/home/u/.local/bin/multiprof/aws_w]. *)
Lemma wrapper_target_ignores_directory_witness :
  Args hostWork = ("/home/u/.local/bin/multiprof" ++ "/" ++ "aws_w") :: ["s3"; "ls"]
  /\ (envAtLookup, "aws") ∈ lookups (output (runWrapper hostWork (init envHome)).2)
  /\ "aws" = strings.TrimSuffix "aws_w" (Suffix (settings (loadConfig hostWork))).
Proof.
  assert (Hin : (envAtLookup, "aws")
                ∈ lookups (output (runWrapper hostWork (init envHome)).2))
    by (vm_compute; apply list_elem_of_here).
  split; [reflexivity|]. split; [exact Hin|].
  exact (wrapper_target_ignores_directory hostWork envHome envAtLookup "aws"
           "/home/u/.local/bin/multiprof" "aws_w" ["s3"; "ls"]
           ltac:(discriminate) eq_refl (or_intror eq_refl) Hin).
Defined.
